(** * sip: sessions, message dispatch, framing and admission control

    A shallow embedding of the Go package [sip] (session.go, the command
    session file, the handlers file and server.go).  Go [int] values are
    unbounded [Z] where the code only stores and compares them; the
    connection counter is an [int32] and wraps.  External objects (the
    xpty pseudo-terminal, the tea.Program, the network stream) are
    records of what the code hands to them. *)

From Stdlib Require Import ZArith Lia Strings.Byte Strings.Ascii.
From stdpp Require Import base option list gmap strings pretty.

Local Open Scope Z_scope.

(** ** Results of code that may dereference a nil pointer *)

Inductive result (A : Type) : Type :=
| Ok (a : A)
| Panic.
Arguments Ok {A} a.
Arguments Panic {A}.

#[export] Instance result_bind : MBind result := λ A B k r,
  match r with
  | Ok a => k a
  | Panic => Panic
  end.

#[export] Instance result_ret : MRet result := λ A a, Ok a.

(** ** Message types and payloads (handlers file) *)

Definition MsgInput   : byte := x30.
Definition MsgOutput  : byte := x31.
Definition MsgResize  : byte := x32.
Definition MsgPing    : byte := x33.
Definition MsgPong    : byte := x34.
Definition MsgTitle   : byte := x35.
Definition MsgOptions : byte := x36.
Definition MsgClose   : byte := x37.

Definition readBufSize : Z := 16 * 1024.
Definition writeBufSize : Z := 16 * 1024 + 5.

Record ResizeMessage := { Cols : Z; Rows : Z }.

Record OptionsMessage := { opt_ReadOnly : bool }.

Record Pty := { Pty_Width : Z; Pty_Height : Z }.

Record WindowSize := { Width : Z; Height : Z }.

Record Config := {
  Host : string;
  Port : string;
  ReadOnly : bool;
  MaxConnections : Z;
  IdleTimeout : Z;
  AllowOrigins : list string;
  Debug : bool;
}.

Definition DefaultConfig : Config :=
  {| Host := "localhost"; Port := "7681"; ReadOnly := false;
     MaxConnections := 0; IdleTimeout := 0; AllowOrigins := [];
     Debug := false |}.

(** ** The package logger: the lines a call emits *)

Inductive logLevel := LDebug | LInfo | LWarn | LError.

Record logLine := { log_level : logLevel; log_msg : string }.

Definition warnings (l : list logLine) : list string :=
  omap (λ e, match log_level e with LWarn => Some (log_msg e) | _ => None end) l.

(** ** Buffered channels with the non-blocking operations the code uses *)

Record chan (A : Type) := { chan_cap : nat; chan_buf : list A }.
Arguments chan_cap {A} _.
Arguments chan_buf {A} _.

Definition make_chan {A} (cap : nat) : chan A :=
  {| chan_cap := cap; chan_buf := [] |}.

(** [select { case c <- v: default: }] *)
Definition try_send {A} (c : chan A) (v : A) : chan A :=
  if (length (chan_buf c) <? chan_cap c)%nat
  then {| chan_cap := chan_cap c; chan_buf := chan_buf c ++ [v] |}
  else c.

(** A receive that finds a value: [v := <-c]. *)
Definition recv {A} (c : chan A) : option (A * chan A) :=
  match chan_buf c with
  | [] => None
  | v :: rest => Some (v, {| chan_cap := chan_cap c; chan_buf := rest |})
  end.

(** ** The pseudo-terminal bridge

    [platformPty] (Unix pty or Windows pipe pair) and [cmdPlatformPty]
    (pty plus spawned command).  The model keeps the size the OS terminal
    was last given, the [Write] calls made on the input writer, and the
    [Close] calls. *)

Inductive backend := UnixBackend | WindowsBackend.

Record platformPty := {
  pp_backend : backend;
  pp_size : option (Z * Z);
  pp_written : list (list byte);
  pp_closes : nat;
}.

(** [newPlatformPty]: [xpty.NewPty(cols, rows)] on Unix, which may fail;
    two pipes on Windows, where the size is not used. *)
Definition newPlatformPty (be : backend) (pty_ok : bool) (cols rows : Z)
  : option platformPty :=
  match be with
  | UnixBackend =>
      if pty_ok
      then Some {| pp_backend := UnixBackend; pp_size := Some (cols, rows);
                   pp_written := []; pp_closes := 0 |}
      else None
  | WindowsBackend =>
      Some {| pp_backend := WindowsBackend; pp_size := None;
              pp_written := []; pp_closes := 0 |}
  end.

Definition platformPty_Resize (p : platformPty) (cols rows : Z) : platformPty :=
  match pp_backend p with
  | UnixBackend =>
      {| pp_backend := pp_backend p; pp_size := Some (cols, rows);
         pp_written := pp_written p; pp_closes := pp_closes p |}
  | WindowsBackend => p
  end.

Definition platformPty_Write (p : platformPty) (data : list byte) : platformPty :=
  {| pp_backend := pp_backend p; pp_size := pp_size p;
     pp_written := pp_written p ++ [data]; pp_closes := pp_closes p |}.

Definition platformPty_Close (p : platformPty) : platformPty :=
  {| pp_backend := pp_backend p; pp_size := pp_size p;
     pp_written := pp_written p; pp_closes := S (pp_closes p) |}.

Record cmdPlatformPty := {
  cpp_size : Z * Z;
  cpp_written : list (list byte);
  cpp_closes : nat;
  cpp_kills : nat;
}.

(** [newCmdPlatformPty]: open the pty at (cols, rows) and start the
    command on it; either step may fail. *)
Definition newCmdPlatformPty (pty_ok start_ok : bool) (cols rows : Z)
  : option cmdPlatformPty :=
  if pty_ok && start_ok
  then Some {| cpp_size := (cols, rows); cpp_written := [];
               cpp_closes := 0; cpp_kills := 0 |}
  else None.

Definition cmdPlatformPty_Resize (p : cmdPlatformPty) (cols rows : Z) : cmdPlatformPty :=
  {| cpp_size := (cols, rows); cpp_written := cpp_written p;
     cpp_closes := cpp_closes p; cpp_kills := cpp_kills p |}.

Definition cmdPlatformPty_Write (p : cmdPlatformPty) (data : list byte) : cmdPlatformPty :=
  {| cpp_size := cpp_size p; cpp_written := cpp_written p ++ [data];
     cpp_closes := cpp_closes p; cpp_kills := cpp_kills p |}.

Definition cmdPlatformPty_Close (p : cmdPlatformPty) : cmdPlatformPty :=
  {| cpp_size := cpp_size p; cpp_written := cpp_written p;
     cpp_closes := S (cpp_closes p); cpp_kills := S (cpp_kills p) |}.

(** ** The tea.Program of an embedded session: what it was sent *)

Record teaProgram := {
  prog_sizes : list WindowSize;
  prog_quits : nat;
}.

Definition program_Send (p : teaProgram) (w : WindowSize) : teaProgram :=
  {| prog_sizes := prog_sizes p ++ [w]; prog_quits := prog_quits p |}.

Definition program_Quit (p : teaProgram) : teaProgram :=
  {| prog_sizes := prog_sizes p; prog_quits := S (prog_quits p) |}.

(** ** webSession (session.go) *)

Record webSession := {
  ws_id : string;
  ws_program : option teaProgram;
  ws_platform : option platformPty;
  ws_cols : Z;
  ws_rows : Z;
  ws_cancels : nat;          (* calls of cancelFunc *)
  ws_ctx_done : bool;        (* ctx.Done() is closed *)
  ws_closed : bool;
  ws_windowChanges : chan WindowSize;
}.

Definition webSession_Pty (s : webSession) : Pty :=
  {| Pty_Width := ws_cols s; Pty_Height := ws_rows s |}.

Definition webSession_Done (s : webSession) : bool := ws_ctx_done s.

Definition webSession_Resize (s : webSession) (cols rows : Z) : webSession :=
  {| ws_id := ws_id s;
     ws_program :=
       match ws_program s with
       | Some p => Some (program_Send p {| Width := cols; Height := rows |})
       | None => None
       end;
     ws_platform :=
       match ws_platform s with
       | Some p => Some (platformPty_Resize p cols rows)
       | None => None
       end;
     ws_cols := cols;
     ws_rows := rows;
     ws_cancels := ws_cancels s;
     ws_ctx_done := ws_ctx_done s;
     ws_closed := ws_closed s;
     ws_windowChanges :=
       try_send (ws_windowChanges s) {| Width := cols; Height := rows |} |}.

(** [s.InputWriter().Write(p)]: dereferences [s.platform]. *)
Definition webSession_InputWrite (s : webSession) (data : list byte)
  : result webSession :=
  match ws_platform s with
  | None => Panic
  | Some p =>
      Ok {| ws_id := ws_id s; ws_program := ws_program s;
            ws_platform := Some (platformPty_Write p data);
            ws_cols := ws_cols s; ws_rows := ws_rows s;
            ws_cancels := ws_cancels s; ws_ctx_done := ws_ctx_done s;
            ws_closed := ws_closed s;
            ws_windowChanges := ws_windowChanges s |}
  end.

(** ** cmdSession (command session file) *)

Record cmdSession := {
  cs_id : string;
  cs_platform : option cmdPlatformPty;
  cs_cols : Z;
  cs_rows : Z;
  cs_cancels : nat;
  cs_ctx_done : bool;
  cs_closed : bool;
  cs_windowChanges : chan WindowSize;
}.

Definition cmdSession_Pty (s : cmdSession) : Pty :=
  {| Pty_Width := cs_cols s; Pty_Height := cs_rows s |}.

Definition cmdSession_Done (s : cmdSession) : bool := cs_ctx_done s.

Definition cmdSession_Resize (s : cmdSession) (cols rows : Z) : cmdSession :=
  {| cs_id := cs_id s;
     cs_platform :=
       match cs_platform s with
       | Some p => Some (cmdPlatformPty_Resize p cols rows)
       | None => None
       end;
     cs_cols := cols;
     cs_rows := rows;
     cs_cancels := cs_cancels s;
     cs_ctx_done := cs_ctx_done s;
     cs_closed := cs_closed s;
     cs_windowChanges :=
       try_send (cs_windowChanges s) {| Width := cols; Height := rows |} |}.

Definition cmdSession_InputWrite (s : cmdSession) (data : list byte)
  : result cmdSession :=
  match cs_platform s with
  | None => Panic
  | Some p =>
      Ok {| cs_id := cs_id s;
            cs_platform := Some (cmdPlatformPty_Write p data);
            cs_cols := cs_cols s; cs_rows := cs_rows s;
            cs_cancels := cs_cancels s; cs_ctx_done := cs_ctx_done s;
            cs_closed := cs_closed s;
            cs_windowChanges := cs_windowChanges s |}
  end.

(** ** internalSession: the interface the handlers are written against *)

Class internalSession (Sess : Type) := {
  InputWrite : Sess → list byte → result Sess;
  Resize : Sess → Z → Z → Sess;
  Done : Sess → bool;
}.

#[export] Instance webSession_internal : internalSession webSession :=
  {| InputWrite := webSession_InputWrite;
     Resize := webSession_Resize;
     Done := webSession_Done |}.

#[export] Instance cmdSession_internal : internalSession cmdSession :=
  {| InputWrite := cmdSession_InputWrite;
     Resize := cmdSession_Resize;
     Done := cmdSession_Done |}.

(** ** The server (server.go) *)

Record CommandHandler := {
  cmd_name : string;
  cmd_args : list string;
  cmd_dir : string;
}.

Inductive sessionKind := WebKind | CmdKind.

(** [ProgramHandler]: builds the program for a session; [None] is nil. *)
Definition ProgramHandler := webSession → option teaProgram.

(** [handler] is only called in embedded mode, where [newHTTPServer] sets
    it; [cmdHandler] is nil ([None]) in embedded mode. *)
Record httpServer := {
  config : Config;
  handler : ProgramHandler;
  cmdHandler : option CommandHandler;
  sessions : gmap string sessionKind;
  connCount : Z;
}.

Definition set_sessions (srv : httpServer) (m : gmap string sessionKind) : httpServer :=
  {| config := config srv; handler := handler srv;
     cmdHandler := cmdHandler srv;
     sessions := m; connCount := connCount srv |}.

Definition set_connCount (srv : httpServer) (n : Z) : httpServer :=
  {| config := config srv; handler := handler srv;
     cmdHandler := cmdHandler srv;
     sessions := sessions srv; connCount := n |}.

(** *** Admission control *)

(** Two's-complement wrap of [int32] arithmetic. *)
Definition wrap_int32 (z : Z) : Z := (z + 2 ^ 31) mod 2 ^ 32 - 2 ^ 31.

(** [atomic.AddInt32(&s.connCount, 1)] *)
Definition incrementConnCount (srv : httpServer) : httpServer * Z :=
  let n := wrap_int32 (connCount srv + 1) in (set_connCount srv n, n).

(** [atomic.AddInt32(&s.connCount, -1)] *)
Definition decrementConnCount (srv : httpServer) : httpServer * Z :=
  let n := wrap_int32 (connCount srv - 1) in (set_connCount srv n, n).

Definition checkConnectionLimit (srv : httpServer) : httpServer * bool :=
  if MaxConnections (config srv) <=? 0 then (srv, true)
  else
    let '(srv1, newCount) := incrementConnCount srv in
    if newCount >? MaxConnections (config srv)
    then (fst (decrementConnCount srv1), false)
    else (srv1, true).

Definition releaseConnection (srv : httpServer) : httpServer :=
  if MaxConnections (config srv) <=? 0 then srv
  else fst (decrementConnCount srv).

(** ** Session creation and destruction *)

Inductive sessionError :=
| ErrCreatePTY
| ErrNilProgram
| ErrNoCommandHandler
| ErrCreateCmdPTY.

(** What the operating system answers during one session creation. *)
Record osEnv := {
  os_backend : backend;
  os_pty_ok : bool;        (* xpty.NewPty succeeds *)
  os_start_ok : bool;      (* pty.Start(cmd) succeeds *)
  os_now : Z;              (* time.Now().UnixNano() *)
}.

Definition session_id (os : osEnv) : string := pretty (os_now os).

(** [createSession(ctx, handler, initialCols, initialRows)];
    [ctx_done] says whether the parent context is already cancelled. *)
Definition createSession (os : osEnv) (srv : httpServer) (ctx_done : bool)
    (handler_ : ProgramHandler) (initialCols initialRows : Z)
  : httpServer * (sessionError + webSession) :=
  let cols := if initialCols <=? 0 then 80 else initialCols in
  let rows := if initialRows <=? 0 then 24 else initialRows in
  match newPlatformPty (os_backend os) (os_pty_ok os) cols rows with
  | None => (srv, inl ErrCreatePTY)
  | Some platform =>
      let session :=
        {| ws_id := session_id os;
           ws_program := None;
           ws_platform := Some platform;
           ws_cols := cols;
           ws_rows := rows;
           ws_cancels := 0%nat;
           ws_ctx_done := ctx_done;
           ws_closed := false;
           ws_windowChanges := make_chan 1 |} in
      match handler_ session with
      | None => (srv, inl ErrNilProgram)
      | Some program =>
          let session' :=
            {| ws_id := ws_id session;
               ws_program := Some program;
               ws_platform := ws_platform session;
               ws_cols := ws_cols session;
               ws_rows := ws_rows session;
               ws_cancels := ws_cancels session;
               ws_ctx_done := ws_ctx_done session;
               ws_closed := ws_closed session;
               ws_windowChanges := ws_windowChanges session |} in
          (set_sessions srv (<[ws_id session' := WebKind]> (sessions srv)),
           inr session')
      end
  end.

(** [createCmdSession(ctx, initialCols, initialRows)] *)
Definition createCmdSession (os : osEnv) (srv : httpServer) (ctx_done : bool)
    (initialCols initialRows : Z)
  : httpServer * (sessionError + cmdSession) :=
  match cmdHandler srv with
  | None => (srv, inl ErrNoCommandHandler)
  | Some _ =>
      let cols := if initialCols <=? 0 then 80 else initialCols in
      let rows := if initialRows <=? 0 then 24 else initialRows in
      match newCmdPlatformPty (os_pty_ok os) (os_start_ok os) cols rows with
      | None => (srv, inl ErrCreateCmdPTY)
      | Some platform =>
          let session :=
            {| cs_id := session_id os;
               cs_platform := Some platform;
               cs_cols := cols;
               cs_rows := rows;
               cs_cancels := 0%nat;
               cs_ctx_done := ctx_done;
               cs_closed := false;
               cs_windowChanges := make_chan 1 |} in
          (set_sessions srv (<[cs_id session := CmdKind]> (sessions srv)),
           inr session)
      end
  end.

(** [closeSession(session)] *)
Definition closeSession (srv : httpServer) (s : webSession)
  : httpServer * webSession :=
  if ws_closed s then (srv, s)
  else
    (set_sessions srv (delete (ws_id s) (sessions srv)),
     {| ws_id := ws_id s;
        ws_program := program_Quit <$> ws_program s;
        ws_platform := platformPty_Close <$> ws_platform s;
        ws_cols := ws_cols s;
        ws_rows := ws_rows s;
        ws_cancels := S (ws_cancels s);
        ws_ctx_done := true;
        ws_closed := true;
        ws_windowChanges := ws_windowChanges s |}).

(** [closeCmdSession(session)] *)
Definition closeCmdSession (srv : httpServer) (s : cmdSession)
  : httpServer * cmdSession :=
  if cs_closed s then (srv, s)
  else
    (set_sessions srv (delete (cs_id s) (sessions srv)),
     {| cs_id := cs_id s;
        cs_platform := cmdPlatformPty_Close <$> cs_platform s;
        cs_cols := cs_cols s;
        cs_rows := cs_rows s;
        cs_cancels := S (cs_cancels s);
        cs_ctx_done := true;
        cs_closed := true;
        cs_windowChanges := cs_windowChanges s |}).

(** ** Framing helpers *)

#[export] Instance byte_eq_dec : EqDecision byte := Byte.byte_eq_dec.

Definition byte_to_Z (b : byte) : Z := Z.of_N (Byte.to_N b).

(** [binary.BigEndian.Uint32(b)] on a 4-byte buffer *)
Definition BigEndian_Uint32 (b : list byte) : Z :=
  match b with
  | [b0; b1; b2; b3] =>
      Z.lor (byte_to_Z b3)
        (Z.lor (Z.shiftl (byte_to_Z b2) 8)
           (Z.lor (Z.shiftl (byte_to_Z b1) 16) (Z.shiftl (byte_to_Z b0) 24)))
  | _ => 0
  end.

(** [binary.BigEndian.PutUint32(buf, uint32(n))] *)
Definition BigEndian_PutUint32 (n : Z) : list byte :=
  let u := n mod 2 ^ 32 in
  let at_ (k : Z) :=
    default x00 (Byte.of_N (Z.to_N (Z.land (Z.shiftr u k) 255))) in
  [at_ 24; at_ 16; at_ 8; at_ 0].

(** [writeFramed(w, msg)]: the bytes handed to [w.Write]. *)
Definition writeFramed (msg : list byte) : list byte :=
  BigEndian_PutUint32 (Z.of_nat (length msg)) ++ msg.

(** [io.ReadFull(stream, buf)] with [len(buf) = n]: the stream is the
    bytes the client sends before closing; too few bytes is an error
    (EOF or unexpected EOF) and the stream is then exhausted. *)
Definition ReadFull (n : nat) (stream : list byte) : option (list byte) * list byte :=
  if (n <=? length stream)%nat
  then (Some (take n stream), drop n stream)
  else (None, []).

(** [select] over [ctx.Done()] and [session.Done()] with a [default].
    When both are ready Go picks one of them; [pick_ctx] is that pick. *)
Inductive selected := SelCtx | SelSession | SelDefault.

Definition select_done (pick_ctx ctx_done session_done : bool) : selected :=
  match ctx_done, session_done with
  | true, true => if pick_ctx then SelCtx else SelSession
  | true, false => SelCtx
  | false, true => SelSession
  | false, false => SelDefault
  end.

Definition frameCap : Z := 1024 * 1024.

(** ** The session of a connection: one of the two kinds *)

Inductive anySession :=
| AnyWeb (s : webSession)
| AnyCmd (s : cmdSession).

Definition createAnySession (os : osEnv) (srv : httpServer) (ctx_done : bool)
    (cols rows : Z) : httpServer * (sessionError + anySession) :=
  match cmdHandler srv with
  | Some _ =>
      let '(srv', r) := createCmdSession os srv ctx_done cols rows in
      (srv', sum_map id AnyCmd r)
  | None =>
      let '(srv', r) := createSession os srv ctx_done (handler srv) cols rows in
      (srv', sum_map id AnyWeb r)
  end.

Section Dispatch.

(** [json.Unmarshal(payload, &resize)] on a fresh [ResizeMessage]:
    the decoded value, or [None] when it returns an error. *)
Variable json_Unmarshal : list byte → option ResizeMessage.

Context {Sess : Type} `{internalSession Sess}.

(** *** The message dispatcher *)

Definition processInput (srv : httpServer) (data : list byte) (session : Sess)
  : result (Sess * list logLine) :=
  match data with
  | [] => Ok (session, [])
  | msgType :: payload =>
      if decide (msgType = MsgInput) then
        if negb (ReadOnly (config srv))
        then s' ← InputWrite session payload; Ok (s', [])
        else Ok (session, [])
      else if decide (msgType = MsgResize) then
        match json_Unmarshal payload with
        | None =>
            Ok (session,
                [{| log_level := LWarn; log_msg := "invalid resize message" |}])
        | Some resize =>
            Ok (Resize session (Cols resize) (Rows resize),
                [{| log_level := LDebug; log_msg := "terminal resized" |}])
        end
      else if decide (msgType = MsgPing) then Ok (session, [])
      else Ok (session, [])
  end.

(** Dispatching a sequence of messages in arrival order. *)
Fixpoint processInputs (srv : httpServer) (msgs : list (list byte)) (session : Sess)
  : result (Sess * list logLine) :=
  match msgs with
  | [] => Ok (session, [])
  | data :: rest =>
      '(s1, l1) ← processInput srv data session;
      '(s2, l2) ← processInputs srv rest s1;
      Ok (s2, l1 ++ l2)
  end.

(** *** Input pumps *)

Inductive pumpExit :=
| ExitCtxDone
| ExitSessionDone
| ExitReadError
| ExitTooLarge
| ExitOutOfFuel.

Record pumpReturn := {
  pr_exit : pumpExit;
  pr_session : Sess;
  pr_rest : list byte;
  pr_logs : list logLine;
  pr_msgCount : nat;
}.

(** The body of the loop of [handleWebTransportInput] after its
    [select]: read the length prefix, check it against the cap, read the
    message and dispatch it.  The loop either returns or goes round. *)
Inductive readStep :=
| ReadExit (e : pumpExit) (rest : list byte) (logs : list logLine)
| ReadNext (session : Sess) (rest : list byte) (logs : list logLine).

Definition readMessage (srv : httpServer) (stream : list byte) (session : Sess)
  : result readStep :=
  match ReadFull 4 stream with
  | (None, st1) => Ok (ReadExit ExitReadError st1 [])
  | (Some lenBuf, st1) =>
      let length := BigEndian_Uint32 lenBuf in
      if length >? frameCap then
        Ok (ReadExit ExitTooLarge st1
              [{| log_level := LWarn; log_msg := "message too large" |}])
      else
        match ReadFull (Z.to_nat length) st1 with
        | (None, st2) => Ok (ReadExit ExitReadError st2 [])
        | (Some msg, st2) =>
            '(s1, l1) ← processInput srv msg session;
            Ok (ReadNext s1 st2 l1)
        end
  end.

(** [handleWebTransportInput]: [fuel] bounds the iterations of the
    [for] loop, [stream] is what the client still sends. *)
Fixpoint handleWebTransportInput (fuel : nat) (srv : httpServer)
    (pick_ctx ctx_done : bool) (stream : list byte) (session : Sess)
    (logs : list logLine) (msgCount : nat) : result pumpReturn :=
  let ret e st l :=
    Ok {| pr_exit := e; pr_session := session; pr_rest := st;
          pr_logs := logs ++ l; pr_msgCount := msgCount |} in
  match fuel with
  | O => ret ExitOutOfFuel stream []
  | S fuel' =>
      match select_done pick_ctx ctx_done (Done session) with
      | SelCtx =>
          ret ExitCtxDone stream
            [{| log_level := LDebug; log_msg := "WebTransport input stopped" |}]
      | SelSession => ret ExitSessionDone stream []
      | SelDefault =>
          r ← readMessage srv stream session;
          match r with
          | ReadExit e st l => ret e st l
          | ReadNext s1 st l1 =>
              handleWebTransportInput fuel' srv pick_ctx ctx_done st s1
                (logs ++ l1) (S msgCount)
          end
      end
  end.

(** [handleWebSocketInput]: [conn.Read] returns the client's messages
    one by one and an error once the list is exhausted. *)
Fixpoint handleWebSocketInput (srv : httpServer) (pick_ctx ctx_done : bool)
    (conn : list (list byte)) (session : Sess) (logs : list logLine)
  : result (pumpExit * Sess * list logLine) :=
  match select_done pick_ctx ctx_done (Done session) with
  | SelCtx =>
      Ok (ExitCtxDone, session,
          logs ++ [{| log_level := LDebug; log_msg := "WebSocket input stopped" |}])
  | SelSession => Ok (ExitSessionDone, session, logs)
  | SelDefault =>
      match conn with
      | [] => Ok (ExitReadError, session, logs)
      | data :: conn' =>
          '(s1, l1) ← processInput srv data session;
          handleWebSocketInput srv pick_ctx ctx_done conn' s1 (logs ++ l1)
      end
  end.

(** *** Initial size negotiation *)

(** The first [conn.Read] of [handleWebSocket] runs under
    [context.WithTimeout(ctx, 5*time.Second)]. *)
Definition initialReadTimeout_ms : Z := 5 * 1000.

(** The client's first message, if any (one within the read limit of
    the library, see [websocketReadLimit]), and the delay after which it
    arrives; the read fails when its context is already cancelled or
    nothing arrives before the deadline. *)
Definition conn_Read_timeout (ctx_done : bool) (timeout_ms : Z)
    (first : option (Z * list byte)) : option (list byte) :=
  if ctx_done then None
  else
    match first with
    | Some (delay_ms, data) =>
        if delay_ms <? timeout_ms then Some data else None
    | None => None
    end.

Definition initialSizeWebSocket (ctx_done : bool) (first : option (Z * list byte))
  : Z * Z :=
  match conn_Read_timeout ctx_done initialReadTimeout_ms first with
  | Some (t :: payload) =>
      if decide (t = MsgResize) then
        match json_Unmarshal payload with
        | Some resize => (Cols resize, Rows resize)
        | None => (80, 24)
        end
      else (80, 24)
  | _ => (80, 24)
  end.

(** The negotiation of [handleWebTransport]: one framed message of
    fewer than 1024 bytes, read without a deadline. *)
Definition initialSizeWebTransport (stream : list byte) : (Z * Z) * list byte :=
  match ReadFull 4 stream with
  | (None, st1) => ((80, 24), st1)
  | (Some lenBuf, st1) =>
      let length := BigEndian_Uint32 lenBuf in
      if length <? 1024 then
        match ReadFull (Z.to_nat length) st1 with
        | (Some (t :: payload), st2) =>
            if decide (t = MsgResize) then
              match json_Unmarshal payload with
              | Some resize => ((Cols resize, Rows resize), st2)
              | None => ((80, 24), st2)
              end
            else ((80, 24), st2)
        | (_, st2) => ((80, 24), st2)
        end
      else ((80, 24), st1)
  end.

(** *** From the first frame to the session (both handlers) *)

Definition openWebSocketSession (os : osEnv) (srv : httpServer) (ctx_done : bool)
    (first : option (Z * list byte))
  : httpServer * (sessionError + anySession) :=
  let '(cols, rows) := initialSizeWebSocket ctx_done first in
  createAnySession os srv ctx_done cols rows.

Definition openWebTransportSession (os : osEnv) (srv : httpServer)
    (ctx_done : bool) (stream : list byte)
  : httpServer * (sessionError + anySession) * list byte :=
  let '((cols, rows), rest) := initialSizeWebTransport stream in
  (createAnySession os srv ctx_done cols rows, rest).

End Dispatch.

Definition anySession_Pty (a : anySession) : Pty :=
  match a with
  | AnyWeb s => webSession_Pty s
  | AnyCmd s => cmdSession_Pty s
  end.

(** ** A decoder for the client's encoding of a resize payload

    The browser sends [JSON.stringify({cols, rows})]: an object with the
    keys cols and rows, in that order, and decimal integers.
    [clientResize] decodes exactly that shape and [resizePayload] builds
    it; they instantiate [json_Unmarshal] in the examples. *)

Definition bytes (s : string) : list byte := String.list_byte_of_string s.

Definition json_key (k : string) : list byte :=
  [x22] ++ bytes k ++ [x22; ":"%byte].

Definition resizePayload (cols rows : Z) : list byte :=
  bytes "{" ++ json_key "cols" ++ bytes (pretty cols) ++
  bytes "," ++ json_key "rows" ++ bytes (pretty rows) ++ bytes "}".

Fixpoint strip_prefix (p s : list byte) : option (list byte) :=
  match p, s with
  | [], _ => Some s
  | a :: p', b :: s' => if decide (a = b) then strip_prefix p' s' else None
  | _ :: _, [] => None
  end.

Definition digit (b : byte) : option Z :=
  let n := byte_to_Z b in
  if (48 <=? n) && (n <=? 57) then Some (n - 48) else None.

Fixpoint digits (acc : Z) (s : list byte) : Z * list byte :=
  match s with
  | b :: s' =>
      match digit b with
      | Some d => digits (acc * 10 + d) s'
      | None => (acc, s)
      end
  | [] => (acc, [])
  end.

Definition integer (s : list byte) : option (Z * list byte) :=
  match s with
  | b :: s' =>
      if decide (b = "-"%byte) then
        match s' with
        | c :: _ =>
            match digit c with
            | Some _ => let '(n, r) := digits 0 s' in Some (- n, r)
            | None => None
            end
        | [] => None
        end
      else
        match digit b with
        | Some _ => Some (digits 0 s)
        | None => None
        end
  | [] => None
  end.

Definition clientResize (payload : list byte) : option ResizeMessage :=
  s1 ← strip_prefix (bytes "{" ++ json_key "cols") payload;
  '(c, s2) ← integer s1;
  s3 ← strip_prefix (bytes "," ++ json_key "rows") s2;
  '(r, s4) ← integer s3;
  match s4 with
  | [b] => if decide (b = "}"%byte) then Some {| Cols := c; Rows := r |} else None
  | _ => None
  end.

(** ** Bursts of resizes *)

(** Non-blocking sends of [vs], in order. *)
Definition send_all {A} (c : chan A) (vs : list A) : chan A :=
  foldl try_send c vs.

Definition windowSize (cr : Z * Z) : WindowSize :=
  {| Width := cr.1; Height := cr.2 |}.

(** [Resize] called once per element, in order. *)
Definition resizeBurst {Sess} `{internalSession Sess} (s : Sess) (rs : list (Z * Z)) : Sess :=
  foldl (λ s cr, Resize s cr.1 cr.2) s rs.

(** The size a session reports after the decoded resizes [rs], starting
    from the report [p]. *)
Definition reportedAfter (p : Pty) (rs : list ResizeMessage) : Pty :=
  match last rs with
  | Some r => {| Pty_Width := Cols r; Pty_Height := Rows r |}
  | None => p
  end.

Definition resizeFrame (payload : list byte) : list byte := MsgResize :: payload.

Definition inputFrame (payload : list byte) : list byte := MsgInput :: payload.

(** The [Write] calls a session's bridge has received. *)
Definition webSession_written (s : webSession) : list (list byte) :=
  from_option pp_written [] (ws_platform s).

Definition cmdSession_written (s : cmdSession) : list (list byte) :=
  from_option cpp_written [] (cs_platform s).

(** Sessions as the constructors leave them and every method keeps them. *)
Definition webSession_wf (s : webSession) : Prop :=
  is_Some (ws_platform s) ∧
  chan_cap (ws_windowChanges s) = 1%nat ∧
  (length (chan_buf (ws_windowChanges s)) ≤ 1)%nat.

Definition cmdSession_wf (s : cmdSession) : Prop :=
  is_Some (cs_platform s) ∧
  chan_cap (cs_windowChanges s) = 1%nat ∧
  (length (chan_buf (cs_windowChanges s)) ≤ 1)%nat.

(** Example environment: a Unix host, a handler that always builds a
    program, a server in embedded mode and one in command mode. *)
Definition unixEnv : osEnv :=
  {| os_backend := UnixBackend; os_pty_ok := true; os_start_ok := true;
     os_now := 1700000000000000000 |}.

Definition someProgram : ProgramHandler :=
  λ _, Some {| prog_sizes := []; prog_quits := 0 |}.

Definition serverWith (cfg : Config) (cmd : option CommandHandler) : httpServer :=
  {| config := cfg; handler := someProgram; cmdHandler := cmd;
     sessions := ∅; connCount := 0 |}.

Definition shellCommand : CommandHandler :=
  {| cmd_name := "sh"; cmd_args := []; cmd_dir := "/" |}.

Definition readOnlyConfig : Config :=
  {| Host := "localhost"; Port := "7681"; ReadOnly := true;
     MaxConnections := 0; IdleTimeout := 0; AllowOrigins := [];
     Debug := false |}.

Definition limitedConfig (n : Z) : Config :=
  {| Host := "localhost"; Port := "7681"; ReadOnly := false;
     MaxConnections := n; IdleTimeout := 0; AllowOrigins := [];
     Debug := false |}.

(** A freshly created 80x24 session of each kind. *)
Definition freshWebSession : webSession :=
  {| ws_id := session_id unixEnv;
     ws_program := Some {| prog_sizes := []; prog_quits := 0 |};
     ws_platform := newPlatformPty UnixBackend true 80 24;
     ws_cols := 80; ws_rows := 24; ws_cancels := 0; ws_ctx_done := false;
     ws_closed := false; ws_windowChanges := make_chan 1 |}.

Definition freshCmdSession : cmdSession :=
  {| cs_id := session_id unixEnv;
     cs_platform := newCmdPlatformPty true true 80 24;
     cs_cols := 80; cs_rows := 24; cs_cancels := 0; cs_ctx_done := false;
     cs_closed := false; cs_windowChanges := make_chan 1 |}.

(** ** Scenarios of the initial negotiation *)

(** The client's first message fails to set the size: nothing arrives
    before the deadline, or the message is empty, is not a resize, or its
    payload does not decode. *)
Definition noInitialResize (json : list byte → option ResizeMessage)
    (first : option (Z * list byte)) : Prop :=
  match first with
  | None => True
  | Some (delay, data) =>
      initialReadTimeout_ms ≤ delay ∨
      match data with
      | [] => True
      | t :: payload => t ≠ MsgResize ∨ json payload = None
      end
  end.

(** ** The session of a connection as the handlers hold it *)

#[export] Instance result_fmap : FMap result := λ A B f r,
  match r with
  | Ok a => Ok (f a)
  | Panic => Panic
  end.

(** [var session internalSession]: the interface value of a connection. *)
#[export] Instance anySession_internal : internalSession anySession :=
  {| InputWrite a data :=
       match a with
       | AnyWeb s => AnyWeb <$> InputWrite s data
       | AnyCmd s => AnyCmd <$> InputWrite s data
       end;
     Resize a cols rows :=
       match a with
       | AnyWeb s => AnyWeb (Resize s cols rows)
       | AnyCmd s => AnyCmd (Resize s cols rows)
       end;
     Done a :=
       match a with
       | AnyWeb s => Done s
       | AnyCmd s => Done s
       end |}.

Definition anySession_id (a : anySession) : string :=
  match a with
  | AnyWeb s => ws_id s
  | AnyCmd s => cs_id s
  end.

(** [closeFunc()] *)
Definition closeFunc (srv : httpServer) (a : anySession) : httpServer * anySession :=
  match a with
  | AnyWeb s => let '(srv', s') := closeSession srv s in (srv', AnyWeb s')
  | AnyCmd s => let '(srv', s') := closeCmdSession srv s in (srv', AnyCmd s')
  end.

(** [json.Marshal(OptionsMessage{ReadOnly: ...})] *)
Definition marshalOptions (o : OptionsMessage) : list byte :=
  bytes "{" ++ json_key "readOnly" ++
  bytes (if opt_ReadOnly o then "true" else "false") ++ bytes "}".

Definition optionsMessage (srv : httpServer) : list byte :=
  MsgOptions :: marshalOptions {| opt_ReadOnly := ReadOnly (config srv) |}.

Definition anySession_wf (a : anySession) : Prop :=
  match a with
  | AnyWeb s => webSession_wf s
  | AnyCmd s => cmdSession_wf s
  end.

(** The server as the other connections see it: configuration and the
    registry entries of the other sessions. *)
Definition sameForOthers (id : string) (srv srv' : httpServer) : Prop :=
  config srv' = config srv ∧
  cmdHandler srv' = cmdHandler srv ∧
  ∀ id', id' ≠ id → sessions srv' !! id' = sessions srv !! id'.

(** A header announcing one byte more than the cap. *)
Definition oversizedHeader : list byte := BigEndian_PutUint32 (frameCap + 1).

(** ** Two goroutines closing the same session

    [closeSession] and [closeCmdSession] have the same shape: lock, test
    the closed flag, set it, unlock, then the teardown calls one after the
    other.  [Race] runs two goroutines through that code in any
    interleaving of its statements; [Sh] is the state they share (server
    and session). *)

Module Race.

Inductive pc :=
| AtLock               (* session.mu.Lock() *)
| AtCheck              (* if session.closed *)
| AtUnlockReturn       (*   session.mu.Unlock(); return *)
| AtSetClosed          (* session.closed = true *)
| AtUnlock             (* session.mu.Unlock() *)
| AtTeardown (i : nat) (* the i-th teardown call; past the last: return *)
| Returned.

Record state (Sh : Type) := {
  shared : Sh;
  mu : option bool;      (* the goroutine holding session.mu *)
  pc_true : pc;
  pc_false : pc;
}.
Arguments shared {Sh} _.
Arguments mu {Sh} _.
Arguments pc_true {Sh} _.
Arguments pc_false {Sh} _.

Definition pc_of {Sh} (t : bool) (st : state Sh) : pc :=
  if t then pc_true st else pc_false st.

Definition update {Sh} (t : bool) (st : state Sh) (sh : Sh) (m : option bool)
    (p : pc) : state Sh :=
  {| shared := sh; mu := m;
     pc_true := if t then p else pc_true st;
     pc_false := if t then pc_false st else p |}.

Section Program.

Context {Sh : Type}.
Variable isClosed : Sh → bool.
Variable setClosed : Sh → Sh.
Variable teardown : list (Sh → Sh).

(** One statement of goroutine [t]; [None] when it is blocked on the
    mutex or has returned. *)
Definition step (t : bool) (st : state Sh) : option (state Sh) :=
  match pc_of t st with
  | AtLock =>
      match mu st with
      | None => Some (update t st (shared st) (Some t) AtCheck)
      | Some _ => None
      end
  | AtCheck =>
      if isClosed (shared st)
      then Some (update t st (shared st) (mu st) AtUnlockReturn)
      else Some (update t st (shared st) (mu st) AtSetClosed)
  | AtUnlockReturn => Some (update t st (shared st) None Returned)
  | AtSetClosed =>
      Some (update t st (setClosed (shared st)) (mu st) AtUnlock)
  | AtUnlock => Some (update t st (shared st) None (AtTeardown 0))
  | AtTeardown i =>
      match teardown !! i with
      | Some call => Some (update t st (call (shared st)) (mu st) (AtTeardown (S i)))
      | None => Some (update t st (shared st) (mu st) Returned)
      end
  | Returned => None
  end.

(** A schedule names the goroutine that moves next; naming one that
    cannot move changes nothing. *)
Definition run (sched : list bool) (st : state Sh) : state Sh :=
  foldl (λ st t, default st (step t st)) st sched.

Definition start (sh : Sh) : state Sh :=
  {| shared := sh; mu := None; pc_true := AtLock; pc_false := AtLock |}.

(** The teardown after its first [k] calls. *)
Definition progress (sh0 : Sh) (k : nat) : Sh :=
  foldl (λ sh call, call sh) (setClosed sh0) (take k teardown).

(** One uninterrupted call. *)
Definition sequential (sh0 : Sh) : Sh :=
  if isClosed sh0 then sh0
  else foldl (λ sh call, call sh) (setClosed sh0) teardown.

Definition critical (p : pc) : bool :=
  match p with
  | AtCheck | AtUnlockReturn | AtSetClosed | AtUnlock => true
  | _ => false
  end.

Definition early (p : pc) : bool :=
  match p with
  | AtLock | AtCheck | AtSetClosed => true
  | _ => false
  end.

Definition passive (p : pc) : bool :=
  match p with
  | AtLock | AtCheck | AtUnlockReturn | Returned => true
  | _ => false
  end.

(** Where the goroutine that found the flag clear has got to. *)
Definition stage (sh0 : Sh) (p : pc) : option Sh :=
  match p with
  | AtUnlock => Some (progress sh0 0)
  | AtTeardown i =>
      if (i <=? length teardown)%nat then Some (progress sh0 i) else None
  | Returned => Some (progress sh0 (length teardown))
  | _ => None
  end.

Definition lock_ok (st : state Sh) : Prop :=
  mu st = (if critical (pc_true st) then Some true
           else if critical (pc_false st) then Some false
           else None) ∧
  (critical (pc_true st) && critical (pc_false st) = false).

(** The invariant of a race that starts from [sh0]. *)
Definition inv (sh0 : Sh) (st : state Sh) : Prop :=
  lock_ok st ∧
  ((isClosed sh0 = true ∧ shared st = sh0 ∧
    passive (pc_true st) = true ∧ passive (pc_false st) = true) ∨
   (isClosed sh0 = false ∧ shared st = sh0 ∧
    early (pc_true st) = true ∧ early (pc_false st) = true) ∨
   (isClosed sh0 = false ∧
    ∃ w, stage sh0 (pc_of w st) = Some (shared st) ∧
         passive (pc_of (negb w) st) = true)).

End Program.

(** The shared state and the statements of [closeSession]. *)
Definition web_isClosed (sh : httpServer * webSession) : bool := ws_closed sh.2.

Definition web_setClosed (sh : httpServer * webSession) : httpServer * webSession :=
  (sh.1,
   {| ws_id := ws_id sh.2; ws_program := ws_program sh.2;
      ws_platform := ws_platform sh.2; ws_cols := ws_cols sh.2;
      ws_rows := ws_rows sh.2; ws_cancels := ws_cancels sh.2;
      ws_ctx_done := ws_ctx_done sh.2; ws_closed := true;
      ws_windowChanges := ws_windowChanges sh.2 |}).

Definition web_quit (sh : httpServer * webSession) : httpServer * webSession :=
  (sh.1,
   {| ws_id := ws_id sh.2; ws_program := program_Quit <$> ws_program sh.2;
      ws_platform := ws_platform sh.2; ws_cols := ws_cols sh.2;
      ws_rows := ws_rows sh.2; ws_cancels := ws_cancels sh.2;
      ws_ctx_done := ws_ctx_done sh.2; ws_closed := ws_closed sh.2;
      ws_windowChanges := ws_windowChanges sh.2 |}).

Definition web_cancel (sh : httpServer * webSession) : httpServer * webSession :=
  (sh.1,
   {| ws_id := ws_id sh.2; ws_program := ws_program sh.2;
      ws_platform := ws_platform sh.2; ws_cols := ws_cols sh.2;
      ws_rows := ws_rows sh.2; ws_cancels := S (ws_cancels sh.2);
      ws_ctx_done := true; ws_closed := ws_closed sh.2;
      ws_windowChanges := ws_windowChanges sh.2 |}).

Definition web_platformClose (sh : httpServer * webSession)
  : httpServer * webSession :=
  (sh.1,
   {| ws_id := ws_id sh.2; ws_program := ws_program sh.2;
      ws_platform := platformPty_Close <$> ws_platform sh.2;
      ws_cols := ws_cols sh.2; ws_rows := ws_rows sh.2;
      ws_cancels := ws_cancels sh.2; ws_ctx_done := ws_ctx_done sh.2;
      ws_closed := ws_closed sh.2;
      ws_windowChanges := ws_windowChanges sh.2 |}).

Definition web_delete (sh : httpServer * webSession) : httpServer * webSession :=
  (set_sessions sh.1 (delete (ws_id sh.2) (sessions sh.1)), sh.2).

Definition web_teardown : list (httpServer * webSession → httpServer * webSession) :=
  [web_quit; web_cancel; web_platformClose; web_delete].

(** The shared state and the statements of [closeCmdSession]. *)
Definition cmd_isClosed (sh : httpServer * cmdSession) : bool := cs_closed sh.2.

Definition cmd_setClosed (sh : httpServer * cmdSession) : httpServer * cmdSession :=
  (sh.1,
   {| cs_id := cs_id sh.2; cs_platform := cs_platform sh.2;
      cs_cols := cs_cols sh.2; cs_rows := cs_rows sh.2;
      cs_cancels := cs_cancels sh.2; cs_ctx_done := cs_ctx_done sh.2;
      cs_closed := true; cs_windowChanges := cs_windowChanges sh.2 |}).

Definition cmd_cancel (sh : httpServer * cmdSession) : httpServer * cmdSession :=
  (sh.1,
   {| cs_id := cs_id sh.2; cs_platform := cs_platform sh.2;
      cs_cols := cs_cols sh.2; cs_rows := cs_rows sh.2;
      cs_cancels := S (cs_cancels sh.2); cs_ctx_done := true;
      cs_closed := cs_closed sh.2; cs_windowChanges := cs_windowChanges sh.2 |}).

Definition cmd_platformClose (sh : httpServer * cmdSession)
  : httpServer * cmdSession :=
  (sh.1,
   {| cs_id := cs_id sh.2;
      cs_platform := cmdPlatformPty_Close <$> cs_platform sh.2;
      cs_cols := cs_cols sh.2; cs_rows := cs_rows sh.2;
      cs_cancels := cs_cancels sh.2; cs_ctx_done := cs_ctx_done sh.2;
      cs_closed := cs_closed sh.2; cs_windowChanges := cs_windowChanges sh.2 |}).

Definition cmd_delete (sh : httpServer * cmdSession) : httpServer * cmdSession :=
  (set_sessions sh.1 (delete (cs_id sh.2) (sessions sh.1)), sh.2).

Definition cmd_teardown : list (httpServer * cmdSession → httpServer * cmdSession) :=
  [cmd_cancel; cmd_platformClose; cmd_delete].

Definition web_run := run web_isClosed web_setClosed web_teardown.
Definition cmd_run := run cmd_isClosed cmd_setClosed cmd_teardown.

(** The process-exit path closes while the client-disconnect path is
    between its unlock and its teardown calls. *)
Definition overlapping : list bool :=
  [true; true; true; true; false; false; false; false;
   true; true; false; true; true; true; false].

End Race.

(** ** The output pump (streamOutputToWebTransport) *)

Inductive outExit := OutCtxDone | OutSessionDone | OutReadError | OutWriteError.

(** [session.OutputReader().Read(buf)]: an error, or [n] bytes. *)
Inductive bridgeRead := BridgeErr | BridgeData (chunk : list byte).

Definition closeFrame : list byte := writeFramed [MsgClose].

(** The frame built in place for a chunk: length, type, bytes. *)
Definition outputFrame (chunk : list byte) : list byte :=
  BigEndian_PutUint32 (Z.of_nat (length chunk) + 1) ++ MsgOutput :: chunk.

(** The [select] at the head of the loop: what it writes to the stream
    and whether the pump returns. *)
Definition outputSelect (pick_ctx ctx_done session_done : bool)
  : list (list byte) * option outExit :=
  match select_done pick_ctx ctx_done session_done with
  | SelCtx => ([], Some OutCtxDone)
  | SelSession => ([closeFrame], Some OutSessionDone)
  | SelDefault => ([], None)
  end.

(** The rest of the loop body once [Read] has returned; [write_ok] is
    the outcome of [stream.Write] for an output frame. *)
Definition outputRead (r : bridgeRead) (write_ok : bool)
  : list (list byte) * option outExit :=
  match r with
  | BridgeErr => ([closeFrame], Some OutReadError)
  | BridgeData [] => ([], None)
  | BridgeData chunk =>
      ([outputFrame chunk], if write_ok then None else Some OutWriteError)
  end.

(** ** One command-mode WebTransport connection, goroutine by goroutine

    After [createCmdSession] has returned the connection consists of the
    watcher started by [createCmdSession], the output pump, the input pump
    and the handler waiting for both pumps and then running its deferred
    calls.  [Conn] interleaves their statements; the spawned command, the
    client and the bridge act through the environment actions and the
    results carried by the read actions.  [trace] records, in order, the
    calls made on the connection's resources. *)

Module Conn.

Inductive event :=
| EvSessionCancel                (* session.cancelFunc() *)
| EvConnCancel                   (* cancel() of the connection context *)
| EvWrite (frame : list byte)    (* stream.Write(frame) *)
| EvPlatformClose                (* session.platform.Close() *)
| EvRegistryDelete (id : string) (* srv.sessions.Delete(id) *)
| EvStreamClose                  (* stream.Close() *)
| EvWtSessionClose               (* wtSession.CloseWithError(0, ...) *)
| EvRelease.                     (* s.releaseConnection() *)

Inductive outPc := OutHead | OutReading | OutReturned (e : outExit).

Inductive inPc := InHead | InReading | InReturned (e : pumpExit).

Inductive handlerPc :=
| HWait           (* wg.Wait(); <-wtSession.Context().Done() *)
| HCloseFunc      (* deferred: closeFunc() *)
| HStreamClose    (* deferred: stream.Close() *)
| HCancel         (* deferred: cancel() *)
| HWtClose        (* deferred: wtSession.CloseWithError *)
| HRelease        (* deferred: s.releaseConnection() *)
| HReturned.

Record state := {
  srv : httpServer;
  session : cmdSession;
  conn_cancelled : bool;     (* the connection context is done *)
  wt_done : bool;            (* wtSession.Context() is done *)
  proc_exited : bool;
  watcher_done : bool;
  out_pc : outPc;
  in_pc : inPc;
  handler_pc : handlerPc;
  in_stream : list byte;     (* what the client still sends *)
  trace : list event;
  panicked : bool;
}.

Inductive action :=
| ProcessExits          (* the command exits on its own *)
| RequestContextDone    (* the request context is cancelled from outside *)
| WtSessionDone         (* the client closes the WebTransport session *)
| WatcherRuns           (* platform.Wait() has returned: cancel() *)
| OutSelect (pick_ctx : bool)
| OutRead (r : bridgeRead) (write_ok : bool)
| InSelect (pick_ctx : bool)
| InRead
| HandlerRuns.

(** [session.cancelFunc()] *)
Definition cancelSession (s : cmdSession) : cmdSession :=
  {| cs_id := cs_id s; cs_platform := cs_platform s; cs_cols := cs_cols s;
     cs_rows := cs_rows s; cs_cancels := S (cs_cancels s); cs_ctx_done := true;
     cs_closed := cs_closed s; cs_windowChanges := cs_windowChanges s |}.

(** The session context is a child of the connection context: it is
    done as soon as the connection context is cancelled. *)
Definition parentCancelled (s : cmdSession) : cmdSession :=
  {| cs_id := cs_id s; cs_platform := cs_platform s; cs_cols := cs_cols s;
     cs_rows := cs_rows s; cs_cancels := cs_cancels s; cs_ctx_done := true;
     cs_closed := cs_closed s; cs_windowChanges := cs_windowChanges s |}.

(** The calls [closeCmdSession] makes on a session. *)
Definition closeCmdSession_events (s : cmdSession) : list event :=
  if cs_closed s then []
  else [EvSessionCancel; EvPlatformClose; EvRegistryDelete (cs_id s)].

Section Steps.

Variable json : list byte → option ResizeMessage.

(** A pump returns: [defer cancel()] runs, then [wg.Done()]. *)
Definition pumpReturns (st : state) (writes : list (list byte))
    (o : outPc) (i : inPc) (rest : list byte) : state :=
  {| srv := srv st; session := parentCancelled (session st);
     conn_cancelled := true; wt_done := wt_done st;
     proc_exited := proc_exited st; watcher_done := watcher_done st;
     out_pc := o; in_pc := i; handler_pc := handler_pc st;
     in_stream := rest;
     trace := trace st ++ (EvWrite <$> writes) ++ [EvConnCancel];
     panicked := panicked st |}.

(** A pump goes on. *)
Definition pumpContinues (st : state) (s : cmdSession)
    (writes : list (list byte)) (o : outPc) (i : inPc) (rest : list byte) : state :=
  {| srv := srv st; session := s;
     conn_cancelled := conn_cancelled st; wt_done := wt_done st;
     proc_exited := proc_exited st; watcher_done := watcher_done st;
     out_pc := o; in_pc := i; handler_pc := handler_pc st;
     in_stream := rest;
     trace := trace st ++ (EvWrite <$> writes);
     panicked := panicked st |}.

Definition handlerMoves (st : state) (srv' : httpServer) (s : cmdSession)
    (cancelled exited : bool) (evs : list event) (h : handlerPc) : state :=
  {| srv := srv'; session := s;
     conn_cancelled := cancelled; wt_done := wt_done st;
     proc_exited := exited; watcher_done := watcher_done st;
     out_pc := out_pc st; in_pc := in_pc st; handler_pc := h;
     in_stream := in_stream st;
     trace := trace st ++ evs;
     panicked := panicked st |}.

Definition pumpsReturned (st : state) : bool :=
  match out_pc st, in_pc st with
  | OutReturned _, InReturned _ => true
  | _, _ => false
  end.

(** One statement of one goroutine, or one move of the environment;
    [None] when it cannot happen in [st]. *)
Definition step (a : action) (st : state) : option state :=
  if panicked st then None else
  match a with
  | ProcessExits =>
      if proc_exited st then None
      else Some (handlerMoves st (srv st) (session st) (conn_cancelled st)
                   true [] (handler_pc st))
  | RequestContextDone =>
      if conn_cancelled st then None
      else Some (handlerMoves st (srv st) (parentCancelled (session st))
                   true (proc_exited st) [] (handler_pc st))
  | WtSessionDone =>
      if wt_done st then None
      else Some {| srv := srv st; session := session st;
                   conn_cancelled := conn_cancelled st; wt_done := true;
                   proc_exited := proc_exited st;
                   watcher_done := watcher_done st;
                   out_pc := out_pc st; in_pc := in_pc st;
                   handler_pc := handler_pc st; in_stream := in_stream st;
                   trace := trace st; panicked := panicked st |}
  | WatcherRuns =>
      if proc_exited st && negb (watcher_done st)
      then Some {| srv := srv st; session := cancelSession (session st);
                   conn_cancelled := conn_cancelled st; wt_done := wt_done st;
                   proc_exited := proc_exited st; watcher_done := true;
                   out_pc := out_pc st; in_pc := in_pc st;
                   handler_pc := handler_pc st; in_stream := in_stream st;
                   trace := trace st ++ [EvSessionCancel];
                   panicked := panicked st |}
      else None
  | OutSelect pick_ctx =>
      match out_pc st with
      | OutHead =>
          match outputSelect pick_ctx (conn_cancelled st) (Done (session st)) with
          | (writes, Some e) =>
              Some (pumpReturns st writes (OutReturned e) (in_pc st) (in_stream st))
          | (writes, None) =>
              Some (pumpContinues st (session st) writes OutReading (in_pc st)
                      (in_stream st))
          end
      | _ => None
      end
  | OutRead r write_ok =>
      match out_pc st with
      | OutReading =>
          match outputRead r write_ok with
          | (writes, Some e) =>
              Some (pumpReturns st writes (OutReturned e) (in_pc st) (in_stream st))
          | (writes, None) =>
              Some (pumpContinues st (session st) writes OutHead (in_pc st)
                      (in_stream st))
          end
      | _ => None
      end
  | InSelect pick_ctx =>
      match in_pc st with
      | InHead =>
          match select_done pick_ctx (conn_cancelled st) (Done (session st)) with
          | SelCtx =>
              Some (pumpReturns st [] (out_pc st) (InReturned ExitCtxDone)
                      (in_stream st))
          | SelSession =>
              Some (pumpReturns st [] (out_pc st) (InReturned ExitSessionDone)
                      (in_stream st))
          | SelDefault =>
              Some (pumpContinues st (session st) [] (out_pc st) InReading
                      (in_stream st))
          end
      | _ => None
      end
  | InRead =>
      match in_pc st with
      | InReading =>
          match readMessage json (srv st) (in_stream st) (session st) with
          | Panic =>
              Some {| srv := srv st; session := session st;
                      conn_cancelled := conn_cancelled st; wt_done := wt_done st;
                      proc_exited := proc_exited st;
                      watcher_done := watcher_done st;
                      out_pc := out_pc st; in_pc := in_pc st;
                      handler_pc := handler_pc st; in_stream := in_stream st;
                      trace := trace st; panicked := true |}
          | Ok (ReadExit e rest _) =>
              Some (pumpReturns st [] (out_pc st) (InReturned e) rest)
          | Ok (ReadNext s rest _) =>
              Some (pumpContinues st s [] (out_pc st) InHead rest)
          end
      | _ => None
      end
  | HandlerRuns =>
      match handler_pc st with
      | HWait =>
          if pumpsReturned st && wt_done st
          then Some (handlerMoves st (srv st) (session st) (conn_cancelled st)
                       (proc_exited st) [] HCloseFunc)
          else None
      | HCloseFunc =>
          let '(srv', s') := closeCmdSession (srv st) (session st) in
          Some (handlerMoves st srv' s' (conn_cancelled st)
                  (proc_exited st || negb (cs_closed (session st)))
                  (closeCmdSession_events (session st)) HStreamClose)
      | HStreamClose =>
          Some (handlerMoves st (srv st) (session st) (conn_cancelled st)
                  (proc_exited st) [EvStreamClose] HCancel)
      | HCancel =>
          Some (handlerMoves st (srv st) (parentCancelled (session st)) true
                  (proc_exited st) [EvConnCancel] HWtClose)
      | HWtClose =>
          Some (handlerMoves st (srv st) (session st) (conn_cancelled st)
                  (proc_exited st) [EvWtSessionClose] HRelease)
      | HRelease =>
          Some (handlerMoves st (releaseConnection (srv st)) (session st)
                  (conn_cancelled st) (proc_exited st) [EvRelease] HReturned)
      | HReturned => None
      end
  end.

(** A schedule is a list of actions; one that cannot happen is skipped. *)
Definition run (acts : list action) (st : state) : state :=
  foldl (λ st a, default st (step a st)) st acts.

End Steps.

(** The connection once the session exists, the options frame is
    written and both pumps are started. *)
Definition start (srv0 : httpServer) (s : cmdSession) (stream : list byte) : state :=
  {| srv := srv0; session := s; conn_cancelled := false; wt_done := false;
     proc_exited := false; watcher_done := false;
     out_pc := OutHead; in_pc := InHead; handler_pc := HWait;
     in_stream := stream;
     trace := [EvWrite (writeFramed (optionsMessage srv0))];
     panicked := false |}.

(** *** Reading a trace *)

Definition writes (tr : list event) : list (list byte) :=
  omap (λ e, match e with EvWrite f => Some f | _ => None end) tr.

Definition is_delete (id : string) (e : event) : bool :=
  match e with
  | EvRegistryDelete i => bool_decide (i = id)
  | _ => false
  end.

(** How many times [id] was deleted from the registry. *)
Definition deletes (id : string) (tr : list event) : nat :=
  length (List.filter (is_delete id) tr).

Definition is_write (e : event) : bool :=
  match e with EvWrite _ => true | _ => false end.

(** The calls that take the connection down. *)
Definition is_teardown (e : event) : bool :=
  match e with
  | EvPlatformClose | EvRegistryDelete _ | EvStreamClose
  | EvWtSessionClose | EvRelease => true
  | _ => false
  end.

(** Every write to the client comes before every teardown call. *)
Fixpoint writes_first (tr : list event) : bool :=
  match tr with
  | [] => true
  | e :: rest =>
      if is_teardown e then forallb (λ e', negb (is_write e')) rest
      else writes_first rest
  end.

Definition no_teardown (tr : list event) : bool :=
  forallb (λ e, negb (is_teardown e)) tr.

Definition no_write (tr : list event) : bool :=
  forallb (λ e, negb (is_write e)) tr.

(** *** The invariant of a connection whose session is [id0] *)

(** Until [closeFunc] has run: the session is open and registered and
    nothing has been taken down. *)
Definition before_teardown (id0 : string) (st : state) : Prop :=
  cs_closed (session st) = false ∧
  sessions (srv st) !! id0 = Some CmdKind ∧
  no_teardown (trace st) = true.

(** Once [closeFunc] has run: the session is closed, its registry entry
    is gone and was deleted once, and no write follows a teardown call. *)
Definition after_close (id0 : string) (st : state) : Prop :=
  cs_closed (session st) = true ∧
  sessions (srv st) !! id0 = None ∧
  deletes id0 (trace st) = 1%nat ∧
  writes_first (trace st) = true ∧
  pumpsReturned st = true.

Definition handler_inv (id0 : string) (st : state) : Prop :=
  match handler_pc st with
  | HWait => before_teardown id0 st
  | HCloseFunc => before_teardown id0 st ∧ pumpsReturned st = true
  | _ => after_close id0 st
  end.

(** A returned output pump has cancelled the connection context; when
    it left through the session-done case or on a read error the last
    thing it wrote is the close frame. *)
Definition out_inv (st : state) : Prop :=
  match out_pc st with
  | OutReturned e =>
      conn_cancelled st = true ∧
      match e with
      | OutSessionDone | OutReadError =>
          last (writes (trace st)) = Some closeFrame
      | OutCtxDone | OutWriteError => True
      end
  | _ => True
  end.

Definition inv (id0 : string) (st : state) : Prop :=
  panicked st = false ∧
  cmdSession_wf (session st) ∧
  cs_id (session st) = id0 ∧
  (conn_cancelled st = true → cs_ctx_done (session st) = true) ∧
  (watcher_done st = true →
     proc_exited st = true ∧ cs_ctx_done (session st) = true) ∧
  out_inv st ∧
  handler_inv id0 st.

(** The command prints its last output and exits, the watcher cancels,
    the output pump forwards the output and then sees the done signal;
    the client closes and the handler tears down. *)
Definition exitSeenByOutput : list action :=
  [OutSelect false; InSelect false; ProcessExits; WatcherRuns;
   OutRead (BridgeData (bytes "bye")) true; OutSelect false;
   WtSessionDone; InRead;
   HandlerRuns; HandlerRuns; HandlerRuns; HandlerRuns; HandlerRuns; HandlerRuns].

(** The command exits before the pumps reach their first [select]; the
    input pump returns first and its deferred [cancel()] makes both cases
    of the output pump's [select] ready; Go picks [ctx.Done()]. *)
Definition exitSeenByInputFirst : list action :=
  [ProcessExits; WatcherRuns; InSelect false; OutSelect true;
   WtSessionDone;
   HandlerRuns; HandlerRuns; HandlerRuns; HandlerRuns; HandlerRuns; HandlerRuns].

End Conn.

(** ** Reading a connection's session *)

(** The [Write] calls the bridge of a connection's session has received. *)
Definition anySession_written (a : anySession) : list (list byte) :=
  match a with
  | AnyWeb s => webSession_written s
  | AnyCmd s => cmdSession_written s
  end.

Definition anySession_closed (a : anySession) : bool :=
  match a with
  | AnyWeb s => ws_closed s
  | AnyCmd s => cs_closed s
  end.

(** The payload of a message of type [MsgInput]. *)
Definition inputPayload (data : list byte) : option (list byte) :=
  match data with
  | t :: payload => if decide (t = MsgInput) then Some payload else None
  | [] => None
  end.

(** The values an [int32] holds. *)
Definition in_int32 (z : Z) : Prop := - 2 ^ 31 ≤ z < 2 ^ 31.

(** ** The buffers of the output pumps

    Both output pumps read the bridge into a pooled buffer of
    [readBufSize] bytes and build what they send in a pooled buffer of
    [writeBufSize] bytes, which still holds whatever its last user left
    in it.  A buffer is the list of its bytes; its capacity is its
    length, and slicing past it panics. *)

(** [copy(dst, src)]: the first [min(len(dst), len(src))] bytes of
    [dst] are overwritten. *)
Definition copy (dst src : list byte) : list byte :=
  take (length dst) src ++ drop (length src) dst.

(** [b[:n]] *)
Definition slice_to (b : list byte) (n : nat) : result (list byte) :=
  if (n <=? length b)%nat then Ok (take n b) else Panic.

(** [b[n:]] *)
Definition slice_from (b : list byte) (n : nat) : result (list byte) :=
  if (n <=? length b)%nat then Ok (drop n b) else Panic.

(** [b[i] = x] *)
Definition store_at (b : list byte) (i : nat) (x : byte) : result (list byte) :=
  if (i <? length b)%nat then Ok (<[i := x]> b) else Panic.

(** [streamOutputToWebTransport], after a read of [n] bytes into [buf]:
    the frame is built in place in [frame] and [frame[:5+n]] is written.
    Returns the buffer as it is left and the bytes handed to
    [stream.Write]. *)
Definition frameInPlace (frame buf : list byte) (n : nat)
  : result (list byte * list byte) :=
  _ ← slice_to frame 4;
  let frame1 := BigEndian_PutUint32 (Z.of_nat n + 1) ++ drop 4 frame in
  frame2 ← store_at frame1 4 MsgOutput;
  dst ← slice_from frame2 5;
  src ← slice_to buf n;
  let frame3 := take 5 frame2 ++ copy dst src in
  out ← slice_to frame3 (5 + n);
  Ok (frame3, out).

(** [streamOutputToWebSocket]: [msg[0] = MsgOutput] once, before the
    loop ... *)
Definition messageInit (msg : list byte) : result (list byte) :=
  store_at msg 0 MsgOutput.

(** ... and after a read of [n] bytes: [copy(msg[1:], buf[:n])], then
    [msg[:n+1]] is written. *)
Definition messageInPlace (msg buf : list byte) (n : nat)
  : result (list byte * list byte) :=
  dst ← slice_from msg 1;
  src ← slice_to buf n;
  let msg1 := take 1 msg ++ copy dst src in
  out ← slice_to msg1 (n + 1);
  Ok (msg1, out).

(** ** The output pumps, turn by turn

    What one turn of the loop of an output pump meets: the state of the
    two done signals at its [select] (and Go's pick when both are ready),
    the result of the bridge read, and whether the write succeeds. *)

Record outputTurn := {
  turn_pick_ctx : bool;
  turn_ctx_done : bool;
  turn_session_done : bool;
  turn_read : bridgeRead;
  turn_write_ok : bool;
}.

(** [streamOutputToWebTransport]: the frames handed to [stream.Write]
    and how the pump returned; [None] when it is still running after the
    last turn. *)
Fixpoint streamOutputToWebTransport (turns : list outputTurn)
  : list (list byte) * option outExit :=
  match turns with
  | [] => ([], None)
  | t :: turns' =>
      match outputSelect (turn_pick_ctx t) (turn_ctx_done t)
              (turn_session_done t) with
      | (ws, Some e) => (ws, Some e)
      | (ws, None) =>
          match outputRead (turn_read t) (turn_write_ok t) with
          | (ws1, Some e) => (ws ++ ws1, Some e)
          | (ws1, None) =>
              let '(ws2, e) := streamOutputToWebTransport turns' in
              (ws ++ ws1 ++ ws2, e)
          end
      end
  end.

(** The WebSocket pump sends the same messages unframed. *)
Definition closeMessage : list byte := [MsgClose].

Definition outputMessage (chunk : list byte) : list byte := MsgOutput :: chunk.

Definition outputSelectWS (pick_ctx ctx_done session_done : bool)
  : list (list byte) * option outExit :=
  match select_done pick_ctx ctx_done session_done with
  | SelCtx => ([], Some OutCtxDone)
  | SelSession => ([closeMessage], Some OutSessionDone)
  | SelDefault => ([], None)
  end.

Definition outputReadWS (r : bridgeRead) (write_ok : bool)
  : list (list byte) * option outExit :=
  match r with
  | BridgeErr => ([closeMessage], Some OutReadError)
  | BridgeData [] => ([], None)
  | BridgeData chunk =>
      ([outputMessage chunk], if write_ok then None else Some OutWriteError)
  end.

(** [streamOutputToWebSocket]: the messages handed to [conn.Write]. *)
Fixpoint streamOutputToWebSocket (turns : list outputTurn)
  : list (list byte) * option outExit :=
  match turns with
  | [] => ([], None)
  | t :: turns' =>
      match outputSelectWS (turn_pick_ctx t) (turn_ctx_done t)
              (turn_session_done t) with
      | (ws, Some e) => (ws, Some e)
      | (ws, None) =>
          match outputReadWS (turn_read t) (turn_write_ok t) with
          | (ws1, Some e) => (ws ++ ws1, Some e)
          | (ws1, None) =>
              let '(ws2, e) := streamOutputToWebSocket turns' in
              (ws ++ ws1 ++ ws2, e)
          end
      end
  end.

(** The non-empty chunks among the bridge reads of [turns]. *)
Definition chunksRead (turns : list outputTurn) : list (list byte) :=
  omap (λ t, match turn_read t with
             | BridgeData (b :: chunk) => Some (b :: chunk)
             | _ => None
             end) turns.

(** ** Reading the trace of a connection *)

(** The teardown calls of a trace, in the order they were made. *)
Definition teardownCalls (tr : list Conn.event) : list Conn.event :=
  List.filter Conn.is_teardown tr.

(** The teardown calls the handler of the session [id0] has made when it
    stands at [h]. *)
Definition teardownSoFar (id0 : string) (h : Conn.handlerPc) : list Conn.event :=
  match h with
  | Conn.HWait | Conn.HCloseFunc => []
  | Conn.HStreamClose =>
      [Conn.EvPlatformClose; Conn.EvRegistryDelete id0]
  | Conn.HCancel | Conn.HWtClose =>
      [Conn.EvPlatformClose; Conn.EvRegistryDelete id0; Conn.EvStreamClose]
  | Conn.HRelease =>
      [Conn.EvPlatformClose; Conn.EvRegistryDelete id0; Conn.EvStreamClose;
       Conn.EvWtSessionClose]
  | Conn.HReturned =>
      [Conn.EvPlatformClose; Conn.EvRegistryDelete id0; Conn.EvStreamClose;
       Conn.EvWtSessionClose; Conn.EvRelease]
  end.

(** The close frame an output pump standing at [o] has written. *)
Definition closeWritten (o : Conn.outPc) : list (list byte) :=
  match o with
  | Conn.OutReturned OutSessionDone | Conn.OutReturned OutReadError => [closeFrame]
  | _ => []
  end.

(** The non-empty chunks the output pump reads from the bridge in the
    course of a schedule, in order.  An [OutRead] action counts when the
    pump stands at its read, that is, when the step happens. *)
Fixpoint chunksOfRun (json : list byte → option ResizeMessage)
    (acts : list Conn.action) (st : Conn.state) : list (list byte) :=
  match acts with
  | [] => []
  | a :: acts' =>
      match Conn.step json a st with
      | Some st' =>
          match a with
          | Conn.OutRead (BridgeData (b :: chunk)) _ => [b :: chunk]
          | _ => []
          end ++ chunksOfRun json acts' st'
      | None => chunksOfRun json acts' st
      end
  end.

(** How many times the admission slot was released. *)
Definition releases (tr : list Conn.event) : nat :=
  length (List.filter
            (λ e, match e with Conn.EvRelease => true | _ => false end) tr).

(** The admission slot of a connection: held, with the counter as the
    admission left it, until the handler returns, and released by the
    last of its deferred calls. *)
Definition slot_inv (srv0 : httpServer) (st : Conn.state) : Prop :=
  config (Conn.srv st) = config srv0 ∧
  match Conn.handler_pc st with
  | Conn.HReturned =>
      releases (Conn.trace st) = 1%nat ∧
      connCount (Conn.srv st) = connCount (releaseConnection srv0)
  | _ =>
      releases (Conn.trace st) = 0%nat ∧
      connCount (Conn.srv st) = connCount srv0
  end.

(** ** Reading a session's program and bridge *)

(** The window sizes the program of an embedded session has been sent. *)
Definition webSession_sent (s : webSession) : list WindowSize :=
  from_option prog_sizes [] (ws_program s).

(** The size the operating system's terminal of a session was last
    given; [None] for the pipe pair of the Windows build, which has no
    terminal. *)
Definition webSession_ptySize (s : webSession) : option (Z * Z) :=
  ws_platform s ≫= pp_size.

Definition cmdSession_ptySize (s : cmdSession) : option (Z * Z) :=
  cpp_size <$> cs_platform s.

(** ** The public server (sip.go) and its two modes *)

Definition with_Host (c : Config) (h : string) : Config :=
  {| Host := h; Port := Port c; ReadOnly := ReadOnly c;
     MaxConnections := MaxConnections c; IdleTimeout := IdleTimeout c;
     AllowOrigins := AllowOrigins c; Debug := Debug c |}.

Definition with_Port (c : Config) (p : string) : Config :=
  {| Host := Host c; Port := p; ReadOnly := ReadOnly c;
     MaxConnections := MaxConnections c; IdleTimeout := IdleTimeout c;
     AllowOrigins := AllowOrigins c; Debug := Debug c |}.

(** [NewServer(config)]: the configuration the server keeps, and the
    level the package logger is switched to, if any. *)
Definition NewServer (config : Config) : Config * option logLevel :=
  let config1 := if decide (Host config = "") then with_Host config "localhost"
                 else config in
  let config2 := if decide (Port config1 = "") then with_Port config1 "7681"
                 else config1 in
  (config2, if Debug config2 then Some LDebug else None).

(** [newHTTPServer(config, handler)] *)
Definition newHTTPServer (config_ : Config) (handler_ : ProgramHandler) : httpServer :=
  {| config := config_; handler := handler_; cmdHandler := None;
     sessions := ∅; connCount := 0 |}.

(** [newCmdHTTPServer(config, handler)]: the program handler stays nil;
    [unset] stands for it. *)
Definition newCmdHTTPServer (config_ : Config) (cmd : CommandHandler)
    (unset : ProgramHandler) : httpServer :=
  {| config := config_; handler := unset; cmdHandler := Some cmd;
     sessions := ∅; connCount := 0 |}.

(** A [Handler] builds a model for a session; what the server looks at
    is whether the model is nil ([false]). *)
Definition Handler := webSession → bool.

(** [newDefaultProgramHandler(handler)]: no program for a nil model,
    else [tea.NewProgram], which has been sent nothing yet. *)
Definition newDefaultProgramHandler (h : Handler) : ProgramHandler :=
  λ sess, if h sess then Some {| prog_sizes := []; prog_quits := 0 |} else None.

(** *** MakeOptions *)

Inductive teaMsg :=
| SuspendMsg
| ResumeMsg
| OtherMsg (name : string).

(** The terminal side of the bridge as an [*os.File]: the slave of the
    pty on the Unix build, nil ([None]) on the Windows build, whose
    bridge is a pair of pipes. *)
Inductive osFile := PtySlaveFile.

(** [p.SlaveFile()] *)
Definition platformPty_SlaveFile (p : platformPty) : option osFile :=
  match pp_backend p with
  | UnixBackend => Some PtySlaveFile
  | WindowsBackend => None
  end.

(** [s.PtySlave()] on a session that has its bridge. *)
Definition webSession_PtySlave (s : webSession) : result (option osFile) :=
  match ws_platform s with
  | Some p => Ok (platformPty_SlaveFile p)
  | None => Panic
  end.

(** The options [MakeOptions] builds, the colour profile apart. *)
Record programOptions := {
  po_input : option osFile;          (* tea.WithInput *)
  po_output : option osFile;         (* tea.WithOutput *)
  po_windowSize : Z * Z;             (* tea.WithWindowSize *)
  po_environment : list string;      (* tea.WithEnvironment *)
  po_filter : teaMsg → teaMsg;       (* tea.WithFilter *)
}.

(** [len(e) >= n && e[:n] == p] *)
Definition hasPrefixN (n : nat) (p e : string) : bool :=
  (n <=? String.length e)%nat && bool_decide (String.substring 0 n e = p).

(** The loop over [os.Environ()]. *)
Definition filterEnviron (environ : list string) : list string :=
  foldl (λ envs e,
           if hasPrefixN 5 "TERM=" e then envs
           else if hasPrefixN 10 "COLORTERM=" e then envs
           else envs ++ [e]) [] environ.

(** The entries the loop keeps: those that set neither TERM nor
    COLORTERM. *)
Definition keptEnv (e : string) : bool :=
  negb (String.prefix "TERM=" e) && negb (String.prefix "COLORTERM=" e).

(** [MakeOptions(sess)], given what [sess.Pty()] and [sess.PtySlave()]
    return and the process environment. *)
Definition MakeOptions (environ : list string) (pty : Pty)
    (ptySlave : option osFile) : programOptions :=
  {| po_input := ptySlave;
     po_output := ptySlave;
     po_windowSize := (Pty_Width pty, Pty_Height pty);
     po_environment :=
       filterEnviron environ ++ ["TERM=xterm-256color"; "COLORTERM=truecolor"];
     po_filter := λ msg, match msg with SuspendMsg => ResumeMsg | _ => msg end |}.

(** [MakeOptions] on an embedded session. *)
Definition MakeOptions_session (environ : list string) (s : webSession)
  : result programOptions :=
  ptySlave ← webSession_PtySlave s;
  Ok (MakeOptions environ (webSession_Pty s) ptySlave).

(** ** The addresses [start] listens on (server.go)

    [int] is the 64-bit integer of the platforms the server is built
    for. *)

Definition wrap_int64 (z : Z) : Z := (z + 2 ^ 63) mod 2 ^ 64 - 2 ^ 63.

Definition digitOf (c : ascii) : option Z :=
  let n := Z.of_N (Ascii.N_of_ascii c) in
  if (48 <=? n) && (n <=? 57) then Some (n - 48) else None.

Fixpoint atoiDigits (acc : Z) (s : string) : option Z :=
  match s with
  | EmptyString => Some acc
  | String c s' => d ← digitOf c; atoiDigits (acc * 10 + d) s'
  end.

(** [strconv.Atoi(s)]: an optional sign and at least one decimal digit,
    within the range of [int]; [None] is an error. *)
Definition strconv_Atoi (s : string) : option Z :=
  let '(neg, ds) :=
    match s with
    | String c r =>
        if decide (c = "-"%char) then (true, r)
        else if decide (c = "+"%char) then (false, r)
        else (false, s)
    | EmptyString => (false, s)
    end in
  match ds with
  | EmptyString => None
  | _ =>
      n ← atoiDigits 0 ds;
      let v := if neg : bool then - n else n in
      if (- 2 ^ 63 <=? v) && (v <? 2 ^ 63) then Some v else None
  end.

(** [strconv.Itoa(n)] *)
Definition strconv_Itoa (n : Z) : string := pretty n.

Fixpoint containsChar (c : ascii) (s : string) : bool :=
  match s with
  | EmptyString => false
  | String c' s' => bool_decide (c' = c) || containsChar c s'
  end.

(** [net.JoinHostPort(host, port)] *)
Definition net_JoinHostPort (host port : string) : string :=
  if containsChar ":" host || containsChar "%" host
  then "[" +:+ host +:+ "]:" +:+ port
  else host +:+ ":" +:+ port.

Record listenAddrs := {
  httpAddr : string;     (* s.httpServer.Addr *)
  wtAddr : string;       (* s.wtServer.H3.Addr *)
  wtUrl : string;        (* the wtUrl of /cert-hash *)
}.

(** The head of [start]: the port of the WebTransport listener is the
    HTTP port plus one, 7682 when the HTTP port is not a number. *)
Definition start_wtPort (config_ : Config) : string :=
  let wtPortNum :=
    match strconv_Atoi (Port config_) with
    | Some p => wrap_int64 (p + 1)
    | None => 7682
    end in
  strconv_Itoa wtPortNum.

Definition start_addrs (config_ : Config) : listenAddrs :=
  let wtPort := start_wtPort config_ in
  {| httpAddr := net_JoinHostPort (Host config_) (Port config_);
     wtAddr := net_JoinHostPort "127.0.0.1" wtPort;
     wtUrl := "https://127.0.0.1:" +:+ wtPort +:+ "/webtransport" |}.

(** ** Admission with concurrent handlers

    [checkConnectionLimit] is not one atomic step: it increments the
    counter atomically, compares the value the increment returned, and on
    rejection decrements atomically.  Between the increment and the
    decrement of a rejected attempt other handlers may run.
    [ad_admitted] counts the handlers past the check, [ad_undoing] the
    rejected attempts that have not yet decremented. *)

Inductive handlerStep :=
| StepAttempt    (* newCount := s.incrementConnCount(); the comparison *)
| StepUndo       (* s.decrementConnCount() of a rejected attempt *)
| StepFinish.    (* the deferred s.releaseConnection() of an admitted handler *)

Record admissionState := {
  ad_srv : httpServer;
  ad_admitted : nat;
  ad_undoing : nat;
}.

Definition handlerStepRun (st : admissionState) (ev : handlerStep)
  : admissionState :=
  let srv := ad_srv st in
  match ev with
  | StepAttempt =>
      if MaxConnections (config srv) <=? 0
      then {| ad_srv := srv; ad_admitted := S (ad_admitted st);
              ad_undoing := ad_undoing st |}
      else
        let '(srv1, newCount) := incrementConnCount srv in
        if newCount >? MaxConnections (config srv)
        then {| ad_srv := srv1; ad_admitted := ad_admitted st;
                ad_undoing := S (ad_undoing st) |}
        else {| ad_srv := srv1; ad_admitted := S (ad_admitted st);
                ad_undoing := ad_undoing st |}
  | StepUndo =>
      match ad_undoing st with
      | O => st
      | S n => {| ad_srv := fst (decrementConnCount srv);
                  ad_admitted := ad_admitted st; ad_undoing := n |}
      end
  | StepFinish =>
      match ad_admitted st with
      | O => st
      | S n => {| ad_srv := releaseConnection srv;
                  ad_admitted := n; ad_undoing := ad_undoing st |}
      end
  end.

Definition handlersRun (srv : httpServer) (evs : list handlerStep)
  : admissionState :=
  foldl handlerStepRun
    {| ad_srv := srv; ad_admitted := 0; ad_undoing := 0 |} evs.

(** ** What a new session was given *)

(** The size the operating system's terminal of a connection's session
    was last given. *)
Definition anySession_ptySize (a : anySession) : option (Z * Z) :=
  match a with
  | AnyWeb s => webSession_ptySize s
  | AnyCmd s => cmdSession_ptySize s
  end.

(** The kind of session a server creates: command sessions when
    [cmdHandler] is set, embedded ones otherwise. *)
Definition serverKind (srv : httpServer) : sessionKind :=
  match cmdHandler srv with
  | Some _ => CmdKind
  | None => WebKind
  end.

(** The operating system and the program handler let a session start:
    in command mode the pty opens and the command starts; in embedded
    mode the pty opens (the pipe pair of the Windows build always does)
    and the handler returns a program. *)
Definition sessionCanStart (os : osEnv) (srv : httpServer) : Prop :=
  match cmdHandler srv with
  | Some _ => os_pty_ok os = true ∧ os_start_ok os = true
  | None =>
      (os_backend os = WindowsBackend ∨ os_pty_ok os = true) ∧
      ∀ s, is_Some (handler srv s)
  end.

(** The size the terminal of a new session is opened with; the pipe
    pair of an embedded session on the Windows build has none. *)
Definition bridgeSize (os : osEnv) (srv : httpServer) (cols rows : Z)
  : option (Z * Z) :=
  match cmdHandler srv, os_backend os with
  | None, WindowsBackend => None
  | _, _ => Some (cols, rows)
  end.

(** ** The first read of a WebTransport connection

    The client of a WebTransport stream, as the first read of
    [handleWebTransport] meets it: its bytes arrive after [delay_ms] and
    the stream ends after them, or it sends nothing and keeps the stream
    open. *)
Inductive wtClient :=
| WtSends (delay_ms : Z) (stream : list byte)
| WtSilent.

(** [handleWebTransport] from its first read to the session.  The read
    is [io.ReadFull(stream, lenBuf)] with no deadline and no context: it
    returns once the bytes have arrived, however late, and does not
    return for a silent client.  [None]: the handler is still in the
    read and no session exists. *)
Definition acceptWebTransportSession (json : list byte → option ResizeMessage)
    (os : osEnv) (srv : httpServer) (ctx_done : bool) (c : wtClient)
  : option (httpServer * (sessionError + anySession) * list byte) :=
  match c with
  | WtSends _ stream => Some (openWebTransportSession json os srv ctx_done stream)
  | WtSilent => None
  end.

(** ** The read limit of a WebSocket connection

    [conn.Read] is coder/websocket's (go.mod pins v1.8.13).  The library
    limits a message to 32768 bytes unless [SetReadLimit] is called, and
    the handlers never call it: [Read] fails on a longer message and the
    connection is closed. *)
Definition websocketReadLimit : Z := 32768.

(** What [conn.Read] returns, call after call, to a pump whose client
    sends [sent] and closes: the messages up to the first one over the
    limit, then an error. *)
Fixpoint conn_Reads (sent : list (list byte)) : list (list byte) :=
  match sent with
  | [] => []
  | m :: rest =>
      if Z.of_nat (length m) <=? websocketReadLimit
      then m :: conn_Reads rest
      else []
  end.

(** ** Reading the turns of an output pump *)

(** The pump goes round on a turn: neither done signal is ready at the
    [select], the bridge read succeeds, and the write of a non-empty
    chunk succeeds. *)
Definition turnGoesOn (t : outputTurn) : bool :=
  negb (turn_ctx_done t) && negb (turn_session_done t) &&
  match turn_read t with
  | BridgeErr => false
  | BridgeData [] => true
  | BridgeData _ => turn_write_ok t
  end.

(** How the pump returns on a turn on which it does not go round. *)
Definition turnExit (t : outputTurn) : outExit :=
  match select_done (turn_pick_ctx t) (turn_ctx_done t) (turn_session_done t) with
  | SelCtx => OutCtxDone
  | SelSession => OutSessionDone
  | SelDefault =>
      match turn_read t with
      | BridgeErr => OutReadError
      | BridgeData _ => OutWriteError
      end
  end.

(** What the pump hands to the connection on that turn: nothing when the
    connection context is done, the close message when the session is
    done or the read failed, and the output message whose write failed. *)
Definition lastMessages (t : outputTurn) : list (list byte) :=
  match turnExit t with
  | OutCtxDone => []
  | OutSessionDone | OutReadError => [closeMessage]
  | OutWriteError =>
      match turn_read t with
      | BridgeData chunk => [outputMessage chunk]
      | BridgeErr => []
      end
  end.

(** * Properties *)

(** ** Channels *)

Lemma try_send_cap {A} (c : chan A) v : chan_cap (try_send c v) = chan_cap c.
Proof. unfold try_send. by case_match. Qed.

Lemma try_send_buf {A} (c : chan A) v :
  (length (chan_buf c) ≤ chan_cap c)%nat →
  chan_buf (try_send c v) = take (chan_cap c) (chan_buf c ++ [v]).
Proof.
  intros Hle. unfold try_send.
  destruct (Nat.ltb_spec (length (chan_buf c)) (chan_cap c)) as [Hlt|Hge]; simpl.
  - rewrite take_ge; [done|]. rewrite length_app. simpl. lia.
  - rewrite take_app_le by lia. rewrite take_ge; [done|lia].
Qed.

Lemma try_send_bounded {A} (c : chan A) v :
  (length (chan_buf c) ≤ chan_cap c)%nat →
  (length (chan_buf (try_send c v)) ≤ chan_cap (try_send c v))%nat.
Proof.
  intros Hle. rewrite try_send_buf, try_send_cap by done.
  rewrite length_take. lia.
Qed.

Lemma send_all_spec {A} (vs : list A) : ∀ c : chan A,
  (length (chan_buf c) ≤ chan_cap c)%nat →
  chan_cap (send_all c vs) = chan_cap c ∧
  chan_buf (send_all c vs) = take (chan_cap c) (chan_buf c ++ vs).
Proof.
  induction vs as [|v vs IH]; intros c Hle; simpl.
  - split; [done|]. rewrite app_nil_r, take_ge; [done|lia].
  - destruct (IH (try_send c v) (try_send_bounded c v Hle)) as [Hc Hb].
    unfold send_all in *. rewrite Hc, Hb, try_send_cap. split; [done|].
    rewrite try_send_buf by done.
    destruct (Nat.ltb_spec (length (chan_buf c)) (chan_cap c)) as [Hlt|Hge].
    + rewrite (take_ge (chan_buf c ++ [v])) by (rewrite length_app; simpl; lia).
      by rewrite <- app_assoc.
    + rewrite (take_app_le (chan_buf c) [v]) by lia.
      rewrite (take_ge (chan_buf c)) by lia.
      rewrite take_app_le by lia. rewrite take_app_le by lia.
      by rewrite take_ge by lia.
Qed.

Lemma recv_head {A} (c : chan A) : fst <$> recv c = head (chan_buf c).
Proof. unfold recv. by destruct (chan_buf c). Qed.

Lemma head_take_1 {A} (l : list A) : head (take 1 l) = head l.
Proof. by destruct l. Qed.

(** ** Resize and the notification channel *)

Lemma webSession_burst_chan (rs : list (Z * Z)) : ∀ s : webSession,
  ws_windowChanges (resizeBurst s rs)
  = send_all (ws_windowChanges s) (windowSize <$> rs).
Proof.
  induction rs as [|[c r] rs IH]; intros s; [done|].
  unfold resizeBurst in *. simpl. by rewrite IH.
Qed.

Lemma cmdSession_burst_chan (rs : list (Z * Z)) : ∀ s : cmdSession,
  cs_windowChanges (resizeBurst s rs)
  = send_all (cs_windowChanges s) (windowSize <$> rs).
Proof.
  induction rs as [|[c r] rs IH]; intros s; [done|].
  unfold resizeBurst in *. simpl. by rewrite IH.
Qed.

Lemma webSession_burst_size (rs : list (Z * Z)) : ∀ s : webSession,
  webSession_Pty (resizeBurst s rs)
  = from_option (λ cr, {| Pty_Width := cr.1; Pty_Height := cr.2 |})
      (webSession_Pty s) (last rs).
Proof.
  induction rs as [|[c r] rs IH]; intros s; [done|].
  unfold resizeBurst in *. simpl. rewrite IH.
  destruct rs as [|cr rs]; [done|]. rewrite last_cons_cons.
  destruct (last (cr :: rs)) eqn:E; [done|].
  by apply last_None in E.
Qed.

(** C1 (as the code behaves).  On a session whose notification channel
    has capacity 1 and at most one pending value, a burst of resizes
    leaves at most one pending value, and a receive after the burst
    yields the oldest unconsumed one: the value that was already pending,
    or else the FIRST resize of the burst.  The later resizes of the burst
    are dropped by the non-blocking send (they still reach the stored
    size).  Holds for the embedded and for the command session. *)
Theorem resize_burst_delivers_oldest :
  (∀ (s : webSession) (rs : list (Z * Z)),
     chan_cap (ws_windowChanges s) = 1%nat →
     (length (chan_buf (ws_windowChanges s)) ≤ 1)%nat →
     (length (chan_buf (ws_windowChanges (resizeBurst s rs))) ≤ 1)%nat ∧
     fst <$> recv (ws_windowChanges (resizeBurst s rs))
     = head (chan_buf (ws_windowChanges s) ++ (windowSize <$> rs))) ∧
  (∀ (s : cmdSession) (rs : list (Z * Z)),
     chan_cap (cs_windowChanges s) = 1%nat →
     (length (chan_buf (cs_windowChanges s)) ≤ 1)%nat →
     (length (chan_buf (cs_windowChanges (resizeBurst s rs))) ≤ 1)%nat ∧
     fst <$> recv (cs_windowChanges (resizeBurst s rs))
     = head (chan_buf (cs_windowChanges s) ++ (windowSize <$> rs))).
Proof.
  split; intros s rs Hcap Hlen.
  - rewrite webSession_burst_chan, recv_head.
    destruct (send_all_spec (windowSize <$> rs) (ws_windowChanges s)) as [_ Hb];
      [lia|].
    rewrite Hb, Hcap, head_take_1. split; [|done].
    rewrite length_take. lia.
  - rewrite cmdSession_burst_chan, recv_head.
    destruct (send_all_spec (windowSize <$> rs) (cs_windowChanges s)) as [_ Hb];
      [lia|].
    rewrite Hb, Hcap, head_take_1. split; [|done].
    rewrite length_take. lia.
Qed.

Lemma resize_burst_delivers_oldest_witness :
  chan_cap (ws_windowChanges freshWebSession) = 1%nat ∧
  (length (chan_buf (ws_windowChanges freshWebSession)) ≤ 1)%nat ∧
  fst <$> recv (ws_windowChanges
                  (resizeBurst freshWebSession [(100, 40); (120, 50); (90, 30)]))
  = Some {| Width := 100; Height := 40 |}.
Proof.
  assert (Hcap : chan_cap (ws_windowChanges freshWebSession) = 1%nat)
    by reflexivity.
  assert (Hlen : (length (chan_buf (ws_windowChanges freshWebSession)) ≤ 1)%nat)
    by (simpl; lia).
  split; [exact Hcap|]. split; [exact Hlen|].
  destruct resize_burst_delivers_oldest as [Hweb _].
  destruct (Hweb freshWebSession [(100, 40); (120, 50); (90, 30)] Hcap Hlen)
    as [_ Hrecv].
  rewrite Hrecv. reflexivity.
Defined.

(** C1 as stated fails: after a burst of two resizes on a fresh session a
    single receive yields the first resize (100x40), not the last
    (120x50), although the stored size is the last one. *)
Lemma resize_burst_last_counterexample :
  fst <$> recv (ws_windowChanges (resizeBurst freshWebSession [(100, 40); (120, 50)]))
  = Some {| Width := 100; Height := 40 |} ∧
  fst <$> recv (ws_windowChanges (resizeBurst freshWebSession [(100, 40); (120, 50)]))
  ≠ windowSize <$> last [(100, 40); (120, 50)] ∧
  fst <$> recv (cs_windowChanges (resizeBurst freshCmdSession [(100, 40); (120, 50)]))
  ≠ windowSize <$> last [(100, 40); (120, 50)] ∧
  webSession_Pty (resizeBurst freshWebSession [(100, 40); (120, 50)])
  = {| Pty_Width := 120; Pty_Height := 50 |}.
Proof.
  split; [reflexivity|]. split; [vm_compute; discriminate|].
  split; [vm_compute; discriminate|reflexivity].
Qed.

(** ** Framing *)

Lemma byte_of_land z :
  byte_to_Z (default x00 (Byte.of_N (Z.to_N (Z.land z 255)))) = Z.land z 255.
Proof.
  assert (Hr : 0 ≤ Z.land z 255 < 256).
  { change 255 with (Z.ones 8). rewrite Z.land_ones by lia.
    apply Z.mod_pos_bound. lia. }
  destruct (Byte.of_N (Z.to_N (Z.land z 255))) as [b|] eqn:E.
  - apply Byte.to_of_N in E. unfold byte_to_Z. simpl. rewrite E. lia.
  - apply Byte.of_N_None_iff in E. lia.
Qed.

Lemma testbit_byte u k j :
  0 ≤ k →
  Z.testbit (Z.land (Z.shiftr u k) 255) j
  = (0 <=? j) && (j <? 8) && Z.testbit u (j + k).
Proof.
  intros Hk. destruct (Z.leb_spec 0 j) as [Hj|Hj].
  - rewrite Z.land_spec, Z.shiftr_spec by lia.
    change 255 with (Z.ones 8).
    destruct (Z.ltb_spec j 8).
    + rewrite Z.ones_spec_low by lia. simpl. by rewrite andb_true_r.
    + rewrite Z.ones_spec_high by lia. simpl. by rewrite andb_false_r.
  - by rewrite Z.testbit_neg_r by lia.
Qed.

(** Reading back a length prefix gives the length, modulo 2^32. *)
Lemma Uint32_PutUint32 n :
  BigEndian_Uint32 (BigEndian_PutUint32 n) = n mod 2 ^ 32.
Proof.
  unfold BigEndian_PutUint32, BigEndian_Uint32.
  rewrite !byte_of_land.
  set (u := n mod 2 ^ 32).
  assert (Hu : 0 ≤ u < 2 ^ 32) by (apply Z.mod_pos_bound; lia).
  apply Z.bits_inj'. intros i Hi.
  rewrite !Z.lor_spec, !Z.shiftl_spec by lia.
  rewrite !testbit_byte by lia.
  assert (Hhigh : 32 ≤ i → Z.testbit u i = false).
  { intros H32. destruct (decide (u = 0)) as [->|Hne]; [apply Z.bits_0|].
    apply Z.bits_above_log2; [lia|].
    assert (Z.log2 u < 32) by (apply Z.log2_lt_pow2; lia). lia. }
  replace (i - 8 + 8) with i by lia. replace (i - 16 + 16) with i by lia.
  replace (i - 24 + 24) with i by lia. rewrite Z.add_0_r.
  destruct (Z.leb_spec 0 i), (Z.ltb_spec i 8), (Z.leb_spec 0 (i - 8)),
    (Z.ltb_spec (i - 8) 8), (Z.leb_spec 0 (i - 16)), (Z.ltb_spec (i - 16) 8),
    (Z.leb_spec 0 (i - 24)), (Z.ltb_spec (i - 24) 8);
    try lia; simpl; rewrite ?orb_false_r; try done.
  symmetry. apply Hhigh. lia.
Qed.

Lemma ReadFull_app n (l rest : list byte) :
  length l = n → ReadFull n (l ++ rest) = (Some l, rest).
Proof.
  intros <-. unfold ReadFull. rewrite length_app.
  replace (length l <=? length l + length rest)%nat with true
    by (symmetry; apply Nat.leb_le; lia).
  by rewrite take_app_length, drop_app_length.
Qed.

Lemma ReadFull_framed (msg rest : list byte) :
  Z.of_nat (length msg) < 2 ^ 32 →
  ∃ lenBuf,
    ReadFull 4 (writeFramed msg ++ rest) = (Some lenBuf, msg ++ rest) ∧
    BigEndian_Uint32 lenBuf = Z.of_nat (length msg).
Proof.
  intros Hlen. unfold writeFramed. rewrite <- app_assoc.
  rewrite ReadFull_app by done. eexists. split; [done|].
  rewrite Uint32_PutUint32. apply Z.mod_small. lia.
Qed.

(** ** The dispatcher *)

Section DispatchFacts.

Variable json : list byte → option ResizeMessage.
Variable srv : httpServer.

Lemma processInput_input_web (s : webSession) payload :
  processInput json srv (inputFrame payload) s =
  if ReadOnly (config srv) then Ok (s, [])
  else s' ← webSession_InputWrite s payload; Ok (s', []).
Proof. unfold processInput, inputFrame. simpl. by destruct (ReadOnly _). Qed.

Lemma processInput_input_cmd (s : cmdSession) payload :
  processInput json srv (inputFrame payload) s =
  if ReadOnly (config srv) then Ok (s, [])
  else s' ← cmdSession_InputWrite s payload; Ok (s', []).
Proof. unfold processInput, inputFrame. simpl. by destruct (ReadOnly _). Qed.

Lemma processInput_resize {Sess} `{internalSession Sess} (s : Sess) payload :
  processInput json srv (resizeFrame payload) s =
  match json payload with
  | None =>
      Ok (s, [{| log_level := LWarn; log_msg := "invalid resize message" |}])
  | Some m =>
      Ok (Resize s (Cols m) (Rows m),
          [{| log_level := LDebug; log_msg := "terminal resized" |}])
  end.
Proof. reflexivity. Qed.

Lemma processInputs_resizes_web (payloads : list (list byte)) :
  ∀ s : webSession, ∃ s' logs,
    processInputs json srv (resizeFrame <$> payloads) s = Ok (s', logs) ∧
    webSession_Pty s' = reportedAfter (webSession_Pty s) (omap json payloads).
Proof.
  induction payloads as [|p ps IH]; intros s; [by eexists _, _|].
  rewrite fmap_cons. cbn [processInputs]. rewrite processInput_resize.
  cbn [omap list_omap].
  destruct (json p) as [m|]; cbn [mbind result_bind].
  - destruct (IH (Resize s (Cols m) (Rows m))) as (s' & logs & -> & Hp).
    eexists _, _. split; [reflexivity|]. rewrite Hp.
    unfold reportedAfter. destruct (omap json ps) as [|m' ms]; [done|].
    rewrite last_cons_cons. destruct (last (m' :: ms)) eqn:E; [done|].
    by apply last_None in E.
  - destruct (IH s) as (s' & logs & -> & Hp). by eexists _, _.
Qed.

Lemma processInputs_resizes_cmd (payloads : list (list byte)) :
  ∀ s : cmdSession, ∃ s' logs,
    processInputs json srv (resizeFrame <$> payloads) s = Ok (s', logs) ∧
    cmdSession_Pty s' = reportedAfter (cmdSession_Pty s) (omap json payloads).
Proof.
  induction payloads as [|p ps IH]; intros s; [by eexists _, _|].
  rewrite fmap_cons. cbn [processInputs]. rewrite processInput_resize.
  cbn [omap list_omap].
  destruct (json p) as [m|]; cbn [mbind result_bind].
  - destruct (IH (Resize s (Cols m) (Rows m))) as (s' & logs & -> & Hp).
    eexists _, _. split; [reflexivity|]. rewrite Hp.
    unfold reportedAfter. destruct (omap json ps) as [|m' ms]; [done|].
    rewrite last_cons_cons. destruct (last (m' :: ms)) eqn:E; [done|].
    by apply last_None in E.
  - destruct (IH s) as (s' & logs & -> & Hp). by eexists _, _.
Qed.

(** A well-formed frame within the cap is read whole and dispatched. *)
Lemma readMessage_framed {Sess} `{internalSession Sess} (s : Sess) msg rest :
  Z.of_nat (length msg) ≤ frameCap →
  readMessage json srv (writeFramed msg ++ rest) s
  = '(s1, l1) ← processInput json srv msg s; Ok (ReadNext s1 rest l1).
Proof.
  intros Hcap. unfold readMessage, frameCap in *.
  destruct (ReadFull_framed msg rest) as (lenBuf & -> & ->); [lia|].
  destruct (Z.gtb_spec (Z.of_nat (length msg)) (1024 * 1024)); [lia|].
  rewrite Nat2Z.id, ReadFull_app by done. done.
Qed.

Lemma initialSizeWebTransport_resize payload m rest :
  Z.of_nat (length (resizeFrame payload)) < 1024 →
  json payload = Some m →
  initialSizeWebTransport json (writeFramed (resizeFrame payload) ++ rest)
  = ((Cols m, Rows m), rest).
Proof.
  intros Hlen Hj. unfold initialSizeWebTransport.
  destruct (ReadFull_framed (resizeFrame payload) rest)
    as (lenBuf & -> & ->); [lia|].
  destruct (Z.ltb_spec (Z.of_nat (length (resizeFrame payload))) 1024); [|lia].
  rewrite Nat2Z.id, ReadFull_app by done.
  unfold resizeFrame. rewrite decide_True by done. by rewrite Hj.
Qed.

(** The negotiation of [handleWebTransport] has its own bound: a first
    frame announcing 1024 bytes or more is ignored, its body is left on
    the stream, and the size stays 80x24. *)
Lemma initialSizeWebTransport_ignores_large lenBuf rest :
  length lenBuf = 4%nat →
  1024 ≤ BigEndian_Uint32 lenBuf →
  initialSizeWebTransport json (lenBuf ++ rest) = ((80, 24), rest).
Proof.
  intros Hlen Hbig. unfold initialSizeWebTransport.
  rewrite ReadFull_app by done.
  by destruct (Z.ltb_spec (BigEndian_Uint32 lenBuf) 1024); [lia|].
Qed.

End DispatchFacts.

(** C2.  With the read-only flag set, dispatching an input message leaves
    the session exactly as it was, so its bridge receives no [Write] at
    all, whatever the payload; with the flag cleared the payload is handed
    verbatim, as one [Write], to the input writer of the session's bridge
    and nothing else changes.  Both session kinds. *)
Theorem readonly_discards_input_else_verbatim
    (json : list byte → option ResizeMessage) (srv : httpServer)
    (payload : list byte) :
  (ReadOnly (config srv) = true →
     (∀ s : webSession,
        processInput json srv (inputFrame payload) s = Ok (s, [])) ∧
     (∀ s : cmdSession,
        processInput json srv (inputFrame payload) s = Ok (s, []))) ∧
  (ReadOnly (config srv) = false →
     (∀ s : webSession, is_Some (ws_platform s) →
        ∃ s', processInput json srv (inputFrame payload) s = Ok (s', []) ∧
              webSession_written s' = webSession_written s ++ [payload] ∧
              webSession_Pty s' = webSession_Pty s ∧
              ws_windowChanges s' = ws_windowChanges s) ∧
     (∀ s : cmdSession, is_Some (cs_platform s) →
        ∃ s', processInput json srv (inputFrame payload) s = Ok (s', []) ∧
              cmdSession_written s' = cmdSession_written s ++ [payload] ∧
              cmdSession_Pty s' = cmdSession_Pty s ∧
              cs_windowChanges s' = cs_windowChanges s)).
Proof.
  split; intros Hro.
  - split; intros s.
    + by rewrite processInput_input_web, Hro.
    + by rewrite processInput_input_cmd, Hro.
  - split; intros s [p Hp].
    + rewrite processInput_input_web, Hro. unfold webSession_InputWrite.
      rewrite Hp. eexists. split; [reflexivity|].
      unfold webSession_written. by rewrite Hp.
    + rewrite processInput_input_cmd, Hro. unfold cmdSession_InputWrite.
      rewrite Hp. eexists. split; [reflexivity|].
      unfold cmdSession_written. by rewrite Hp.
Qed.

Lemma readonly_discards_input_else_verbatim_witness :
  (ReadOnly readOnlyConfig = true ∧
   processInput clientResize (serverWith readOnlyConfig None)
     (inputFrame (bytes "ls")) freshWebSession = Ok (freshWebSession, [])) ∧
  (ReadOnly DefaultConfig = false ∧ is_Some (cs_platform freshCmdSession) ∧
   ∃ s', processInput clientResize (serverWith DefaultConfig (Some shellCommand))
           (inputFrame (bytes "ls")) freshCmdSession = Ok (s', []) ∧
         cmdSession_written s' = [bytes "ls"]).
Proof.
  split.
  - split; [reflexivity|].
    apply (readonly_discards_input_else_verbatim clientResize
             (serverWith readOnlyConfig None) (bytes "ls")). reflexivity.
  - split; [reflexivity|]. split; [by eexists|].
    destruct (readonly_discards_input_else_verbatim clientResize
                (serverWith DefaultConfig (Some shellCommand)) (bytes "ls"))
      as [_ Hrw].
    destruct (Hrw eq_refl) as [_ Hcmd].
    destruct (Hcmd freshCmdSession) as (s' & Hs' & Hw & _); [by eexists|].
    exists s'. split; [exact Hs'|]. rewrite Hw. reflexivity.
Defined.

(** C4.  After any sequence of resize messages the size reported by
    [Pty()] is the (cols, rows) of the last message whose payload
    decoded; messages that fail to decode leave it unchanged, and if none
    decodes the report is the one before the sequence.  Both session
    kinds; the dispatcher always returns. *)
Theorem reported_size_is_last_parsed_resize
    (json : list byte → option ResizeMessage) (srv : httpServer)
    (payloads : list (list byte)) :
  (∀ s : webSession, ∃ s' logs,
     processInputs json srv (resizeFrame <$> payloads) s = Ok (s', logs) ∧
     webSession_Pty s' = reportedAfter (webSession_Pty s) (omap json payloads)) ∧
  (∀ s : cmdSession, ∃ s' logs,
     processInputs json srv (resizeFrame <$> payloads) s = Ok (s', logs) ∧
     cmdSession_Pty s' = reportedAfter (cmdSession_Pty s) (omap json payloads)).
Proof.
  split; [apply processInputs_resizes_web | apply processInputs_resizes_cmd].
Qed.

(** C7.  A resize message whose payload fails to decode makes the
    dispatcher log the warning "invalid resize message" and return the
    session unchanged (stored size, bridge, notification channel and
    everything else); the messages after it are dispatched as if it had
    not been sent. *)
Theorem malformed_resize_is_ignored
    (json : list byte → option ResizeMessage) (srv : httpServer)
    (payload : list byte) :
  json payload = None →
  let warn := {| log_level := LWarn; log_msg := "invalid resize message" |} in
  (∀ s : webSession,
     processInput json srv (resizeFrame payload) s = Ok (s, [warn])) ∧
  (∀ s : cmdSession,
     processInput json srv (resizeFrame payload) s = Ok (s, [warn])) ∧
  (∀ (s : webSession) rest,
     processInputs json srv (resizeFrame payload :: rest) s
     = '(s', logs) ← processInputs json srv rest s; Ok (s', warn :: logs)) ∧
  (∀ (s : cmdSession) rest,
     processInputs json srv (resizeFrame payload :: rest) s
     = '(s', logs) ← processInputs json srv rest s; Ok (s', warn :: logs)).
Proof.
  intros Hbad warn.
  assert (Hone : ∀ Sess (H : internalSession Sess) (s : Sess),
             processInput json srv (resizeFrame payload) s = Ok (s, [warn])).
  { intros. by rewrite processInput_resize, Hbad. }
  repeat split; intros.
  - apply Hone.
  - apply Hone.
  - cbn [processInputs]. rewrite Hone. cbn [mbind result_bind].
    by destruct (processInputs json srv rest s) as [[]|].
  - cbn [processInputs]. rewrite Hone. cbn [mbind result_bind].
    by destruct (processInputs json srv rest s) as [[]|].
Qed.

Lemma malformed_resize_is_ignored_witness :
  clientResize (bytes "cols=100") = None ∧
  processInput clientResize (serverWith DefaultConfig None)
    (resizeFrame (bytes "cols=100")) freshWebSession
  = Ok (freshWebSession,
        [{| log_level := LWarn; log_msg := "invalid resize message" |}]).
Proof.
  split; [reflexivity|].
  apply (malformed_resize_is_ignored clientResize (serverWith DefaultConfig None)
           (bytes "cols=100")). reflexivity.
Defined.

(** ** Session creation *)

Lemma createSession_size os srv ctx_done h c r srv' (s : webSession) :
  createSession os srv ctx_done h c r = (srv', inr s) →
  ws_cols s = (if c <=? 0 then 80 else c) ∧
  ws_rows s = (if r <=? 0 then 24 else r) ∧
  is_Some (ws_platform s) ∧
  ws_windowChanges s = make_chan 1 ∧
  ws_closed s = false.
Proof.
  unfold createSession. intros Hc.
  destruct (newPlatformPty _ _ _ _) as [p|]; [|discriminate].
  destruct (h _) as [prog|]; [|discriminate].
  injection Hc as _ <-. simpl. eauto.
Qed.

Lemma createCmdSession_size os srv ctx_done c r srv' (s : cmdSession) :
  createCmdSession os srv ctx_done c r = (srv', inr s) →
  cs_cols s = (if c <=? 0 then 80 else c) ∧
  cs_rows s = (if r <=? 0 then 24 else r) ∧
  is_Some (cs_platform s) ∧
  cs_windowChanges s = make_chan 1 ∧
  cs_closed s = false.
Proof.
  unfold createCmdSession. intros Hc.
  destruct (cmdHandler srv); [|discriminate].
  destruct (newCmdPlatformPty _ _ _ _) as [p|]; [|discriminate].
  injection Hc as _ <-. simpl. eauto.
Qed.

Lemma createAnySession_size os srv ctx_done c r srv' a :
  createAnySession os srv ctx_done c r = (srv', inr a) →
  anySession_Pty a =
  {| Pty_Width := if c <=? 0 then 80 else c;
     Pty_Height := if r <=? 0 then 24 else r |}.
Proof.
  unfold createAnySession. intros Hc. destruct (cmdHandler srv).
  - destruct (createCmdSession _ _ _ _ _) as [srv1 [e|s]] eqn:E;
      simpl in Hc; [discriminate|].
    injection Hc as _ <-. apply createCmdSession_size in E as (Hc & Hr & _).
    simpl. unfold cmdSession_Pty. by rewrite Hc, Hr.
  - destruct (createSession _ _ _ _ _ _) as [srv1 [e|s]] eqn:E;
      simpl in Hc; [discriminate|].
    injection Hc as _ <-. apply createSession_size in E as (Hc & Hr & _).
    simpl. unfold webSession_Pty. by rewrite Hc, Hr.
Qed.

Lemma initialSizeWebSocket_resize json delay payload m :
  delay < initialReadTimeout_ms → json payload = Some m →
  initialSizeWebSocket json false (Some (delay, resizeFrame payload))
  = (Cols m, Rows m).
Proof.
  intros Hd Hj. unfold initialSizeWebSocket, conn_Read_timeout.
  destruct (Z.ltb_spec delay initialReadTimeout_ms); [|lia].
  unfold resizeFrame. rewrite decide_True by done. by rewrite Hj.
Qed.


Lemma initialSizeWebSocket_default json ctx_done first :
  ctx_done = true ∨ noInitialResize json first →
  initialSizeWebSocket json ctx_done first = (80, 24).
Proof.
  unfold noInitialResize, initialSizeWebSocket, conn_Read_timeout.
  destruct ctx_done; [done|]. intros [?|Hno]; [done|]. revert Hno.
  destruct first as [[delay data]|]; [|done].
  destruct (Z.ltb_spec delay initialReadTimeout_ms) as [Hlt|Hge]; [|done].
  intros [Hlate|Hdata]; [lia|].
  destruct data as [|t payload]; [done|].
  destruct (decide (t = MsgResize)) as [->|Hne]; [|done].
  destruct Hdata as [Hne|Hj]; [done|]. by rewrite Hj.
Qed.

(** When the operating system and the program handler cooperate, the
    session is created: registered under its id, with its terminal
    opened at the clamped size. *)
Lemma createAnySession_starts os srv ctx_done c r :
  sessionCanStart os srv →
  let cols := if c <=? 0 then 80 else c in
  let rows := if r <=? 0 then 24 else r in
  ∃ a,
    createAnySession os srv ctx_done c r
    = (set_sessions srv (<[session_id os := serverKind srv]> (sessions srv)), inr a) ∧
    anySession_Pty a = {| Pty_Width := cols; Pty_Height := rows |} ∧
    anySession_ptySize a = bridgeSize os srv cols rows ∧
    anySession_id a = session_id os ∧
    anySession_closed a = false ∧
    Done a = ctx_done.
Proof.
  intros Hcan cols rows.
  unfold sessionCanStart, createAnySession, serverKind, bridgeSize in *.
  destruct (cmdHandler srv) as [cmd|] eqn:Hcmd.
  - destruct Hcan as [Hpty Hstart]. unfold createCmdSession.
    rewrite Hcmd. unfold newCmdPlatformPty. rewrite Hpty, Hstart. cbn.
    eexists. split; [reflexivity|]. by destruct (os_backend os).
  - destruct Hcan as [Hpty Hprog]. unfold createSession.
    fold cols rows.
    assert (Hp : ∃ p, newPlatformPty (os_backend os) (os_pty_ok os) cols rows = Some p ∧
                      pp_size p = match os_backend os with
                                  | WindowsBackend => None
                                  | UnixBackend => Some (cols, rows)
                                  end).
    { unfold newPlatformPty. destruct (os_backend os).
      - destruct Hpty as [?| ->]; [done|]. by eexists.
      - by eexists. }
    destruct Hp as (p & -> & Hsize).
    match goal with
    | |- context [handler srv ?s] => destruct (Hprog s) as [prog ->]
    end.
    cbn. eexists. split; [reflexivity|]. cbn. by split_and!.
Qed.




(** C10.  Session creation replaces each non-positive initial dimension,
    independently, by its default (cols 80, rows 24) and keeps a positive
    one, also when the value came from a decoded initial resize frame; a
    later [Resize] stores and reports whatever integers it is given. *)
Theorem creation_clamps_resize_does_not :
  (∀ os srv ctx_done h c r srv' (s : webSession),
     createSession os srv ctx_done h c r = (srv', inr s) →
     (c ≤ 0 → ws_cols s = 80) ∧ (0 < c → ws_cols s = c) ∧
     (r ≤ 0 → ws_rows s = 24) ∧ (0 < r → ws_rows s = r)) ∧
  (∀ os srv ctx_done c r srv' (s : cmdSession),
     createCmdSession os srv ctx_done c r = (srv', inr s) →
     (c ≤ 0 → cs_cols s = 80) ∧ (0 < c → cs_cols s = c) ∧
     (r ≤ 0 → cs_rows s = 24) ∧ (0 < r → cs_rows s = r)) ∧
  (∀ json os srv delay payload m srv' a,
     delay < initialReadTimeout_ms → json payload = Some m →
     openWebSocketSession json os srv false (Some (delay, resizeFrame payload))
     = (srv', inr a) →
     anySession_Pty a =
     {| Pty_Width := if Cols m <=? 0 then 80 else Cols m;
        Pty_Height := if Rows m <=? 0 then 24 else Rows m |}) ∧
  (∀ (s : webSession) c r,
     webSession_Pty (Resize s c r) = {| Pty_Width := c; Pty_Height := r |}) ∧
  (∀ (s : cmdSession) c r,
     cmdSession_Pty (Resize s c r) = {| Pty_Width := c; Pty_Height := r |}).
Proof.
  repeat split.
  - apply createSession_size in H as (-> & _). intros. by rewrite (proj2 (Z.leb_le _ _)).
  - apply createSession_size in H as (-> & _). intros.
    destruct (Z.leb_spec c 0); [lia|done].
  - apply createSession_size in H as (_ & -> & _). intros. by rewrite (proj2 (Z.leb_le _ _)).
  - apply createSession_size in H as (_ & -> & _). intros.
    destruct (Z.leb_spec r 0); [lia|done].
  - apply createCmdSession_size in H as (-> & _). intros. by rewrite (proj2 (Z.leb_le _ _)).
  - apply createCmdSession_size in H as (-> & _). intros.
    destruct (Z.leb_spec c 0); [lia|done].
  - apply createCmdSession_size in H as (_ & -> & _). intros. by rewrite (proj2 (Z.leb_le _ _)).
  - apply createCmdSession_size in H as (_ & -> & _). intros.
    destruct (Z.leb_spec r 0); [lia|done].
  - intros json os srv delay payload m srv' a Hd Hj.
    unfold openWebSocketSession.
    rewrite (initialSizeWebSocket_resize _ _ _ _ Hd Hj).
    intros Hc. by apply createAnySession_size in Hc.
Qed.

Lemma creation_clamps_resize_does_not_witness :
  (∃ srv' s,
     createSession unixEnv (serverWith DefaultConfig None) false someProgram 0 (-3)
     = (srv', inr s) ∧ ws_cols s = 80 ∧ ws_rows s = 24) ∧
  (∃ srv' s,
     createCmdSession unixEnv (serverWith DefaultConfig (Some shellCommand)) false
       132 0 = (srv', inr s) ∧ cs_cols s = 132 ∧ cs_rows s = 24) ∧
  (∃ srv' a,
     openWebSocketSession clientResize unixEnv (serverWith DefaultConfig None) false
       (Some (10, resizeFrame (resizePayload 0 (-1)))) = (srv', inr a) ∧
     anySession_Pty a = {| Pty_Width := 80; Pty_Height := 24 |}) ∧
  webSession_Pty (Resize freshWebSession 0 (-7))
  = {| Pty_Width := 0; Pty_Height := -7 |}.
Proof.
  destruct creation_clamps_resize_does_not as (Hweb & Hcmd & Hopen & Hresize & _).
  split; [|split; [|split]].
  - eexists _, _. split; [reflexivity|].
    edestruct (Hweb unixEnv (serverWith DefaultConfig None) false someProgram 0 (-3))
      as (Hc & _ & Hr & _); [reflexivity|].
    split; [apply Hc; lia | apply Hr; lia].
  - eexists _, _. split; [reflexivity|].
    edestruct (Hcmd unixEnv (serverWith DefaultConfig (Some shellCommand)) false 132 0)
      as (_ & Hc & Hr & _); [reflexivity|].
    split; [apply Hc; lia | apply Hr; lia].
  - eexists _, _. split; [reflexivity|].
    eapply (Hopen clientResize unixEnv (serverWith DefaultConfig None) 10
              (resizePayload 0 (-1)) {| Cols := 0; Rows := -1 |});
      reflexivity.
  - apply Hresize.
Defined.

(** ** Admission control *)

Lemma wrap_int32_id z : - 2 ^ 31 ≤ z < 2 ^ 31 → wrap_int32 z = z.
Proof.
  intros Hz. unfold wrap_int32. rewrite Z.mod_small; lia.
Qed.

Lemma set_connCount_same srv : set_connCount srv (connCount srv) = srv.
Proof. by destruct srv. Qed.

Lemma set_connCount_twice srv a b :
  set_connCount (set_connCount srv a) b = set_connCount srv b.
Proof. done. Qed.

(** *** The counter under concurrent handlers *)

Lemma handlerStepRun_inv n st ev :
  0 < MaxConnections (config (ad_srv st)) →
  connCount (ad_srv st) = Z.of_nat (ad_admitted st) + Z.of_nat (ad_undoing st) →
  Z.of_nat (ad_admitted st) ≤ MaxConnections (config (ad_srv st)) →
  connCount (ad_srv st) ≤ Z.of_nat n →
  Z.of_nat n < 2 ^ 31 - 1 →
  let st' := handlerStepRun st ev in
  config (ad_srv st') = config (ad_srv st) ∧
  connCount (ad_srv st') = Z.of_nat (ad_admitted st') + Z.of_nat (ad_undoing st') ∧
  Z.of_nat (ad_admitted st') ≤ MaxConnections (config (ad_srv st)) ∧
  connCount (ad_srv st') ≤ Z.of_nat (S n).
Proof.
  intros HN Hcount Hadm Hn Hbound. destruct st as [srv adm und]. cbn in *.
  destruct ev; cbn.
  - destruct (Z.leb_spec (MaxConnections (config srv)) 0); [lia|].
    unfold incrementConnCount. rewrite wrap_int32_id by lia.
    destruct (Z.gtb_spec (connCount srv + 1) (MaxConnections (config srv)));
      cbn; split_and!; try done; lia.
  - destruct und as [|und]; cbn; [split_and!; try done; lia|].
    unfold decrementConnCount. rewrite wrap_int32_id by lia.
    cbn. split_and!; try done; lia.
  - destruct adm as [|adm]; cbn; [split_and!; try done; lia|].
    unfold releaseConnection, decrementConnCount.
    destruct (Z.leb_spec (MaxConnections (config srv)) 0); [lia|].
    rewrite wrap_int32_id by lia. cbn. split_and!; try done; lia.
Qed.

Lemma handlersRun_snoc srv evs ev :
  handlersRun srv (evs ++ [ev]) = handlerStepRun (handlersRun srv evs) ev.
Proof. unfold handlersRun. by rewrite foldl_app. Qed.

(** Whatever the handlers have done so far: the counter is the handlers
    past the check plus the rejected attempts that have not yet
    decremented, and no more than max-connections are past the check. *)
Lemma handlersRun_inv srv evs :
  0 < MaxConnections (config srv) → connCount srv = 0 →
  Z.of_nat (length evs) < 2 ^ 31 - 1 →
  let st := handlersRun srv evs in
  config (ad_srv st) = config srv ∧
  connCount (ad_srv st) = Z.of_nat (ad_admitted st) + Z.of_nat (ad_undoing st) ∧
  Z.of_nat (ad_admitted st) ≤ MaxConnections (config srv) ∧
  connCount (ad_srv st) ≤ Z.of_nat (length evs).
Proof.
  intros HN H0. induction evs as [|ev evs IH] using rev_ind; intros Hlen.
  { cbn. split_and!; try done; lia. }
  rewrite length_app in Hlen. cbn [length] in Hlen.
  destruct IH as (Hcfg & Hc & Ha & Hn); [lia|].
  rewrite handlersRun_snoc, length_app. cbn [length].
  destruct (handlerStepRun_inv (length evs) (handlersRun srv evs) ev)
    as (Hcfg' & Hc' & Ha' & Hn'); rewrite ?Hcfg; try done; try lia.
  split_and!; try done; [congruence|by rewrite <- Hcfg|lia].
Qed.

(** With max-connections 0 the counter is never touched. *)
Lemma handlersRun_unlimited srv evs :
  MaxConnections (config srv) ≤ 0 →
  ad_srv (handlersRun srv evs) = srv ∧ ad_undoing (handlersRun srv evs) = 0%nat.
Proof.
  intros H0. induction evs as [|ev evs IH] using rev_ind; [done|].
  rewrite handlersRun_snoc. destruct IH as [Hsrv Hund].
  destruct (handlersRun srv evs) as [srv' adm und]. cbn in *. subst.
  destruct ev; cbn.
  - by destruct (Z.leb_spec (MaxConnections (config srv)) 0); [|lia].
  - done.
  - destruct adm as [|adm]; [done|]. cbn. unfold releaseConnection.
    by destruct (Z.leb_spec (MaxConnections (config srv)) 0); [|lia].
Qed.

(** *** The release of one connection *)

Lemma releases_app tr evs :
  releases (tr ++ evs) = (releases tr + releases evs)%nat.
Proof. unfold releases. by rewrite List.filter_app, length_app. Qed.

Lemma releases_writes ws evs :
  releases ((Conn.EvWrite <$> ws) ++ evs) = releases evs.
Proof.
  rewrite releases_app. replace (releases (Conn.EvWrite <$> ws)) with 0%nat; [done|].
  induction ws as [|w ws IH]; [done|]. exact IH.
Qed.

Lemma conn_step_slot json srv0 a st st' :
  Conn.step json a st = Some st' → slot_inv srv0 st → slot_inv srv0 st'.
Proof.
  unfold slot_inv. intros Hstep [Hcfg Hinv]. unfold Conn.step in Hstep.
  destruct (Conn.panicked st); [done|].
  assert (Hquiet : ∀ evs, releases evs = 0%nat →
            match Conn.handler_pc st with
            | Conn.HReturned =>
                releases (Conn.trace st ++ evs) = 1%nat ∧
                connCount (Conn.srv st) = connCount (releaseConnection srv0)
            | _ =>
                releases (Conn.trace st ++ evs) = 0%nat ∧
                connCount (Conn.srv st) = connCount srv0
            end).
  { intros evs Hq. rewrite releases_app, Hq, Nat.add_0_r. exact Hinv. }
  destruct a.
  - destruct (Conn.proc_exited st); [done|]. injection Hstep as <-.
    cbn -[releases]. split; [done|]. by apply Hquiet.
  - destruct (Conn.conn_cancelled st); [done|]. injection Hstep as <-.
    cbn -[releases]. split; [done|]. by apply Hquiet.
  - destruct (Conn.wt_done st); [done|]. by injection Hstep as <-.
  - destruct (Conn.proc_exited st && negb (Conn.watcher_done st)); [|done].
    injection Hstep as <-. cbn -[releases]. split; [done|]. by apply Hquiet.
  - destruct (Conn.out_pc st); try done.
    destruct (outputSelect _ _ _) as [ws [e|]]; injection Hstep as <-; cbn -[releases];
      (split; [done|]); apply Hquiet; by rewrite ?releases_writes,
        <- 1?(app_nil_r (Conn.EvWrite <$> ws)), ?releases_writes.
  - destruct (Conn.out_pc st); try done.
    destruct (outputRead _ _) as [ws [e|]]; injection Hstep as <-; cbn -[releases];
      (split; [done|]); apply Hquiet; by rewrite ?releases_writes,
        <- 1?(app_nil_r (Conn.EvWrite <$> ws)), ?releases_writes.
  - destruct (Conn.in_pc st); try done.
    destruct (select_done _ _ _); injection Hstep as <-; cbn -[releases];
      (split; [done|]); by apply Hquiet.
  - destruct (Conn.in_pc st); try done.
    destruct (readMessage _ _ _ _) as [[e rest l|s' rest l]|];
      injection Hstep as <-; cbn -[releases]; (split; [done|]); try by apply Hquiet.
    done.
  - destruct (Conn.handler_pc st) eqn:Hpc; try done.
    + destruct (Conn.pumpsReturned st && Conn.wt_done st); [|done].
      injection Hstep as <-. cbn -[releases]. split; [done|]. by apply Hquiet.
    + unfold closeCmdSession, Conn.closeCmdSession_events in Hstep.
      destruct (cs_closed (Conn.session st)); injection Hstep as <-;
        cbn -[releases]; (split; [done|]); by apply Hquiet.
    + injection Hstep as <-. cbn -[releases]. split; [done|]. by apply Hquiet.
    + injection Hstep as <-. cbn -[releases]. split; [done|]. by apply Hquiet.
    + injection Hstep as <-. cbn -[releases]. split; [done|]. by apply Hquiet.
    + injection Hstep as <-. cbn -[releases]. destruct Hinv as [Hr Hc].
      rewrite releases_app, Hr. split; [|split; [done|]].
      * unfold releaseConnection, decrementConnCount. by destruct (_ <=? 0).
      * unfold releaseConnection, decrementConnCount. rewrite Hcfg.
        destruct (_ <=? 0); [done|]. cbn. by rewrite Hc.
Qed.

Lemma conn_run_slot json srv0 acts : ∀ st,
  slot_inv srv0 st → slot_inv srv0 (Conn.run json acts st).
Proof.
  induction acts as [|a acts IH]; intros st Hinv; [done|].
  unfold Conn.run. cbn [foldl].
  destruct (Conn.step json a st) as [st'|] eqn:Hstep; cbn [default].
  - apply IH. by eapply conn_step_slot.
  - by apply IH.
Qed.

(** An attempt, statement by statement: the increment, the comparison
    and, when rejected, the decrement. *)
Lemma attempt_spec st :
  0 < MaxConnections (config (ad_srv st)) →
  0 ≤ connCount (ad_srv st) < 2 ^ 31 - 1 →
  let tried := handlerStepRun st StepAttempt in
  let undone := handlerStepRun tried StepUndo in
  connCount (ad_srv tried) = connCount (ad_srv st) + 1 ∧
  config (ad_srv tried) = config (ad_srv st) ∧
  (connCount (ad_srv st) < MaxConnections (config (ad_srv st)) →
     ad_admitted tried = S (ad_admitted st) ∧ ad_undoing tried = ad_undoing st) ∧
  (MaxConnections (config (ad_srv st)) ≤ connCount (ad_srv st) →
     ad_admitted tried = ad_admitted st ∧ ad_undoing tried = S (ad_undoing st) ∧
     undone = st).
Proof.
  intros HN Hc. destruct st as [srv adm und]. cbn in *.
  destruct (Z.leb_spec (MaxConnections (config srv)) 0); [lia|].
  unfold incrementConnCount. rewrite wrap_int32_id by lia.
  destruct (Z.gtb_spec (connCount srv + 1) (MaxConnections (config srv)));
    cbn; split_and!; try done; try lia.
  intros _. split_and!; try done. unfold decrementConnCount. cbn.
  rewrite wrap_int32_id by lia. rewrite set_connCount_twice.
  replace (connCount srv + 1 - 1) with (connCount srv) by lia.
  by rewrite set_connCount_same.
Qed.

(** The deferred release of an admitted handler. *)
Lemma finish_spec st :
  0 < MaxConnections (config (ad_srv st)) →
  0 ≤ connCount (ad_srv st) < 2 ^ 31 →
  ad_admitted st ≠ 0%nat →
  let ended := handlerStepRun st StepFinish in
  S (ad_admitted ended) = ad_admitted st ∧ ad_undoing ended = ad_undoing st ∧
  connCount (ad_srv ended) = connCount (ad_srv st) - 1 ∧
  config (ad_srv ended) = config (ad_srv st).
Proof.
  intros HN Hc Ha. destruct st as [srv adm und]. cbn in *.
  destruct adm as [|adm]; [done|]. cbn.
  unfold releaseConnection, decrementConnCount.
  destruct (Z.leb_spec (MaxConnections (config srv)) 0); [lia|].
  rewrite wrap_int32_id by lia. done.
Qed.




(** ** Well-formed sessions never make the dispatcher panic *)

Lemma webSession_Resize_wf s c r :
  webSession_wf s → webSession_wf (webSession_Resize s c r).
Proof.
  intros (Hp & Hcap & Hlen). unfold webSession_wf. simpl.
  rewrite try_send_cap. split; [|split; [done|]].
  - destruct Hp as [p ->]. by eexists.
  - pose proof (try_send_bounded (ws_windowChanges s)
                  {| Width := c; Height := r |}) as Hb.
    rewrite try_send_cap in Hb. rewrite Hcap in Hb. apply Hb. lia.
Qed.

Lemma cmdSession_Resize_wf s c r :
  cmdSession_wf s → cmdSession_wf (cmdSession_Resize s c r).
Proof.
  intros (Hp & Hcap & Hlen). unfold cmdSession_wf. simpl.
  rewrite try_send_cap. split; [|split; [done|]].
  - destruct Hp as [p ->]. by eexists.
  - pose proof (try_send_bounded (cs_windowChanges s)
                  {| Width := c; Height := r |}) as Hb.
    rewrite try_send_cap in Hb. rewrite Hcap in Hb. apply Hb. lia.
Qed.

Lemma anySession_InputWrite_wf a data :
  anySession_wf a →
  ∃ a', InputWrite a data = Ok a' ∧ anySession_wf a' ∧
        anySession_id a' = anySession_id a ∧ Done a' = Done a.
Proof.
  destruct a as [s|s]; intros ([p Hp] & Hcap & Hlen); simpl.
  - unfold webSession_InputWrite. rewrite Hp. eexists. split; [reflexivity|].
    simpl. unfold webSession_wf. simpl. eauto.
  - unfold cmdSession_InputWrite. rewrite Hp. eexists. split; [reflexivity|].
    simpl. unfold cmdSession_wf. simpl. eauto.
Qed.

Lemma anySession_Resize_wf a c r :
  anySession_wf a →
  anySession_wf (Resize a c r) ∧
  anySession_id (Resize a c r) = anySession_id a ∧
  Done (Resize a c r) = Done a.
Proof.
  destruct a as [s|s]; intros Hwf; simpl.
  - split; [by apply webSession_Resize_wf|done].
  - split; [by apply cmdSession_Resize_wf|done].
Qed.

Section PumpFacts.

Variable json : list byte → option ResizeMessage.

Lemma processInput_any_ok srv data a :
  anySession_wf a →
  ∃ a' l, processInput json srv data a = Ok (a', l) ∧ anySession_wf a' ∧
          anySession_id a' = anySession_id a ∧ Done a' = Done a.
Proof.
  intros Hwf. unfold processInput. destruct data as [|t payload].
  { by eexists _, _. }
  repeat case_decide; try by eexists _, _.
  - destruct (ReadOnly (config srv)); cbn [negb]; [by eexists _, _|].
    destruct (anySession_InputWrite_wf a payload Hwf) as (a' & -> & ?).
    by eexists _, _.
  - destruct (json payload) as [m|]; [|by eexists _, _].
    eexists _, _. split; [reflexivity|]. by apply anySession_Resize_wf.
Qed.

(** The oversized header: the pump returns at once. *)
Lemma handleWebTransportInput_too_large {Sess} `{internalSession Sess}
    fuel srv pick lenBuf tail (s : Sess) logs n :
  length lenBuf = 4%nat →
  frameCap < BigEndian_Uint32 lenBuf →
  Done s = false →
  handleWebTransportInput json (S fuel) srv pick false
    (lenBuf ++ tail) s logs n
  = Ok {| pr_exit := ExitTooLarge; pr_session := s; pr_rest := tail;
          pr_logs := logs ++ [{| log_level := LWarn;
                                 log_msg := "message too large" |}];
          pr_msgCount := n |}.
Proof.
  intros Hlen Hbig Hdone. cbn [handleWebTransportInput].
  rewrite Hdone. cbn [select_done]. unfold readMessage, ReadFull.
  rewrite length_app, Hlen.
  replace (4 <=? 4 + length tail)%nat with true
    by (symmetry; apply Nat.leb_le; lia).
  rewrite take_app_length' by done. rewrite drop_app_length' by done.
  destruct (Z.gtb_spec (BigEndian_Uint32 lenBuf) frameCap); [done|lia].
Qed.

(** Frames within the cap are dispatched one after the other, in order. *)
Lemma handleWebTransportInput_frames srv pick msgs :
  ∀ a logs n a' logs' fuel rest,
    anySession_wf a → Done a = false →
    Forall (λ m : list byte, Z.of_nat (length m) ≤ frameCap) msgs →
    processInputs json srv msgs a = Ok (a', logs') →
    handleWebTransportInput json (length msgs + fuel) srv pick false
      (concat (writeFramed <$> msgs) ++ rest) a logs n
    = handleWebTransportInput json fuel srv pick false rest a'
        (logs ++ logs') (n + length msgs).
Proof.
  induction msgs as [|m msgs IH]; intros a logs n a' logs' fuel rest Hwf Hd Hcap Hrun.
  - injection Hrun as <- <-. cbn. by rewrite app_nil_r, Nat.add_0_r.
  - apply Forall_cons in Hcap as [Hm Hcap]. cbn [processInputs] in Hrun.
    destruct (processInput_any_ok srv m a Hwf) as (a1 & l1 & Hp & Hwf1 & _ & Hd1).
    rewrite Hp in Hrun. cbn [mbind result_bind] in Hrun.
    destruct (processInputs json srv msgs a1) as [[a2 l2]|] eqn:Hrest;
      cbn in Hrun; [|discriminate].
    injection Hrun as <- <-.
    cbn [length Nat.add handleWebTransportInput fmap list_fmap concat].
    rewrite Hd. cbn [select_done]. rewrite <- app_assoc.
    rewrite readMessage_framed by done. rewrite Hp. cbn [mbind result_bind].
    rewrite (IH a1 (logs ++ l1) (S n) a2 l2 fuel rest Hwf1) by congruence.
    f_equal; [by rewrite app_assoc|lia].
Qed.

End PumpFacts.

(** ** What a connection does to the server *)

Lemma checkConnectionLimit_frame srv :
  config (checkConnectionLimit srv).1 = config srv ∧
  cmdHandler (checkConnectionLimit srv).1 = cmdHandler srv ∧
  handler (checkConnectionLimit srv).1 = handler srv ∧
  sessions (checkConnectionLimit srv).1 = sessions srv.
Proof.
  unfold checkConnectionLimit, incrementConnCount, decrementConnCount.
  destruct (_ <=? 0); [done|]. cbn [fst snd]. by destruct (_ >? _).
Qed.

Lemma releaseConnection_frame srv :
  config (releaseConnection srv) = config srv ∧
  cmdHandler (releaseConnection srv) = cmdHandler srv ∧
  handler (releaseConnection srv) = handler srv ∧
  sessions (releaseConnection srv) = sessions srv.
Proof. unfold releaseConnection, decrementConnCount. by destruct (_ <=? 0). Qed.

Lemma createAnySession_inr os srv ctx_done c r srv' a :
  createAnySession os srv ctx_done c r = (srv', inr a) →
  anySession_wf a ∧ anySession_id a = session_id os ∧ Done a = ctx_done ∧
  config srv' = config srv ∧ cmdHandler srv' = cmdHandler srv ∧
  connCount srv' = connCount srv ∧
  ∃ k, sessions srv' = <[session_id os := k]> (sessions srv).
Proof.
  unfold createAnySession, createCmdSession, createSession.
  destruct (cmdHandler srv) eqn:Hcmd.
  - destruct (newCmdPlatformPty _ _ _ _) eqn:Hp; simpl; [|congruence].
    intros [= <- <-]. simpl. unfold cmdSession_wf. simpl.
    repeat split; eauto.
  - destruct (newPlatformPty _ _ _ _) eqn:Hp; [|simpl; congruence].
    destruct (handler srv _); simpl; [|congruence].
    intros [= <- <-]. simpl. unfold webSession_wf. simpl.
    repeat split; eauto.
Qed.

Lemma closeFunc_frame srv a :
  config (closeFunc srv a).1 = config srv ∧
  cmdHandler (closeFunc srv a).1 = cmdHandler srv ∧
  connCount (closeFunc srv a).1 = connCount srv ∧
  (sessions (closeFunc srv a).1 = sessions srv ∨
   sessions (closeFunc srv a).1 = delete (anySession_id a) (sessions srv)).
Proof.
  destruct a as [s|s]; simpl; unfold closeSession, closeCmdSession.
  - destruct (ws_closed s); simpl; auto.
  - destruct (cs_closed s); simpl; auto.
Qed.

Lemma sameForOthers_trans id a b c :
  sameForOthers id a b → sameForOthers id b c → sameForOthers id a c.
Proof.
  intros (H1 & H2 & H3) (H4 & H5 & H6). unfold sameForOthers.
  split; [congruence|]. split; [congruence|].
  intros id' Hne. rewrite H6, H3; done.
Qed.

Lemma sameForOthers_eq id a b :
  config b = config a → cmdHandler b = cmdHandler a → sessions b = sessions a →
  sameForOthers id a b.
Proof. intros H1 H2 H3. unfold sameForOthers. by rewrite H1, H2, H3. Qed.

(** ** Closing a session twice *)

Module RaceFacts.
Import Race.

Section Program.

Context {Sh : Type}.
Variable isClosed : Sh → bool.
Variable setClosed : Sh → Sh.
Variable teardown : list (Sh → Sh).

Hypothesis setClosed_closed : ∀ sh, isClosed (setClosed sh) = true.
Hypothesis teardown_closed :
  ∀ call sh, call ∈ teardown → isClosed (call sh) = isClosed sh.

Lemma progress_S sh0 i call :
  teardown !! i = Some call → call (progress setClosed teardown sh0 i) = progress setClosed teardown sh0 (S i).
Proof.
  intros Hi. unfold Race.progress.
  rewrite (take_S_r _ _ _ Hi), foldl_app. done.
Qed.

Lemma progress_closed sh0 k : isClosed (progress setClosed teardown sh0 k) = true.
Proof.
  unfold Race.progress.
  assert (Hsub : ∀ call, call ∈ take k teardown → call ∈ teardown).
  { intros call Hin. apply elem_of_take in Hin as (j & Hj & _).
    by eapply list_elem_of_lookup_2. }
  induction (take k teardown) as [|call l IH] using rev_ind; simpl; [done|].
  rewrite foldl_app. simpl. rewrite teardown_closed.
  - apply IH. intros c Hc. apply Hsub. set_solver.
  - apply Hsub. set_solver.
Qed.

Lemma stage_closed sh0 p sh : stage setClosed teardown sh0 p = Some sh → isClosed sh = true.
Proof.
  destruct p; simpl; try discriminate.
  - intros [= <-]. apply progress_closed.
  - case_match; [|discriminate]. intros [= <-]. apply progress_closed.
  - intros [= <-]. apply progress_closed.
Qed.

Lemma race_start_inv sh0 : inv isClosed setClosed teardown sh0 (start sh0).
Proof.
  unfold Race.inv, lock_ok. simpl. split; [done|].
  destruct (isClosed sh0); [left|right; left]; done.
Qed.

Lemma race_step_inv sh0 t st st' :
  inv isClosed setClosed teardown sh0 st →
  step isClosed setClosed teardown t st = Some st' →
  inv isClosed setClosed teardown sh0 st'.
Proof.
  destruct st as [sh m pa pb]. unfold Race.inv, lock_ok, Race.step, pc_of, update.
  cbn [shared mu pc_true pc_false].
  intros [[Hmu Hcrit] Hphase] Hstep.
  destruct Hphase as [(Hc0 & -> & Hpa & Hpb) | [(Hc0 & -> & Hpa & Hpb) | (Hc0 & w & Hst & Hpas)]].
  - (* the flag was already set: both goroutines take the early return *)
    destruct t, pa, pb; try discriminate; cbn in *; subst m;
      try rewrite Hc0 in Hstep; simplify_eq; cbn;
      (split; [done|]); left; done.
  - (* flag clear, nobody past the test yet *)
    destruct t, pa, pb; try discriminate; cbn in *; subst m;
      try rewrite Hc0 in Hstep; simplify_eq; cbn;
      (split; [done|]);
      first [ by (right; left)
            | right; right; (split; [done|]);
              first [ by (exists true) | by (exists false) ] ].
  - (* one goroutine is tearing down *)
    pose proof (stage_closed sh0 _ _ Hst) as Hcl.
    destruct w; cbn [negb pc_of pc_true pc_false] in *.
    + destruct t.
      * destruct pa; cbn in Hst; try discriminate.
        -- (* AtUnlock *)
           destruct pb; try discriminate; cbn in *; simplify_eq; cbn;
             (split; [done|]); right; right; (split; [done|]); by exists true.
        -- (* AtTeardown i *)
           destruct (Nat.leb_spec i (length teardown)) as [Hle|]; [|discriminate].
           injection Hst as <-.
           destruct (teardown !! i) as [call|] eqn:Hi; simplify_eq;
             cbn [shared mu pc_true pc_false critical andb].
           ++ split; [by destruct pb|]. right; right. split; [done|].
              exists true. cbn [pc_of pc_true pc_false negb shared Race.stage]. split; [|done].
              pose proof (lookup_lt_Some _ _ _ Hi) as Hlt.
              rewrite (proj2 (Nat.leb_le (S i) (length teardown))) by lia.
              by rewrite (progress_S _ _ _ Hi).
           ++ split; [by destruct pb|]. right; right. split; [done|].
              exists true. cbn [pc_of pc_true pc_false negb shared Race.stage]. split; [|done].
              apply lookup_ge_None in Hi. by replace (length teardown) with i by lia.
      * destruct pb; try discriminate; cbn in *;
          destruct pa; try discriminate; cbn in *; subst m;
          try rewrite Hcl in Hstep; simplify_eq; cbn;
          (split; [done|]); right; right; (split; [done|]);
          exists true; done.
    + destruct t.
      * destruct pa; try discriminate; cbn in *;
          destruct pb; try discriminate; cbn in *; subst m;
          try rewrite Hcl in Hstep; simplify_eq; cbn;
          (split; [done|]); right; right; (split; [done|]);
          exists false; done.
      * destruct pb; cbn in Hst; try discriminate.
        -- destruct pa; try discriminate; cbn in *; simplify_eq; cbn;
             (split; [done|]); right; right; (split; [done|]); by exists false.
        -- destruct (Nat.leb_spec i (length teardown)) as [Hle|]; [|discriminate].
           injection Hst as <-.
           destruct (teardown !! i) as [call|] eqn:Hi; simplify_eq;
             cbn [shared mu pc_true pc_false critical andb].
           ++ split; [by destruct pa|]. right; right. split; [done|].
              exists false. cbn [pc_of pc_true pc_false negb shared Race.stage]. split; [|done].
              pose proof (lookup_lt_Some _ _ _ Hi) as Hlt.
              rewrite (proj2 (Nat.leb_le (S i) (length teardown))) by lia.
              by rewrite (progress_S _ _ _ Hi).
           ++ split; [by destruct pa|]. right; right. split; [done|].
              exists false. cbn [pc_of pc_true pc_false negb shared Race.stage]. split; [|done].
              apply lookup_ge_None in Hi. by replace (length teardown) with i by lia.
Qed.

Lemma race_run_inv sh0 sched : ∀ st,
  inv isClosed setClosed teardown sh0 st →
  inv isClosed setClosed teardown sh0 (run isClosed setClosed teardown sched st).
Proof.
  induction sched as [|t sched IH]; intros st Hinv; [done|].
  unfold Race.run. cbn [foldl]. apply IH.
  destruct (step isClosed setClosed teardown t st) as [st'|] eqn:Hstep; [|done].
  by eapply race_step_inv.
Qed.

Lemma inv_both_returned sh0 st :
  inv isClosed setClosed teardown sh0 st →
  pc_true st = Returned → pc_false st = Returned →
  shared st = sequential isClosed setClosed teardown sh0.
Proof.
  intros [_ Hphase] Ha Hb. unfold sequential.
  destruct Hphase as [(Hc0 & -> & _) | [(Hc0 & _ & Hpa & _) | (Hc0 & w & Hst & _)]].
  - by rewrite Hc0.
  - by rewrite Ha in Hpa.
  - rewrite Hc0. destruct w; cbn in Hst; rewrite ?Ha, ?Hb in Hst;
      cbn in Hst; injection Hst as <-; unfold Race.progress;
      by rewrite firstn_all.
Qed.

Lemma inv_shared sh0 st :
  inv isClosed setClosed teardown sh0 st →
  shared st = sh0 ∨
  ∃ k, (k ≤ length teardown)%nat ∧ shared st = progress setClosed teardown sh0 k.
Proof.
  intros [_ Hphase].
  destruct Hphase as [(_ & -> & _) | [(_ & -> & _) | (_ & w & Hst & _)]]; auto.
  right. destruct (pc_of w st); cbn in Hst; try discriminate.
  - exists 0%nat. split; [lia|]. by injection Hst.
  - destruct (Nat.leb_spec i (length teardown)); [|discriminate].
    exists i. split; [done|]. by injection Hst.
  - exists (length teardown). split; [done|]. by injection Hst.
Qed.

Lemma inv_teardown_after_flag sh0 st t i :
  inv isClosed setClosed teardown sh0 st →
  pc_of t st = AtTeardown i →
  isClosed (shared st) = true.
Proof.
  intros [_ Hphase] Hpc.
  destruct Hphase as [(_ & _ & Hpa & Hpb) | [(_ & _ & Hpa & Hpb) | (_ & w & Hst & _)]].
  - destruct t; cbn in Hpc; by rewrite Hpc in *.
  - destruct t; cbn in Hpc; by rewrite Hpc in *.
  - by eapply stage_closed.
Qed.

End Program.

Lemma closeSession_sequential srv s :
  closeSession srv s = sequential web_isClosed web_setClosed web_teardown (srv, s).
Proof.
  unfold closeSession, sequential, web_isClosed. cbn [snd].
  by destruct (ws_closed s).
Qed.

Lemma closeCmdSession_sequential srv s :
  closeCmdSession srv s
  = sequential cmd_isClosed cmd_setClosed cmd_teardown (srv, s).
Proof.
  unfold closeCmdSession, sequential, cmd_isClosed. cbn [snd].
  by destruct (cs_closed s).
Qed.

Lemma web_teardown_closed call sh :
  call ∈ web_teardown → web_isClosed (call sh) = web_isClosed sh.
Proof.
  unfold web_teardown. rewrite !elem_of_cons, elem_of_nil.
  intros [->|[->|[->|[->|[]]]]]; done.
Qed.

Lemma cmd_teardown_closed call sh :
  call ∈ cmd_teardown → cmd_isClosed (call sh) = cmd_isClosed sh.
Proof.
  unfold cmd_teardown. rewrite !elem_of_cons, elem_of_nil.
  intros [->|[->|[->|[]]]]; done.
Qed.

Lemma web_run_inv srv s sched :
  inv web_isClosed web_setClosed web_teardown (srv, s)
    (web_run sched (start (srv, s))).
Proof.
  apply race_run_inv; [done|apply web_teardown_closed|apply race_start_inv].
Qed.

Lemma cmd_run_inv srv s sched :
  inv cmd_isClosed cmd_setClosed cmd_teardown (srv, s)
    (cmd_run sched (start (srv, s))).
Proof.
  apply race_run_inv; [done|apply cmd_teardown_closed|apply race_start_inv].
Qed.

Lemma web_overlapping_returns srv s :
  pc_true (web_run overlapping (start (srv, s))) = Returned ∧
  pc_false (web_run overlapping (start (srv, s))) = Returned.
Proof.
  destruct s as [id prog plat cols rows cancels done closed wc].
  by destruct closed; vm_compute.
Qed.

Lemma cmd_overlapping_returns srv s :
  pc_true (cmd_run overlapping (start (srv, s))) = Returned ∧
  pc_false (cmd_run overlapping (start (srv, s))) = Returned.
Proof.
  destruct s as [id plat cols rows cancels done closed wc].
  by destruct closed; vm_compute.
Qed.

End RaceFacts.

(** C8.  Session destruction is idempotent.  Sequentially, a second
    [closeSession] or [closeCmdSession] returns the server and the session
    exactly as the first call left them.  Concurrently, for two goroutines
    running the close code on the same session under every interleaving
    of its statements: the closed flag is already set whenever a goroutine
    is at a teardown call; the shared state is always the initial one or
    the result of a prefix of the teardown calls (program quit, context
    cancel, bridge close, registry delete) applied once each, in order;
    and once both have returned the state is exactly that of a single
    call.  The overlapping schedule shows both goroutines do return. *)
Theorem close_is_idempotent :
  (∀ srv (s : webSession),
     closeSession (closeSession srv s).1 (closeSession srv s).2
     = closeSession srv s) ∧
  (∀ srv (s : cmdSession),
     closeCmdSession (closeCmdSession srv s).1 (closeCmdSession srv s).2
     = closeCmdSession srv s) ∧
  (∀ srv (s : webSession) sched,
     let st := Race.web_run sched (Race.start (srv, s)) in
     (∀ t i, Race.pc_of t st = Race.AtTeardown i →
             ws_closed (Race.shared st).2 = true) ∧
     (Race.shared st = (srv, s) ∨
      ∃ k, (k ≤ length Race.web_teardown)%nat ∧
           Race.shared st
           = Race.progress Race.web_setClosed Race.web_teardown (srv, s) k) ∧
     (Race.pc_true st = Race.Returned → Race.pc_false st = Race.Returned →
      Race.shared st = closeSession srv s)) ∧
  (∀ srv (s : cmdSession) sched,
     let st := Race.cmd_run sched (Race.start (srv, s)) in
     (∀ t i, Race.pc_of t st = Race.AtTeardown i →
             cs_closed (Race.shared st).2 = true) ∧
     (Race.shared st = (srv, s) ∨
      ∃ k, (k ≤ length Race.cmd_teardown)%nat ∧
           Race.shared st
           = Race.progress Race.cmd_setClosed Race.cmd_teardown (srv, s) k) ∧
     (Race.pc_true st = Race.Returned → Race.pc_false st = Race.Returned →
      Race.shared st = closeCmdSession srv s)) ∧
  (∀ srv (s : webSession),
     Race.pc_true (Race.web_run Race.overlapping (Race.start (srv, s)))
     = Race.Returned ∧
     Race.pc_false (Race.web_run Race.overlapping (Race.start (srv, s)))
     = Race.Returned) ∧
  (∀ srv (s : cmdSession),
     Race.pc_true (Race.cmd_run Race.overlapping (Race.start (srv, s)))
     = Race.Returned ∧
     Race.pc_false (Race.cmd_run Race.overlapping (Race.start (srv, s)))
     = Race.Returned).
Proof.
  split; [|split; [|split; [|split; [|split]]]].
  - intros srv s. unfold closeSession.
    destruct (ws_closed s) eqn:E; simpl; by rewrite ?E.
  - intros srv s. unfold closeCmdSession.
    destruct (cs_closed s) eqn:E; simpl; by rewrite ?E.
  - intros srv s sched st.
    pose proof (RaceFacts.web_run_inv srv s sched) as Hinv. fold st in Hinv.
    split; [|split].
    + intros t i Hpc.
      change (Race.web_isClosed (Race.shared st) = true).
      eapply (RaceFacts.inv_teardown_after_flag Race.web_isClosed
                Race.web_setClosed Race.web_teardown);
        eauto using RaceFacts.web_teardown_closed.
    + by eapply RaceFacts.inv_shared.
    + intros Ha Hb. rewrite RaceFacts.closeSession_sequential.
      by eapply RaceFacts.inv_both_returned.
  - intros srv s sched st.
    pose proof (RaceFacts.cmd_run_inv srv s sched) as Hinv. fold st in Hinv.
    split; [|split].
    + intros t i Hpc.
      change (Race.cmd_isClosed (Race.shared st) = true).
      eapply (RaceFacts.inv_teardown_after_flag Race.cmd_isClosed
                Race.cmd_setClosed Race.cmd_teardown);
        eauto using RaceFacts.cmd_teardown_closed.
    + by eapply RaceFacts.inv_shared.
    + intros Ha Hb. rewrite RaceFacts.closeCmdSession_sequential.
      by eapply RaceFacts.inv_both_returned.
  - apply RaceFacts.web_overlapping_returns.
  - apply RaceFacts.cmd_overlapping_returns.
Qed.

(** ** One command-mode connection under every interleaving *)

Module ConnFacts.
Import Conn.

Lemma writes_app tr evs : writes (tr ++ evs) = writes tr ++ writes evs.
Proof. unfold writes. apply omap_app. Qed.

Lemma writes_no_write evs : no_write evs = true → writes evs = [].
Proof.
  induction evs as [|e evs IH]; [done|]. cbn.
  destruct e; cbn; try discriminate; exact IH.
Qed.

Lemma deletes_app id tr evs :
  deletes id (tr ++ evs) = (deletes id tr + deletes id evs)%nat.
Proof. unfold deletes. by rewrite List.filter_app, length_app. Qed.

Lemma no_teardown_app tr evs :
  no_teardown (tr ++ evs) = no_teardown tr && no_teardown evs.
Proof. unfold no_teardown. apply forallb_app. Qed.

Lemma no_teardown_deletes id tr : no_teardown tr = true → deletes id tr = 0%nat.
Proof.
  induction tr as [|e tr IH]; [done|]. cbn.
  destruct e; cbn; try discriminate; exact IH.
Qed.

Lemma writes_first_after_quiet tr evs :
  no_teardown tr = true → writes_first (tr ++ evs) = writes_first evs.
Proof.
  induction tr as [|e tr IH]; [done|]. cbn.
  destruct (is_teardown e); cbn; [discriminate|exact IH].
Qed.

Lemma writes_first_no_write evs : no_write evs = true → writes_first evs = true.
Proof.
  induction evs as [|e evs IH]; [done|]. cbn.
  intros [_ Hr]%andb_prop. destruct (is_teardown e); [exact Hr|by apply IH].
Qed.

Lemma writes_first_app tr evs :
  writes_first tr = true → no_write evs = true →
  writes_first (tr ++ evs) = true.
Proof.
  induction tr as [|e tr IH]; cbn.
  - intros _. apply writes_first_no_write.
  - destruct (is_teardown e).
    + intros Htr Hevs. fold (no_write tr) in Htr. fold (no_write (tr ++ evs)).
      unfold no_write in *. rewrite forallb_app. by rewrite Htr, Hevs.
    + exact IH.
Qed.

Lemma no_teardown_writes_first tr : no_teardown tr = true → writes_first tr = true.
Proof.
  intros H. rewrite <- (app_nil_r tr). by rewrite writes_first_after_quiet.
Qed.

Lemma cmdSession_InputWrite_ok s data :
  cmdSession_wf s →
  ∃ s', cmdSession_InputWrite s data = Ok s' ∧ cmdSession_wf s' ∧
        cs_id s' = cs_id s ∧ cs_ctx_done s' = cs_ctx_done s ∧
        cs_closed s' = cs_closed s.
Proof.
  intros ([p Hp] & Hcap & Hlen). unfold cmdSession_InputWrite. rewrite Hp.
  eexists. split; [reflexivity|]. unfold cmdSession_wf. simpl. eauto 10.
Qed.

Lemma processInput_cmd_ok json srv data (s : cmdSession) :
  cmdSession_wf s →
  ∃ s' l, processInput json srv data s = Ok (s', l) ∧ cmdSession_wf s' ∧
          cs_id s' = cs_id s ∧ cs_ctx_done s' = cs_ctx_done s ∧
          cs_closed s' = cs_closed s.
Proof.
  intros Hwf. unfold processInput. destruct data as [|t payload].
  { by eexists _, _. }
  repeat case_decide; try by eexists _, _.
  - destruct (ReadOnly (config srv)); cbn [negb]; [by eexists _, _|].
    change (InputWrite s payload) with (cmdSession_InputWrite s payload).
    destruct (cmdSession_InputWrite_ok s payload Hwf) as (s' & -> & ?).
    by eexists _, _.
  - destruct (json payload) as [m|]; [|by eexists _, _].
    eexists _, _. split; [reflexivity|].
    split; [by apply cmdSession_Resize_wf|done].
Qed.

Lemma readMessage_cmd_ok json srv stream (s : cmdSession) :
  cmdSession_wf s →
  (∃ e rest l, readMessage json srv stream s = Ok (ReadExit e rest l)) ∨
  (∃ s' rest l, readMessage json srv stream s = Ok (ReadNext s' rest l) ∧
                cmdSession_wf s' ∧ cs_id s' = cs_id s ∧
                cs_ctx_done s' = cs_ctx_done s ∧ cs_closed s' = cs_closed s).
Proof.
  intros Hwf. unfold readMessage.
  destruct (ReadFull 4 stream) as [[lenBuf|] st1]; [|left; by eexists _, _, _].
  destruct (_ >? frameCap); [left; by eexists _, _, _|].
  destruct (ReadFull _ st1) as [[msg|] st2]; [|left; by eexists _, _, _].
  destruct (processInput_cmd_ok json srv msg s Hwf) as (s' & l & -> & ?).
  right. by eexists _, _, _.
Qed.

Lemma before_teardown_frame id0 st st' evs :
  cs_closed (session st') = cs_closed (session st) →
  sessions (srv st') = sessions (srv st) →
  trace st' = trace st ++ evs → no_teardown evs = true →
  before_teardown id0 st → before_teardown id0 st'.
Proof.
  intros Hc Hs Ht He (H1 & H2 & H3). unfold before_teardown.
  rewrite Hc, Hs, Ht, no_teardown_app, H3, He. done.
Qed.

Lemma after_close_frame id0 st st' evs :
  cs_closed (session st') = cs_closed (session st) →
  sessions (srv st') = sessions (srv st) →
  trace st' = trace st ++ evs → deletes id0 evs = 0%nat → no_write evs = true →
  pumpsReturned st' = pumpsReturned st →
  after_close id0 st → after_close id0 st'.
Proof.
  intros Hc Hs Ht He Hw Hp (H1 & H2 & H3 & H4 & H5). unfold after_close.
  rewrite Hc, Hs, Ht, Hp, deletes_app, H3, He.
  rewrite writes_first_app by done. done.
Qed.

Lemma handler_inv_quiet id0 st st' evs :
  handler_pc st' = handler_pc st →
  cs_closed (session st') = cs_closed (session st) →
  sessions (srv st') = sessions (srv st) →
  trace st' = trace st ++ evs → no_teardown evs = true → no_write evs = true →
  pumpsReturned st' = pumpsReturned st →
  handler_inv id0 st → handler_inv id0 st'.
Proof.
  intros Hh Hc Hs Ht He Hw Hp. unfold handler_inv. rewrite Hh, Hp.
  pose proof (no_teardown_deletes id0 _ He) as Hd.
  destruct (handler_pc st);
    eauto using before_teardown_frame, after_close_frame.
  intros [? ?]. eauto using before_teardown_frame.
Qed.

Lemma handler_inv_pump id0 st st' evs :
  handler_pc st' = handler_pc st →
  pumpsReturned st = false →
  cs_closed (session st') = cs_closed (session st) →
  sessions (srv st') = sessions (srv st) →
  trace st' = trace st ++ evs → no_teardown evs = true →
  handler_inv id0 st → handler_inv id0 st'.
Proof.
  intros Hh Hp Hc Hs Ht He. unfold handler_inv. rewrite Hh.
  destruct (handler_pc st); unfold after_close; rewrite ?Hp;
    try (intros (_ & _ & _ & _ & ?); discriminate);
    try (intros [_ ?]; discriminate).
  eauto using before_teardown_frame.
Qed.

Lemma out_inv_quiet st st' evs :
  out_pc st' = out_pc st →
  (conn_cancelled st = true → conn_cancelled st' = true) →
  trace st' = trace st ++ evs → no_write evs = true →
  out_inv st → out_inv st'.
Proof.
  intros Ho Hc Ht Hw. unfold out_inv. rewrite Ho, Ht, writes_app.
  rewrite (writes_no_write _ Hw), app_nil_r.
  destruct (out_pc st); [done|done|]. intros [? ?]. auto.
Qed.

Lemma no_teardown_writes ws evs :
  no_teardown evs = true → no_teardown ((EvWrite <$> ws) ++ evs) = true.
Proof.
  intros He. rewrite no_teardown_app, He, andb_true_r.
  unfold no_teardown. by induction ws.
Qed.

Lemma pumpsReturned_out_false st :
  (∀ e, out_pc st ≠ OutReturned e) → pumpsReturned st = false.
Proof. unfold pumpsReturned. destruct (out_pc st); [done|done|]. intros H. by destruct (H e). Qed.

Lemma pumpsReturned_in_false st :
  (∀ e, in_pc st ≠ InReturned e) → pumpsReturned st = false.
Proof.
  unfold pumpsReturned. destruct (out_pc st); [done|done|].
  destruct (in_pc st); [done|done|]. intros H. by destruct (H e0).
Qed.

Lemma parentCancelled_wf s : cmdSession_wf s → cmdSession_wf (parentCancelled s).
Proof. by unfold cmdSession_wf. Qed.

Lemma cancelSession_wf s : cmdSession_wf s → cmdSession_wf (cancelSession s).
Proof. by unfold cmdSession_wf. Qed.

Ltac conn_close st id0 Hw :=
  first [ done
        | by (let H := fresh in intros H; destruct (Hw H))
        | by (rewrite writes_app; cbn; rewrite last_snoc)
        | by eapply (out_inv_quiet st)
        | by eapply (handler_inv_quiet id0 st)
        | by eapply (handler_inv_pump id0 st)
        | congruence ].

Lemma conn_step_inv json id0 a st st' :
  inv id0 st → step json a st = Some st' → inv id0 st'.
Proof.
  intros (Hp & Hwf & Hid & Hcc & Hw & Hout & Hh) Hstep.
  unfold step in Hstep. rewrite Hp in Hstep.
  destruct a.
  - (* the command exits *)
    destruct (proc_exited st) eqn:Hpe; [done|]. injection Hstep as <-.
    unfold inv. cbn. split_and!; try done.
    all: conn_close st id0 Hw.
  - (* the request context is cancelled *)
    destruct (conn_cancelled st) eqn:Hc; [done|]. injection Hstep as <-.
    unfold inv. cbn. split_and!; try done.
    all: conn_close st id0 Hw.
  - (* the client closes the WebTransport session *)
    destruct (wt_done st) eqn:Hwt; [done|]. injection Hstep as <-.
    unfold inv. cbn. split_and!; conn_close st id0 Hw.
  - (* the watcher *)
    destruct (proc_exited st) eqn:Hpe; [|done].
    destruct (watcher_done st) eqn:Hwd; [done|]. injection Hstep as <-.
    unfold inv. cbn. split_and!; try done.
    all: conn_close st id0 Hw.
  - (* the output pump at its select *)
    destruct (out_pc st) eqn:Ho; try done.
    assert (Hpr : pumpsReturned st = false)
      by (apply pumpsReturned_out_false; intros e; by rewrite Ho).
    unfold outputSelect in Hstep.
    destruct (select_done _ _ _); injection Hstep as <-;
      unfold inv, out_inv; cbn; split_and!; try done.
    all: conn_close st id0 Hw.
  - (* the output pump after its read *)
    destruct (out_pc st) eqn:Ho; try done.
    assert (Hpr : pumpsReturned st = false)
      by (apply pumpsReturned_out_false; intros e; by rewrite Ho).
    unfold outputRead in Hstep.
    destruct r as [|[|b chunk]]; [| |destruct write_ok];
      injection Hstep as <-; unfold inv, out_inv; cbn; split_and!; try done.
    all: conn_close st id0 Hw.
  - (* the input pump at its select *)
    destruct (in_pc st) eqn:Hi; try done.
    assert (Hpr : pumpsReturned st = false)
      by (apply pumpsReturned_in_false; intros e; by rewrite Hi).
    destruct (select_done _ _ _); injection Hstep as <-;
      unfold inv; cbn; split_and!; try done.
    all: conn_close st id0 Hw.
  - (* the input pump reads and dispatches *)
    destruct (in_pc st) eqn:Hi; try done.
    assert (Hpr : pumpsReturned st = false)
      by (apply pumpsReturned_in_false; intros e; by rewrite Hi).
    destruct (readMessage_cmd_ok json (srv st) (in_stream st) (session st) Hwf)
      as [(e & rest & l & Hr) | (s' & rest & l & Hr & Hwf' & Hid' & Hd' & Hc')];
      rewrite Hr in Hstep; injection Hstep as <-;
      unfold inv; cbn; split_and!; rewrite ?Hd'; try done.
    all: conn_close st id0 Hw.
  - (* the handler *)
    unfold handler_inv in Hh.
    destruct (handler_pc st) eqn:Hpc.
    + destruct (pumpsReturned st) eqn:Hpr; [|done].
      destruct (wt_done st); [|done]. injection Hstep as <-.
      unfold inv. split_and!; try (cbn; done).
      * by eapply (out_inv_quiet st).
      * unfold handler_inv. cbn [handler_pc handlerMoves].
        split; [|exact Hpr]. by eapply (before_teardown_frame id0 st).
    + destruct Hh as [(Hcl & Hreg & Hnt) Hpr].
      unfold closeCmdSession, closeCmdSession_events in Hstep.
      rewrite Hcl in Hstep. injection Hstep as <-.
      unfold inv. split_and!; try (cbn; done).
      * destruct Hwf as ([p Hpl] & ? & ?). unfold cmdSession_wf. cbn.
        rewrite Hpl. eauto.
      * cbn. intros H. destruct (Hw H) as [-> _]. done.
      * by eapply (out_inv_quiet st).
      * unfold handler_inv, after_close. cbn [handler_pc handlerMoves].
        split_and!.
        -- done.
        -- cbn. rewrite Hid. apply lookup_delete_eq.
        -- cbn [trace handlerMoves].
           rewrite deletes_app, (no_teardown_deletes _ _ Hnt). cbn.
           rewrite Hid. by rewrite bool_decide_eq_true_2.
        -- cbn [trace handlerMoves]. by rewrite writes_first_after_quiet.
        -- exact Hpr.
    + injection Hstep as <-. unfold inv. split_and!; try (cbn; done).
      * by eapply (out_inv_quiet st).
      * unfold handler_inv. cbn [handler_pc handlerMoves].
        by eapply (after_close_frame id0 st).
    + injection Hstep as <-. unfold inv. split_and!; try (cbn; done).
      * cbn. intros H. by destruct (Hw H).
      * by eapply (out_inv_quiet st).
      * unfold handler_inv. cbn [handler_pc handlerMoves].
        by eapply (after_close_frame id0 st).
    + injection Hstep as <-. unfold inv. split_and!; try (cbn; done).
      * by eapply (out_inv_quiet st).
      * unfold handler_inv. cbn [handler_pc handlerMoves].
        by eapply (after_close_frame id0 st).
    + injection Hstep as <-. unfold inv. split_and!; try (cbn; done).
      * by eapply (out_inv_quiet st).
      * unfold handler_inv. cbn [handler_pc handlerMoves].
        eapply (after_close_frame id0 st); try done.
        cbn. by destruct (releaseConnection_frame (srv st)) as (_ & _ & _ & ->).
    + done.
Qed.

Lemma conn_run_inv json id0 acts : ∀ st,
  inv id0 st → inv id0 (run json acts st).
Proof.
  induction acts as [|a acts IH]; intros st Hinv; [done|].
  unfold run. cbn [foldl]. apply IH.
  destruct (step json a st) as [st'|] eqn:Hstep; [|done].
  by eapply conn_step_inv.
Qed.

Lemma createCmdSession_registered os srv0 ctx_done c r srv s :
  createCmdSession os srv0 ctx_done c r = (srv, inr s) →
  cmdSession_wf s ∧ cs_closed s = false ∧ cs_ctx_done s = ctx_done ∧
  sessions srv !! cs_id s = Some CmdKind.
Proof.
  unfold createCmdSession.
  destruct (cmdHandler srv0); [|discriminate].
  destruct (newCmdPlatformPty _ _ _ _) as [p|]; [|discriminate].
  intros [= <- <-]. unfold cmdSession_wf. cbn.
  split_and!; eauto. apply lookup_insert_eq.
Qed.

Lemma conn_start_inv os srv0 c r srv s stream :
  createCmdSession os srv0 false c r = (srv, inr s) →
  inv (cs_id s) (start srv s stream).
Proof.
  intros (Hwf & Hcl & Hd & Hreg)%createCmdSession_registered.
  unfold inv, out_inv, handler_inv, before_teardown. cbn. by split_and!.
Qed.

Lemma inv_deletes id0 st :
  inv id0 st →
  (deletes id0 (trace st) ≤ 1)%nat ∧ writes_first (trace st) = true.
Proof.
  intros (_ & _ & _ & _ & _ & _ & Hh). unfold handler_inv in Hh.
  destruct (handler_pc st);
    try (destruct Hh as (_ & _ & -> & -> & _); split; [lia|done]).
  - destruct Hh as (_ & _ & Hnt).
    rewrite (no_teardown_deletes _ _ Hnt), (no_teardown_writes_first _ Hnt).
    split; [lia|done].
  - destruct Hh as [(_ & _ & Hnt) _].
    rewrite (no_teardown_deletes _ _ Hnt), (no_teardown_writes_first _ Hnt).
    split; [lia|done].
Qed.

Lemma conn_step_others json id0 srv0 a st st' :
  inv id0 st → sameForOthers id0 srv0 (srv st) →
  step json a st = Some st' → sameForOthers id0 srv0 (srv st').
Proof.
  intros (Hp & Hwf & Hid & _) Hsame Hstep.
  unfold step in Hstep. rewrite Hp in Hstep.
  destruct a.
  - destruct (proc_exited st); [done|]. by injection Hstep as <-.
  - destruct (conn_cancelled st); [done|]. by injection Hstep as <-.
  - destruct (wt_done st); [done|]. by injection Hstep as <-.
  - destruct (proc_exited st && negb (watcher_done st)); [|done].
    by injection Hstep as <-.
  - destruct (out_pc st); try done.
    destruct (outputSelect _ _ _) as [ws [e|]]; by injection Hstep as <-.
  - destruct (out_pc st); try done.
    destruct (outputRead _ _) as [ws [e|]]; by injection Hstep as <-.
  - destruct (in_pc st); try done.
    destruct (select_done _ _ _); by injection Hstep as <-.
  - destruct (in_pc st); try done.
    destruct (readMessage _ _ _ _) as [[e rest l|s' rest l]|];
      by injection Hstep as <-.
  - destruct (handler_pc st); try done.
    + destruct (pumpsReturned st && wt_done st); [|done].
      by injection Hstep as <-.
    + unfold closeCmdSession in Hstep.
      destruct (cs_closed (session st)); injection Hstep as <-; [done|].
      cbn. eapply sameForOthers_trans; [exact Hsame|].
      unfold sameForOthers. cbn. split_and!; try done.
      intros id' Hne. rewrite Hid. by rewrite lookup_delete_ne.
    + by injection Hstep as <-.
    + by injection Hstep as <-.
    + by injection Hstep as <-.
    + injection Hstep as <-. cbn.
      eapply sameForOthers_trans; [exact Hsame|].
      destruct (releaseConnection_frame (srv st)) as (? & ? & _ & ?).
      by apply sameForOthers_eq.
Qed.

Lemma conn_run_others json id0 srv0 acts : ∀ st,
  inv id0 st → sameForOthers id0 srv0 (srv st) →
  sameForOthers id0 srv0 (srv (run json acts st)).
Proof.
  induction acts as [|a acts IH]; intros st Hinv Hsame; [done|].
  unfold run. cbn [foldl].
  destruct (step json a st) as [st'|] eqn:Hstep; cbn [default].
  - apply IH; [by eapply conn_step_inv|by eapply conn_step_others].
  - by apply IH.
Qed.

Lemma createCmdSession_others os srv0 ctx_done c r srv s :
  createCmdSession os srv0 ctx_done c r = (srv, inr s) →
  sameForOthers (cs_id s) srv0 srv.
Proof.
  unfold createCmdSession.
  destruct (cmdHandler srv0); [|discriminate].
  destruct (newCmdPlatformPty _ _ _ _) as [p|]; [|discriminate].
  intros [= <- <-]. unfold sameForOthers. cbn. split_and!; try done.
  intros id' Hne. by rewrite lookup_insert_ne.
Qed.

Lemma conn_read_too_large json st lenBuf tail :
  panicked st = false → in_pc st = InReading →
  in_stream st = lenBuf ++ tail → length lenBuf = 4%nat →
  frameCap < BigEndian_Uint32 lenBuf →
  step json InRead st
  = Some (pumpReturns st [] (out_pc st) (InReturned ExitTooLarge) tail).
Proof.
  intros Hp Hi Hs Hlen Hbig. unfold step. rewrite Hp, Hi, Hs.
  unfold readMessage, ReadFull. rewrite length_app, Hlen.
  replace (4 <=? 4 + length tail)%nat with true
    by (symmetry; apply Nat.leb_le; lia).
  rewrite take_app_length' by done. rewrite drop_app_length' by done.
  by destruct (Z.gtb_spec (BigEndian_Uint32 lenBuf) frameCap); [|lia].
Qed.

End ConnFacts.

(** ** The end of a connection *)

(** The handler leaves its wait only once the client has closed the
    WebTransport session. *)
Lemma conn_step_waits json a st st' :
  Conn.step json a st = Some st' →
  (Conn.handler_pc st ≠ Conn.HWait → Conn.wt_done st = true) →
  (Conn.handler_pc st' ≠ Conn.HWait → Conn.wt_done st' = true).
Proof.
  intros Hstep Hinv. unfold Conn.step in Hstep.
  destruct (Conn.panicked st); [done|].
  destruct a.
  - destruct (Conn.proc_exited st); [done|]. by injection Hstep as <-.
  - destruct (Conn.conn_cancelled st); [done|]. by injection Hstep as <-.
  - destruct (Conn.wt_done st); [done|]. by injection Hstep as <-.
  - destruct (Conn.proc_exited st && negb (Conn.watcher_done st)); [|done].
    by injection Hstep as <-.
  - destruct (Conn.out_pc st); try done.
    destruct (outputSelect _ _ _) as [ws [e|]]; by injection Hstep as <-.
  - destruct (Conn.out_pc st); try done.
    destruct (outputRead _ _) as [ws [e|]]; by injection Hstep as <-.
  - destruct (Conn.in_pc st); try done.
    destruct (select_done _ _ _); by injection Hstep as <-.
  - destruct (Conn.in_pc st); try done.
    destruct (readMessage _ _ _ _) as [[e rest l|s' rest l]|];
      by injection Hstep as <-.
  - destruct (Conn.handler_pc st) eqn:Hpc; try done.
    + destruct (Conn.pumpsReturned st && Conn.wt_done st) eqn:Hw; [|done].
      injection Hstep as <-. cbn. intros _. by apply andb_prop in Hw as [_ ?].
    + destruct (closeCmdSession _ _). injection Hstep as <-. cbn. intros _.
      by apply Hinv.
    + injection Hstep as <-. cbn. intros _. by apply Hinv.
    + injection Hstep as <-. cbn. intros _. by apply Hinv.
    + injection Hstep as <-. cbn. intros _. by apply Hinv.
    + injection Hstep as <-. cbn. intros _. by apply Hinv.
Qed.

Lemma conn_run_waits json acts : ∀ st,
  (Conn.handler_pc st ≠ Conn.HWait → Conn.wt_done st = true) →
  (Conn.handler_pc (Conn.run json acts st) ≠ Conn.HWait →
   Conn.wt_done (Conn.run json acts st) = true).
Proof.
  induction acts as [|a acts IH]; intros st H0; [done|].
  unfold Conn.run. cbn [foldl].
  destruct (Conn.step json a st) as [st'|] eqn:Hstep; cbn [default].
  - apply IH. by eapply conn_step_waits.
  - by apply IH.
Qed.

(** An input pump that has returned has cancelled the connection
    context. *)
Lemma conn_step_in_cancel json a st st' :
  Conn.step json a st = Some st' →
  (∀ e, Conn.in_pc st = Conn.InReturned e → Conn.conn_cancelled st = true) →
  (∀ e, Conn.in_pc st' = Conn.InReturned e → Conn.conn_cancelled st' = true).
Proof.
  intros Hstep Hinv. unfold Conn.step in Hstep.
  destruct (Conn.panicked st); [done|].
  destruct a.
  - destruct (Conn.proc_exited st); [done|]. by injection Hstep as <-.
  - destruct (Conn.conn_cancelled st); [done|]. by injection Hstep as <-.
  - destruct (Conn.wt_done st); [done|]. by injection Hstep as <-.
  - destruct (Conn.proc_exited st && negb (Conn.watcher_done st)); [|done].
    by injection Hstep as <-.
  - destruct (Conn.out_pc st); try done.
    destruct (outputSelect _ _ _) as [ws [e|]]; by injection Hstep as <-.
  - destruct (Conn.out_pc st); try done.
    destruct (outputRead _ _) as [ws [e|]]; by injection Hstep as <-.
  - destruct (Conn.in_pc st); try done.
    destruct (select_done _ _ _); by injection Hstep as <-.
  - destruct (Conn.in_pc st); try done.
    destruct (readMessage _ _ _ _) as [[e rest l|s' rest l]|];
      by injection Hstep as <-.
  - destruct (Conn.handler_pc st) eqn:Hpc; try done.
    + destruct (Conn.pumpsReturned st && Conn.wt_done st) eqn:Hw; [|done].
      by injection Hstep as <-.
    + destruct (closeCmdSession _ _). by injection Hstep as <-.
    + by injection Hstep as <-.
    + by injection Hstep as <-.
    + by injection Hstep as <-.
    + by injection Hstep as <-.
Qed.

Lemma conn_run_in_cancel json acts : ∀ st,
  (∀ e, Conn.in_pc st = Conn.InReturned e → Conn.conn_cancelled st = true) →
  (∀ e, Conn.in_pc (Conn.run json acts st) = Conn.InReturned e →
        Conn.conn_cancelled (Conn.run json acts st) = true).
Proof.
  induction acts as [|a acts IH]; intros st H0; [done|].
  unfold Conn.run. cbn [foldl].
  destruct (Conn.step json a st) as [st'|] eqn:Hstep; cbn [default].
  - apply IH. by eapply conn_step_in_cancel.
  - by apply IH.
Qed.

Lemma conn_run_app json acts more st :
  Conn.run json (acts ++ more) st = Conn.run json more (Conn.run json acts st).
Proof. unfold Conn.run. by rewrite foldl_app. Qed.

(** Once both pumps have returned and the client has closed the
    WebTransport session, nothing stops the handler: its six statements
    (the end of the wait and the five deferred calls) take it to its
    return. *)
Lemma conn_handler_finishes json st :
  Conn.panicked st = false → Conn.pumpsReturned st = true →
  Conn.wt_done st = true →
  Conn.handler_pc (Conn.run json (replicate 6 Conn.HandlerRuns) st)
  = Conn.HReturned.
Proof.
  destruct st as [srv1 sess cc wd pe wdn o i h ins tr p]. cbn.
  intros -> Hpumps ->. unfold Conn.pumpsReturned in Hpumps. cbn in Hpumps.
  destruct o as [| |eo]; try done. destruct i as [| |ei]; try done.
  unfold Conn.run.
  destruct h; cbn; unfold closeCmdSession; destruct (cs_closed sess); reflexivity.
Qed.

(** The connection once the client has closed and both pumps have
    returned, six handler statements later. *)
Lemma conn_finished json os srv0 cols rows srv s stream acts :
  createCmdSession os srv0 false cols rows = (srv, inr s) →
  Conn.pumpsReturned (Conn.run json acts (Conn.start srv s stream)) = true →
  Conn.wt_done (Conn.run json acts (Conn.start srv s stream)) = true →
  ∀ st', st' = Conn.run json (acts ++ replicate 6 Conn.HandlerRuns)
                 (Conn.start srv s stream) →
  Conn.handler_pc st' = Conn.HReturned ∧
  Conn.panicked st' = false ∧
  cs_closed (Conn.session st') = true ∧
  sessions (Conn.srv st') !! cs_id s = None ∧
  sameForOthers (cs_id s) srv0 (Conn.srv st').
Proof.
  intros Hcreate Hpumps Hwt st' Hst'.
  pose proof (ConnFacts.conn_start_inv _ _ _ _ _ _ stream Hcreate) as Hinv0.
  pose proof (ConnFacts.conn_run_inv json _ acts _ Hinv0) as (Hp & _).
  pose proof (ConnFacts.createCmdSession_others _ _ _ _ _ _ _ Hcreate) as Hoth0.
  pose proof (conn_handler_finishes json _ Hp Hpumps Hwt) as Hret.
  rewrite <- conn_run_app, <- Hst' in Hret.
  pose proof (ConnFacts.conn_run_inv json _
                (acts ++ replicate 6 Conn.HandlerRuns) _ Hinv0) as Hinv'.
  pose proof (ConnFacts.conn_run_others json _ srv0
                (acts ++ replicate 6 Conn.HandlerRuns) _ Hinv0 Hoth0) as Hothers'.
  rewrite <- Hst' in Hinv', Hothers'.
  destruct Hinv' as (Hp' & _ & Hid' & _ & _ & _ & Hh').
  unfold Conn.handler_inv in Hh'. rewrite Hret in Hh'.
  destruct Hh' as (Hcl & Hreg & _). by split_and!.
Qed.

(** C6 (as the code behaves).  On the WebTransport stream a length
    prefix above the cap of 1 MiB (1048576), read by the input pump,
    makes the pump log "message too large" and return at once: the frames
    before it have been dispatched in order, the frame's body and
    everything after it are never read or dispatched, and the session is
    as the last dispatched frame left it (both session kinds).  Goroutine
    by goroutine, in every interleaving of a command-mode connection:
    nothing panics and the configuration and the registry entries of all
    other sessions stay as they were; the pump that reads the oversized
    prefix returns without writing to the client, and its return cancels
    the connection's context, so that the output pump returns at its next
    [select].  The connection is not taken down by that: the handler
    leaves its wait only when both pumps have returned and the client has
    closed the WebTransport session, and until then the session stays
    open and registered; from then on its six remaining statements close
    the session and remove it from the registry, leaving the other
    sessions untouched.  (The first frame of a stream is read by the size
    negotiation, not by the input pump.) *)
Theorem oversized_frame_ends_only_its_connection
    (json : list byte → option ResizeMessage) :
  frameCap = 1048576 ∧
  (∀ Sess (I : internalSession Sess) fuel srv pick lenBuf tail (s : Sess) logs n,
     length lenBuf = 4%nat →
     frameCap < BigEndian_Uint32 lenBuf →
     Done s = false →
     handleWebTransportInput json (S fuel) srv pick false
       (lenBuf ++ tail) s logs n
     = Ok {| pr_exit := ExitTooLarge; pr_session := s; pr_rest := tail;
             pr_logs := logs ++ [{| log_level := LWarn;
                                    log_msg := "message too large" |}];
             pr_msgCount := n |}) ∧
  (∀ fuel srv pick msgs lenBuf tail (a a' : anySession) logs',
     anySession_wf a → Done a = false →
     Forall (λ m : list byte, Z.of_nat (length m) ≤ frameCap) msgs →
     processInputs json srv msgs a = Ok (a', logs') →
     length lenBuf = 4%nat →
     frameCap < BigEndian_Uint32 lenBuf →
     handleWebTransportInput json (length msgs + S fuel) srv pick false
       (concat (writeFramed <$> msgs) ++ lenBuf ++ tail) a [] 0
     = Ok {| pr_exit := ExitTooLarge; pr_session := a'; pr_rest := tail;
             pr_logs := logs' ++ [{| log_level := LWarn;
                                     log_msg := "message too large" |}];
             pr_msgCount := length msgs |}) ∧
  (∀ os srv0 cols rows srv s stream acts,
     createCmdSession os srv0 false cols rows = (srv, inr s) →
     let st := Conn.run json acts (Conn.start srv s stream) in
     Conn.panicked st = false ∧
     sameForOthers (cs_id s) srv0 (Conn.srv st) ∧
     (∀ lenBuf tail,
        Conn.in_pc st = Conn.InReading →
        Conn.in_stream st = lenBuf ++ tail →
        length lenBuf = 4%nat →
        frameCap < BigEndian_Uint32 lenBuf →
        ∃ st', Conn.step json Conn.InRead st = Some st' ∧
               Conn.in_pc st' = Conn.InReturned ExitTooLarge ∧
               Conn.conn_cancelled st' = true ∧
               Conn.in_stream st' = tail ∧
               Conn.srv st' = Conn.srv st ∧
               cs_platform (Conn.session st') = cs_platform (Conn.session st) ∧
               Conn.writes (Conn.trace st') = Conn.writes (Conn.trace st)) ∧
     (∀ e, Conn.in_pc st = Conn.InReturned e →
        Conn.conn_cancelled st = true ∧
        ∀ pick, Conn.out_pc st = Conn.OutHead →
          ∃ st' e', Conn.step json (Conn.OutSelect pick) st = Some st' ∧
                    Conn.out_pc st' = Conn.OutReturned e') ∧
     (Conn.handler_pc st ≠ Conn.HWait →
        Conn.pumpsReturned st = true ∧ Conn.wt_done st = true) ∧
     (Conn.handler_pc st = Conn.HWait →
        sessions (Conn.srv st) !! cs_id s = Some CmdKind ∧
        cs_closed (Conn.session st) = false) ∧
     (Conn.pumpsReturned st = true → Conn.wt_done st = true →
        let st' := Conn.run json (acts ++ replicate 6 Conn.HandlerRuns)
                     (Conn.start srv s stream) in
        Conn.handler_pc st' = Conn.HReturned ∧
        Conn.panicked st' = false ∧
        cs_closed (Conn.session st') = true ∧
        sessions (Conn.srv st') !! cs_id s = None ∧
        sameForOthers (cs_id s) srv0 (Conn.srv st'))).
Proof.
  split; [reflexivity|]. split; [|split].
  - intros. by apply handleWebTransportInput_too_large.
  - intros fuel srv pick msgs lenBuf tail a a' logs' Hwf Hd Hcap Hrun Hlen Hbig.
    rewrite (handleWebTransportInput_frames json srv pick msgs a [] 0%nat a' logs'
               (S fuel) (lenBuf ++ tail) Hwf Hd Hcap Hrun).
    apply handleWebTransportInput_too_large; [done|done|].
    clear Hcap Hlen Hbig. revert a a' logs' Hwf Hd Hrun.
    induction msgs as [|m msgs IH]; intros a a' logs' Hwf Hd Hrun.
    + by injection Hrun as <- _.
    + cbn [processInputs] in Hrun.
      destruct (processInput_any_ok json srv m a Hwf)
        as (a1 & l1 & Hp & Hwf1 & _ & Hd1).
      rewrite Hp in Hrun. cbn [mbind result_bind] in Hrun.
      destruct (processInputs json srv msgs a1) as [[a2 l2]|] eqn:Hrest;
        cbn in Hrun; [|discriminate].
      injection Hrun as <- _. eapply (IH a1); [done| |done]. congruence.
  - intros os srv0 cols rows srv s stream acts Hcreate st.
    pose proof (ConnFacts.conn_start_inv _ _ _ _ _ _ stream Hcreate) as Hinv0.
    pose proof (ConnFacts.conn_run_inv json _ acts _ Hinv0) as Hinv.
    pose proof (ConnFacts.createCmdSession_others _ _ _ _ _ _ _ Hcreate) as Hoth0.
    pose proof (ConnFacts.conn_run_others json _ srv0 acts _ Hinv0 Hoth0)
      as Hothers.
    fold st in Hinv, Hothers.
    pose proof Hinv as (Hp & _ & Hid & _ & _ & _ & Hh).
    split; [done|]. split; [done|]. split_and!.
    + intros lenBuf tail Hi Hs Hlen Hbig.
      rewrite (ConnFacts.conn_read_too_large json st lenBuf tail Hp Hi Hs Hlen Hbig).
      eexists. split; [reflexivity|]. cbn. split_and!; try done.
      rewrite ConnFacts.writes_app. cbn. by rewrite app_nil_r.
    + intros e Hi.
      assert (Hc : Conn.conn_cancelled st = true).
      { apply (conn_run_in_cancel json acts (Conn.start srv s stream)) with e;
          [done|exact Hi]. }
      split; [exact Hc|]. intros pick Ho. unfold Conn.step.
      rewrite Hp, Ho. unfold outputSelect. rewrite Hc.
      destruct (Done (Conn.session st)), pick; cbn [select_done];
        by eexists _, _.
    + intros Hpc. split.
      * unfold Conn.handler_inv in Hh.
        revert Hpc Hh. destruct (Conn.handler_pc st); intros Hpc Hh;
          [done|by destruct Hh as [_ ?]|..];
          by destruct Hh as (_ & _ & _ & _ & ?).
      * by apply (conn_run_waits json acts (Conn.start srv s stream)).
    + intros Hpc. unfold Conn.handler_inv in Hh. rewrite Hpc in Hh.
      destruct Hh as (Hcl & Hreg & _). by split.
    + intros Hpumps Hwt st'.
      exact (conn_finished json _ _ _ _ _ _ stream acts Hcreate Hpumps Hwt st' eq_refl).
Qed.

Lemma oversized_frame_ends_only_its_connection_witness :
  let srv0 := serverWith DefaultConfig (Some shellCommand) in
  let stream := oversizedHeader ++ bytes "ignored" in
  let acts := [Conn.InSelect false; Conn.InRead; Conn.OutSelect true;
               Conn.WtSessionDone] in
  BigEndian_Uint32 oversizedHeader = 1048577 ∧
  ∃ srv s,
    createCmdSession unixEnv srv0 false 100 40 = (srv, inr s) ∧
    let st := Conn.run clientResize [Conn.InSelect false]
                (Conn.start srv s stream) in
    Conn.in_pc st = Conn.InReading ∧ Conn.in_stream st = stream ∧
    (∃ st', Conn.step clientResize Conn.InRead st = Some st' ∧
            Conn.in_pc st' = Conn.InReturned ExitTooLarge ∧
            Conn.conn_cancelled st' = true ∧
            Conn.in_stream st' = bytes "ignored") ∧
    let ended := Conn.run clientResize acts (Conn.start srv s stream) in
    Conn.pumpsReturned ended = true ∧ Conn.wt_done ended = true ∧
    let final := Conn.run clientResize (acts ++ replicate 6 Conn.HandlerRuns)
                   (Conn.start srv s stream) in
    Conn.handler_pc final = Conn.HReturned ∧
    cmdSession_written (Conn.session final) = [] ∧
    sessions (Conn.srv final) !! cs_id s = None.
Proof.
  intros srv0 stream acts. split; [vm_compute; reflexivity|].
  eexists _, _. split; [reflexivity|]. intros st.
  destruct (oversized_frame_ends_only_its_connection clientResize)
    as (_ & _ & _ & Hconn).
  assert (Hi : Conn.in_pc st = Conn.InReading) by (vm_compute; reflexivity).
  assert (Hs : Conn.in_stream st = oversizedHeader ++ bytes "ignored")
    by (vm_compute; reflexivity).
  split; [exact Hi|]. split; [exact Hs|]. split.
  - destruct (Hconn unixEnv srv0 100 40 _ _ stream [Conn.InSelect false] eq_refl)
      as (_ & _ & Hread & _).
    destruct (Hread oversizedHeader (bytes "ignored") Hi Hs eq_refl)
      as (st' & Hstep & Hpc & Hc & Hrest & _); [vm_compute; reflexivity|].
    by exists st'.
  - intros ended.
    assert (Hpumps : Conn.pumpsReturned ended = true) by (vm_compute; reflexivity).
    assert (Hwt : Conn.wt_done ended = true) by (vm_compute; reflexivity).
    split; [exact Hpumps|]. split; [exact Hwt|]. intros final.
    destruct (Hconn unixEnv srv0 100 40 _ _ stream acts eq_refl)
      as (_ & _ & _ & _ & _ & _ & Hfin).
    destruct (Hfin Hpumps Hwt) as (Hret & _ & _ & Hgone & _).
    split; [exact Hret|]. split; [vm_compute; reflexivity|exact Hgone].
Defined.

(** C6 as stated fails twice.  First, the return of the input pump
    does not end the connection: after an oversized frame the pump has
    returned and the context is cancelled, the output pump has returned
    too, and still the handler waits for the client to close the
    WebTransport session; nothing is torn down, the session stays open
    and registered.  Second, the first frame of a stream is read by the
    size negotiation, which knows no cap: it consumes the length prefix
    of an oversized first frame and nothing else, no warning is logged,
    and the input pump then reads the frame's body as frames of its own,
    here an input message that reaches the command. *)
Lemma oversized_frame_counterexample :
  let srv0 := serverWith DefaultConfig (Some shellCommand) in
  BigEndian_Uint32 oversizedHeader = frameCap + 1 ∧
  (∃ srv s,
     createCmdSession unixEnv srv0 false 80 24 = (srv, inr s) ∧
     let st := Conn.run clientResize
                 [Conn.InSelect false; Conn.InRead; Conn.OutSelect true;
                  Conn.HandlerRuns]
                 (Conn.start srv s (oversizedHeader ++ bytes "body")) in
     Conn.in_pc st = Conn.InReturned ExitTooLarge ∧
     Conn.out_pc st = Conn.OutReturned OutCtxDone ∧
     Conn.handler_pc st = Conn.HWait ∧
     teardownCalls (Conn.trace st) = [] ∧
     cs_closed (Conn.session st) = false ∧
     sessions (Conn.srv st) !! cs_id s = Some CmdKind) ∧
  (let body := writeFramed (inputFrame (bytes "rm -rf /")) in
   ∃ srv a a',
     openWebTransportSession clientResize unixEnv srv0 false
       (oversizedHeader ++ body) = (srv, inr a, body) ∧
     handleWebTransportInput clientResize 3 srv false false body a [] 0
     = Ok {| pr_exit := ExitReadError; pr_session := a'; pr_rest := [];
             pr_logs := []; pr_msgCount := 1 |} ∧
     anySession_closed a' = false ∧
     anySession_written a' = [bytes "rm -rf /"]).
Proof.
  intros srv0. split; [vm_compute; reflexivity|]. split.
  - eexists _, _. split; [reflexivity|]. intros st.
    split_and!; vm_compute; reflexivity.
  - intros body. eexists _, _, _. split; [vm_compute; reflexivity|].
    split; [vm_compute; reflexivity|]. split; vm_compute; reflexivity.
Qed.

(** C9 (as the code behaves).  For a command-mode WebTransport connection
    and every interleaving of the watcher, the two pumps, the handler and
    the environment: once the watcher has run the command has exited and
    the session context is cancelled; an output pump that reaches its
    [select] with the session done and the connection context not yet
    cancelled, or whose bridge read fails, writes the close frame and
    returns; whenever it has returned through the session-done case or on
    a read error the close frame is the last thing written to the client;
    it returns without one from the [select] only if the connection
    context was already cancelled; every write to the client precedes
    every teardown call; and the session is deleted from the registry at
    most once, not before teardown starts, and exactly once when the
    handler has returned. *)
Theorem command_exit_sends_close_before_teardown
    (json : list byte → option ResizeMessage) os srv0 cols rows srv s stream acts :
  createCmdSession os srv0 false cols rows = (srv, inr s) →
  let st := Conn.run json acts (Conn.start srv s stream) in
  Conn.panicked st = false ∧
  (Conn.watcher_done st = true →
     Conn.proc_exited st = true ∧ Done (Conn.session st) = true) ∧
  (∀ pick, Conn.out_pc st = Conn.OutHead →
     Done (Conn.session st) = true → Conn.conn_cancelled st = false →
     ∃ st', Conn.step json (Conn.OutSelect pick) st = Some st' ∧
            Conn.out_pc st' = Conn.OutReturned OutSessionDone ∧
            Conn.trace st'
            = Conn.trace st ++ [Conn.EvWrite closeFrame; Conn.EvConnCancel]) ∧
  (∀ ok, Conn.out_pc st = Conn.OutReading →
     ∃ st', Conn.step json (Conn.OutRead BridgeErr ok) st = Some st' ∧
            Conn.out_pc st' = Conn.OutReturned OutReadError ∧
            Conn.trace st'
            = Conn.trace st ++ [Conn.EvWrite closeFrame; Conn.EvConnCancel]) ∧
  (∀ pick st', Conn.step json (Conn.OutSelect pick) st = Some st' →
     Conn.out_pc st' = Conn.OutReturned OutCtxDone →
     Conn.conn_cancelled st = true) ∧
  (Conn.out_pc st = Conn.OutReturned OutSessionDone ∨
   Conn.out_pc st = Conn.OutReturned OutReadError →
     last (Conn.writes (Conn.trace st)) = Some closeFrame) ∧
  Conn.writes_first (Conn.trace st) = true ∧
  (Conn.deletes (cs_id s) (Conn.trace st) ≤ 1)%nat ∧
  (Conn.handler_pc st = Conn.HWait →
     sessions (Conn.srv st) !! cs_id s = Some CmdKind ∧
     Conn.deletes (cs_id s) (Conn.trace st) = 0%nat) ∧
  (Conn.handler_pc st = Conn.HReturned →
     Conn.deletes (cs_id s) (Conn.trace st) = 1%nat ∧
     sessions (Conn.srv st) !! cs_id s = None ∧
     cs_closed (Conn.session st) = true).
Proof.
  intros Hcreate st.
  pose proof (ConnFacts.conn_run_inv json _ acts _
                (ConnFacts.conn_start_inv _ _ _ _ _ _ stream Hcreate)) as Hinv.
  fold st in Hinv.
  pose proof (ConnFacts.inv_deletes _ _ Hinv) as [Hdel Hwf].
  destruct Hinv as (Hp & Hwfs & Hid & Hcc & Hw & Hout & Hh).
  split_and!; try done.
  - intros pick Ho Hd Hc. unfold Conn.step. rewrite Hp, Ho.
    unfold outputSelect. rewrite Hc, Hd. cbn [select_done].
    eexists. split; [reflexivity|]. split; reflexivity.
  - intros ok Ho. unfold Conn.step. rewrite Hp, Ho. cbn [outputRead].
    eexists. split; [reflexivity|]. split; reflexivity.
  - intros pick st' Hstep Ho. unfold Conn.step in Hstep. rewrite Hp in Hstep.
    destruct (Conn.out_pc st); try done. unfold outputSelect in Hstep.
    destruct (Conn.conn_cancelled st); [done|].
    destruct (Done (Conn.session st)); cbn in Hstep;
      injection Hstep as <-; cbn in Ho; discriminate.
  - unfold Conn.out_inv in Hout. intros [Ho|Ho]; rewrite Ho in Hout; tauto.
  - intros Hpc. unfold Conn.handler_inv in Hh. rewrite Hpc in Hh.
    destruct Hh as (_ & Hreg & Hnt). rewrite <- Hid in *. split; [done|].
    by apply ConnFacts.no_teardown_deletes.
  - intros Hpc. unfold Conn.handler_inv in Hh. rewrite Hpc in Hh.
    destruct Hh as (Hcl & Hreg & Hd & _). rewrite <- Hid in *. done.
Qed.

Lemma command_exit_sends_close_before_teardown_witness :
  ∃ srv s,
    createCmdSession unixEnv (serverWith DefaultConfig (Some shellCommand))
      false 80 24 = (srv, inr s) ∧
    let st := Conn.run clientResize Conn.exitSeenByOutput (Conn.start srv s []) in
    Conn.watcher_done st = true ∧ Conn.proc_exited st = true ∧
    Conn.out_pc st = Conn.OutReturned OutSessionDone ∧
    Conn.handler_pc st = Conn.HReturned ∧
    Conn.writes (Conn.trace st)
    = [writeFramed (optionsMessage srv); outputFrame (bytes "bye"); closeFrame] ∧
    last (Conn.writes (Conn.trace st)) = Some closeFrame ∧
    Conn.writes_first (Conn.trace st) = true ∧
    Conn.deletes (cs_id s) (Conn.trace st) = 1%nat ∧
    sessions (Conn.srv st) !! cs_id s = None.
Proof.
  eexists _, _. split; [reflexivity|]. intros st.
  pose proof (command_exit_sends_close_before_teardown clientResize unixEnv
                (serverWith DefaultConfig (Some shellCommand)) 80 24 _ _ []
                Conn.exitSeenByOutput eq_refl)
    as (_ & Hwatch & _ & _ & _ & Hclose & Hfirst & _ & _ & Hret).
  fold st in Hwatch, Hclose, Hfirst, Hret.
  assert (Hw : Conn.watcher_done st = true) by (vm_compute; reflexivity).
  assert (Ho : Conn.out_pc st = Conn.OutReturned OutSessionDone)
    by (vm_compute; reflexivity).
  assert (Hh : Conn.handler_pc st = Conn.HReturned) by (vm_compute; reflexivity).
  destruct (Hwatch Hw) as [Hexit _].
  destruct (Hret Hh) as (Hdel & Hgone & _).
  split; [exact Hw|]. split; [exact Hexit|]. split; [exact Ho|].
  split; [exact Hh|]. split; [vm_compute; reflexivity|].
  split; [apply Hclose; by left|]. split; [exact Hfirst|].
  split; [exact Hdel|exact Hgone].
Defined.

(** C9 as stated fails.  The command exits before the pumps reach their
    first [select]; the watcher cancels the session context; the input
    pump sees the session done and returns, and its deferred [cancel()]
    cancels the connection context; the output pump's [select] now has
    both cases ready and Go may pick [ctx.Done()], which returns without
    writing.  The connection is torn down and the registry entry deleted
    once, but the only frame ever written to the client is the options
    frame: no close message. *)
Lemma command_exit_without_close_counterexample :
  ∃ srv s,
    createCmdSession unixEnv (serverWith DefaultConfig (Some shellCommand))
      false 80 24 = (srv, inr s) ∧
    let st := Conn.run clientResize Conn.exitSeenByInputFirst
                (Conn.start srv s []) in
    Conn.proc_exited st = true ∧ Conn.watcher_done st = true ∧
    Conn.in_pc st = Conn.InReturned ExitSessionDone ∧
    Conn.out_pc st = Conn.OutReturned OutCtxDone ∧
    Conn.handler_pc st = Conn.HReturned ∧
    Conn.deletes (cs_id s) (Conn.trace st) = 1%nat ∧
    Conn.writes (Conn.trace st) = [writeFramed (optionsMessage srv)] ∧
    closeFrame ∉ Conn.writes (Conn.trace st).
Proof.
  eexists _, _. split; [reflexivity|]. intros st.
  assert (Hw : Conn.writes (Conn.trace st)
               = [writeFramed (optionsMessage
                     (createCmdSession unixEnv
                        (serverWith DefaultConfig (Some shellCommand))
                        false 80 24).1)])
    by (vm_compute; reflexivity).
  split_and!; try (vm_compute; reflexivity).
  rewrite Hw. intros Hin%list_elem_of_singleton. vm_compute in Hin. discriminate.
Qed.

Lemma close_is_idempotent_witness :
  let srv := set_sessions (serverWith DefaultConfig None)
               {[ ws_id freshWebSession := WebKind ]} in
  let st := Race.web_run Race.overlapping (Race.start (srv, freshWebSession)) in
  Race.pc_true st = Race.Returned ∧ Race.pc_false st = Race.Returned ∧
  Race.shared st = closeSession srv freshWebSession ∧
  sessions (Race.shared st).1 = ∅ ∧
  ws_cancels (Race.shared st).2 = 1%nat.
Proof.
  intros srv st.
  destruct close_is_idempotent as (_ & _ & Hweb & _).
  destruct (Hweb srv freshWebSession Race.overlapping) as (_ & _ & Hfin).
  fold st in Hfin.
  assert (Ha : Race.pc_true st = Race.Returned) by (vm_compute; reflexivity).
  assert (Hb : Race.pc_false st = Race.Returned) by (vm_compute; reflexivity).
  split; [exact Ha|]. split; [exact Hb|]. split; [exact (Hfin Ha Hb)|].
  rewrite (Hfin Ha Hb). split; [vm_compute; reflexivity|reflexivity].
Defined.

(** * Further properties of the handlers *)

(** ** What the dispatcher does to a connection's session *)

Lemma processInput_any_effect json srv data a :
  anySession_wf a →
  ∃ a' l, processInput json srv data a = Ok (a', l) ∧ anySession_wf a' ∧
          anySession_id a' = anySession_id a ∧ Done a' = Done a ∧
          anySession_closed a' = anySession_closed a ∧
          anySession_written a'
          = anySession_written a ++
            (if ReadOnly (config srv) then []
             else option_list (inputPayload data)).
Proof.
  intros Hwf. unfold processInput, inputPayload.
  assert (Hsame : ∀ l : list logLine, ∃ a' (l' : list logLine),
            @Ok (anySession * list logLine) (a, l) = Ok (a', l') ∧ anySession_wf a' ∧
            anySession_id a' = anySession_id a ∧ Done a' = Done a ∧
            anySession_closed a' = anySession_closed a ∧
            anySession_written a' = anySession_written a ++ []).
  { intros l. eexists _, _. split; [reflexivity|]. by rewrite app_nil_r. }
  assert (Hro : (if ReadOnly (config srv) then [] else @nil (list byte)) = []).
  { by destruct (ReadOnly _). }
  destruct data as [|t payload].
  { simpl. rewrite Hro. apply Hsame. }
  destruct (decide (t = MsgInput)) as [->|Hin].
  - destruct (ReadOnly (config srv)); cbn [negb option_list]; [apply Hsame|].
    destruct a as [s|s]; destruct Hwf as ([p Hp] & Hcap & Hlen); simpl.
    + unfold webSession_InputWrite. rewrite Hp. simpl.
      eexists _, _. split; [reflexivity|].
      simpl. unfold webSession_wf, webSession_written. simpl. rewrite ?Hp.
      split_and!; eauto.
    + unfold cmdSession_InputWrite. rewrite Hp. simpl.
      eexists _, _. split; [reflexivity|].
      simpl. unfold cmdSession_wf, cmdSession_written. simpl. rewrite ?Hp.
      split_and!; eauto.
  - change (option_list None) with (@nil (list byte)). rewrite Hro.
    destruct (decide (t = MsgResize)) as [->|Hrs];
      [|destruct (decide (t = MsgPing)); apply Hsame].
    destruct (json payload) as [m|]; [|apply Hsame].
    eexists _, _. split; [reflexivity|].
    destruct (anySession_Resize_wf a (Cols m) (Rows m) Hwf) as (? & ? & ?).
    rewrite app_nil_r. split_and!; try done.
    + by destruct a.
    + destruct a as [s|s]; simpl.
      * unfold webSession_written. simpl.
        destruct (ws_platform s) as [p|]; [|done]. simpl.
        unfold platformPty_Resize. by destruct (pp_backend p).
      * unfold cmdSession_written. simpl. by destruct (cs_platform s).
Qed.

Lemma processInputs_any_effect json srv msgs :
  ∀ a, anySession_wf a →
  ∃ a' logs, processInputs json srv msgs a = Ok (a', logs) ∧ anySession_wf a' ∧
             anySession_id a' = anySession_id a ∧ Done a' = Done a ∧
             anySession_closed a' = anySession_closed a ∧
             anySession_written a'
             = anySession_written a ++
               (if ReadOnly (config srv) then [] else omap inputPayload msgs).
Proof.
  induction msgs as [|m msgs IH]; intros a Hwf; cbn [processInputs].
  { eexists _, _. split; [reflexivity|].
    destruct (ReadOnly _); by rewrite app_nil_r. }
  destruct (processInput_any_effect json srv m a Hwf)
    as (a1 & l1 & -> & Hwf1 & Hid1 & Hd1 & Hc1 & Hw1).
  cbn [mbind result_bind].
  destruct (IH a1 Hwf1) as (a2 & l2 & -> & Hwf2 & Hid2 & Hd2 & Hc2 & Hw2).
  cbn [mbind result_bind]. eexists _, _. split; [reflexivity|].
  split; [done|]. split; [congruence|]. split; [congruence|].
  split; [congruence|]. rewrite Hw2, Hw1, <- app_assoc. f_equal.
  destruct (ReadOnly _); [done|]. cbn [omap list_omap].
  by destruct (inputPayload m).
Qed.

(** The WebSocket pump on a connection that stays open until the client
    has sent [msgs] and closed: every message is dispatched, in order. *)
Lemma handleWebSocketInput_processInputs json srv pick msgs :
  ∀ a logs a' logs',
    anySession_wf a → Done a = false →
    processInputs json srv msgs a = Ok (a', logs') →
    handleWebSocketInput json srv pick false msgs a logs
    = Ok (ExitReadError, a', logs ++ logs').
Proof.
  induction msgs as [|m msgs IH]; intros a logs a' logs' Hwf Hd Hrun;
    cbn [handleWebSocketInput processInputs] in *; rewrite Hd; cbn [select_done].
  { injection Hrun as <- <-. by rewrite app_nil_r. }
  destruct (processInput_any_effect json srv m a Hwf)
    as (a1 & l1 & Hp & Hwf1 & _ & Hd1 & _).
  rewrite Hp in *. cbn [mbind result_bind] in *.
  destruct (processInputs json srv msgs a1) as [[a2 l2]|] eqn:Hrest;
    cbn in Hrun; [|discriminate].
  injection Hrun as <- <-.
  rewrite (IH a1 (logs ++ l1) a2 l2 Hwf1) by congruence.
  by rewrite app_assoc.
Qed.

(** A client within the read limit: [conn.Read] returns every message. *)
Lemma conn_Reads_within sent :
  Forall (λ m : list byte, Z.of_nat (length m) ≤ websocketReadLimit) sent →
  conn_Reads sent = sent.
Proof.
  induction 1 as [|m sent Hm _ IH]; [done|]. cbn [conn_Reads].
  destruct (Z.leb_spec (Z.of_nat (length m)) websocketReadLimit); [|lia].
  by rewrite IH.
Qed.

(** The first message over the limit ends what [conn.Read] returns. *)
Lemma conn_Reads_over pre m post :
  Forall (λ m : list byte, Z.of_nat (length m) ≤ websocketReadLimit) pre →
  websocketReadLimit < Z.of_nat (length m) →
  conn_Reads (pre ++ m :: post) = pre.
Proof.
  intros Hpre Hm. induction Hpre as [|m' pre Hm' _ IH]; cbn [app conn_Reads].
  - destruct (Z.leb_spec (Z.of_nat (length m)) websocketReadLimit); [lia|done].
  - destruct (Z.leb_spec (Z.of_nat (length m')) websocketReadLimit); [|lia].
    by rewrite IH.
Qed.

(** X1.  The two input pumps agree on a client within the WebSocket read
    limit, and only there.  A client sends the messages [sent] (each
    within the 1 MiB cap of the WebTransport pump) and closes.  The
    WebTransport pump, reading their framed concatenation, dispatches all
    of them in order, counts one message per frame and returns on the
    failed read that follows.  The WebSocket pump dispatches the messages
    [conn.Read] returns, which are those before the first message of more
    than 32768 bytes (the library's read limit, which the code does not
    raise), and returns on the failed read that follows.  When every
    message is within the read limit the two pumps leave the session in
    exactly the same state, with exactly the same log lines; a message
    over the read limit and within the cap is dispatched by the
    WebTransport pump and ends the WebSocket pump. *)
Theorem webtransport_pump_agrees_with_websocket_pump
    (json : list byte → option ResizeMessage) srv pick sent (a : anySession) :
  anySession_wf a → Done a = false →
  Forall (λ m : list byte, Z.of_nat (length m) ≤ frameCap) sent →
  ∃ a_ws logs_ws a_wt logs_wt,
    processInputs json srv (conn_Reads sent) a = Ok (a_ws, logs_ws) ∧
    processInputs json srv sent a = Ok (a_wt, logs_wt) ∧
    handleWebSocketInput json srv pick false (conn_Reads sent) a []
    = Ok (ExitReadError, a_ws, logs_ws) ∧
    handleWebTransportInput json (length sent + 1) srv pick false
      (concat (writeFramed <$> sent)) a [] 0
    = Ok {| pr_exit := ExitReadError; pr_session := a_wt; pr_rest := [];
            pr_logs := logs_wt; pr_msgCount := length sent |} ∧
    anySession_written a_ws
    = anySession_written a ++
      (if ReadOnly (config srv) then [] else omap inputPayload (conn_Reads sent)) ∧
    anySession_written a_wt
    = anySession_written a ++
      (if ReadOnly (config srv) then [] else omap inputPayload sent) ∧
    (Forall (λ m : list byte, Z.of_nat (length m) ≤ websocketReadLimit) sent →
       conn_Reads sent = sent ∧ a_ws = a_wt ∧ logs_ws = logs_wt) ∧
    (∀ pre m post,
       sent = pre ++ m :: post →
       Forall (λ m : list byte, Z.of_nat (length m) ≤ websocketReadLimit) pre →
       websocketReadLimit < Z.of_nat (length m) →
       conn_Reads sent = pre).
Proof.
  intros Hwf Hd Hcap.
  destruct (processInputs_any_effect json srv (conn_Reads sent) a Hwf)
    as (a_ws & logs_ws & Hws & _ & _ & _ & _ & Hwritten_ws).
  destruct (processInputs_any_effect json srv sent a Hwf)
    as (a_wt & logs_wt & Hwt & _ & _ & Hd' & _ & Hwritten_wt).
  exists a_ws, logs_ws, a_wt, logs_wt. split_and!; try done.
  - by rewrite (handleWebSocketInput_processInputs json srv pick _ a [] a_ws logs_ws).
  - pose proof (handleWebTransportInput_frames json srv pick sent a [] 0%nat
                  a_wt logs_wt 1%nat [] Hwf Hd Hcap Hwt) as Hf.
    rewrite app_nil_r in Hf. rewrite Hf.
    cbn [handleWebTransportInput]. rewrite Hd', Hd. cbn [select_done].
    unfold readMessage. cbn. by rewrite app_nil_r.
  - intros Hlim. pose proof (conn_Reads_within sent Hlim) as Heq.
    rewrite Heq in Hws. split; [done|]. split; congruence.
  - intros pre m post -> Hpre Hm. by apply conn_Reads_over.
Qed.

Lemma webtransport_pump_agrees_with_websocket_pump_witness :
  let srv := serverWith DefaultConfig (Some shellCommand) in
  let sent := [inputFrame (bytes "ls"); resizeFrame (resizePayload 100 40);
               [MsgPing]; inputFrame (bytes "pwd")] in
  let big := inputFrame (replicate (Z.to_nat websocketReadLimit) x61) in
  anySession_wf (AnyCmd freshCmdSession) ∧
  Done (AnyCmd freshCmdSession) = false ∧
  Forall (λ m : list byte, Z.of_nat (length m) ≤ frameCap) sent ∧
  Forall (λ m : list byte, Z.of_nat (length m) ≤ websocketReadLimit) sent ∧
  (∃ a' logs,
     handleWebSocketInput clientResize srv false false (conn_Reads sent)
       (AnyCmd freshCmdSession) [] = Ok (ExitReadError, a', logs) ∧
     handleWebTransportInput clientResize 5 srv false false
       (concat (writeFramed <$> sent)) (AnyCmd freshCmdSession) [] 0
     = Ok {| pr_exit := ExitReadError; pr_session := a'; pr_rest := [];
             pr_logs := logs; pr_msgCount := 4 |} ∧
     anySession_Pty a' = {| Pty_Width := 100; Pty_Height := 40 |} ∧
     anySession_written a' = [bytes "ls"; bytes "pwd"]) ∧
  Z.of_nat (length big) = websocketReadLimit + 1 ∧
  conn_Reads [inputFrame (bytes "ls"); big; inputFrame (bytes "pwd")]
  = [inputFrame (bytes "ls")].
Proof.
  intros srv sent big.
  assert (Hwf : anySession_wf (AnyCmd freshCmdSession)).
  { unfold anySession_wf, cmdSession_wf. simpl. split; [by eexists|lia]. }
  assert (Hcap : Forall (λ m : list byte, Z.of_nat (length m) ≤ frameCap) sent).
  { repeat constructor; vm_compute; discriminate. }
  assert (Hlim : Forall (λ m : list byte,
                           Z.of_nat (length m) ≤ websocketReadLimit) sent).
  { repeat constructor; vm_compute; discriminate. }
  split; [exact Hwf|]. split; [reflexivity|]. split; [exact Hcap|].
  split; [exact Hlim|].
  destruct (webtransport_pump_agrees_with_websocket_pump clientResize srv false
              sent (AnyCmd freshCmdSession) Hwf eq_refl Hcap)
    as (a_ws & logs_ws & a_wt & logs_wt & _ & _ & Hws & Hwt & _ & _ & Hsame & _).
  destruct (Hsame Hlim) as (_ & <- & <-). split; [|split].
  - exists a_ws, logs_ws. split; [exact Hws|]. split; [exact Hwt|].
    vm_compute in Hws. injection Hws as <- _. split; reflexivity.
  - vm_compute. reflexivity.
  - vm_compute. reflexivity.
Defined.

Lemma length_PutUint32 n : length (BigEndian_PutUint32 n) = 4%nat.
Proof. reflexivity. Qed.

(** The pump on a stream that ends inside a frame. *)
Lemma readMessage_truncated {Sess} `{internalSession Sess} json srv
    (m : list byte) k (s : Sess) :
  Z.of_nat (length m) ≤ frameCap →
  (k < length (writeFramed m))%nat →
  readMessage json srv (take k (writeFramed m)) s
  = Ok (ReadExit ExitReadError [] []).
Proof.
  intros Hcap Hk. unfold writeFramed in *. rewrite length_app in Hk.
  rewrite length_PutUint32 in Hk. unfold readMessage, frameCap in *.
  destruct (decide (k < 4)%nat) as [Hlt|Hge].
  - unfold ReadFull. rewrite length_take, length_app, length_PutUint32.
    by replace (4 <=? k `min` (4 + length m))%nat with false
      by (symmetry; apply Nat.leb_gt; lia).
  - rewrite take_app_ge by (rewrite length_PutUint32; lia).
    rewrite length_PutUint32, ReadFull_app by done.
    rewrite Uint32_PutUint32, Z.mod_small by lia.
    destruct (Z.gtb_spec (Z.of_nat (length m)) (1024 * 1024)); [lia|].
    rewrite Nat2Z.id. unfold ReadFull. rewrite length_take.
    by replace (length m <=? (k - 4) `min` length m)%nat with false
      by (symmetry; apply Nat.leb_gt; lia).
Qed.

(** X2.  A message that has not arrived whole is never dispatched.  If
    the client's stream ends inside a frame (inside its length prefix or
    inside its body), the WebTransport input pump dispatches the complete
    frames before it, in order, and returns on the failed read: the
    session is as the last complete frame left it and the partial frame
    changes nothing and is not counted. *)
Theorem truncated_frame_is_not_dispatched
    (json : list byte → option ResizeMessage) srv pick msgs (m : list byte) k
    (a a' : anySession) logs' :
  anySession_wf a → Done a = false →
  Forall (λ m : list byte, Z.of_nat (length m) ≤ frameCap) msgs →
  Z.of_nat (length m) ≤ frameCap →
  (k < length (writeFramed m))%nat →
  processInputs json srv msgs a = Ok (a', logs') →
  handleWebTransportInput json (length msgs + 1) srv pick false
    (concat (writeFramed <$> msgs) ++ take k (writeFramed m)) a [] 0
  = Ok {| pr_exit := ExitReadError; pr_session := a'; pr_rest := [];
          pr_logs := logs'; pr_msgCount := length msgs |}.
Proof.
  intros Hwf Hd Hcap Hm Hk Hrun.
  rewrite (handleWebTransportInput_frames json srv pick msgs a [] 0%nat
             a' logs' 1%nat _ Hwf Hd Hcap Hrun).
  destruct (processInputs_any_effect json srv msgs a Hwf)
    as (a2 & l2 & Hrun2 & _ & _ & Hd' & _).
  rewrite Hrun in Hrun2. injection Hrun2 as <- <-.
  cbn [handleWebTransportInput]. rewrite Hd', Hd. cbn [select_done].
  rewrite readMessage_truncated by done. cbn. by rewrite app_nil_r.
Qed.

Lemma truncated_frame_is_not_dispatched_witness :
  let srv := serverWith DefaultConfig None in
  let msgs := [inputFrame (bytes "ls")] in
  let m := inputFrame (bytes "rm -rf /") in
  anySession_wf (AnyWeb freshWebSession) ∧
  Done (AnyWeb freshWebSession) = false ∧
  Forall (λ m : list byte, Z.of_nat (length m) ≤ frameCap) msgs ∧
  Z.of_nat (length m) ≤ frameCap ∧
  (9 < length (writeFramed m))%nat ∧
  ∃ a' logs',
    processInputs clientResize srv msgs (AnyWeb freshWebSession) = Ok (a', logs') ∧
    handleWebTransportInput clientResize 2 srv false false
      (concat (writeFramed <$> msgs) ++ take 9 (writeFramed m))
      (AnyWeb freshWebSession) [] 0
    = Ok {| pr_exit := ExitReadError; pr_session := a'; pr_rest := [];
            pr_logs := logs'; pr_msgCount := 1 |} ∧
    anySession_written a' = [bytes "ls"].
Proof.
  intros srv msgs m.
  assert (Hwf : anySession_wf (AnyWeb freshWebSession)).
  { unfold anySession_wf, webSession_wf. simpl. split; [by eexists|lia]. }
  assert (Hcap : Forall (λ m : list byte, Z.of_nat (length m) ≤ frameCap) msgs).
  { repeat constructor; vm_compute; discriminate. }
  assert (Hm : Z.of_nat (length m) ≤ frameCap) by (vm_compute; discriminate).
  assert (Hk : (9 < length (writeFramed m))%nat) by (vm_compute; lia).
  split; [exact Hwf|]. split; [reflexivity|]. split; [exact Hcap|].
  split; [exact Hm|]. split; [exact Hk|].
  eexists _, _. split; [reflexivity|]. split; [|reflexivity].
  apply (truncated_frame_is_not_dispatched clientResize srv false msgs m 9%nat
           (AnyWeb freshWebSession) _ _ Hwf eq_refl Hcap Hm Hk).
  reflexivity.
Defined.

(** X3.  The bridge receives exactly the input.  Whatever messages a
    client sends on an open connection, the [Write] calls that reach the
    input writer of the session's bridge are the payloads of the messages
    of type input, one call per message and in arrival order; resizes,
    pings, unknown types and empty messages add none.  In read-only mode
    the bridge receives no [Write] at all. *)
Theorem bridge_receives_input_payloads_in_order
    (json : list byte → option ResizeMessage) srv pick msgs (a : anySession) :
  anySession_wf a → Done a = false →
  ∃ a' logs,
    handleWebSocketInput json srv pick false msgs a []
    = Ok (ExitReadError, a', logs) ∧
    anySession_written a'
    = anySession_written a ++
      (if ReadOnly (config srv) then [] else omap inputPayload msgs).
Proof.
  intros Hwf Hd.
  destruct (processInputs_any_effect json srv msgs a Hwf)
    as (a' & logs & Hrun & _ & _ & _ & _ & Hw).
  exists a', logs. split; [|done].
  by rewrite (handleWebSocketInput_processInputs json srv pick msgs a [] a' logs).
Qed.

Lemma bridge_receives_input_payloads_in_order_witness :
  let msgs := [inputFrame (bytes "a"); resizeFrame (resizePayload 90 30);
               []; [MsgClose]; inputFrame []; inputFrame (bytes "b")] in
  anySession_wf (AnyWeb freshWebSession) ∧
  Done (AnyWeb freshWebSession) = false ∧
  (∃ a' logs,
     handleWebSocketInput clientResize (serverWith DefaultConfig None) false
       false msgs (AnyWeb freshWebSession) [] = Ok (ExitReadError, a', logs) ∧
     anySession_written a' = [bytes "a"; []; bytes "b"]) ∧
  (∃ a' logs,
     handleWebSocketInput clientResize (serverWith readOnlyConfig None) false
       false msgs (AnyWeb freshWebSession) [] = Ok (ExitReadError, a', logs) ∧
     anySession_written a' = []).
Proof.
  intros msgs.
  assert (Hwf : anySession_wf (AnyWeb freshWebSession)).
  { unfold anySession_wf, webSession_wf. simpl. split; [by eexists|lia]. }
  split; [exact Hwf|]. split; [reflexivity|]. split.
  - destruct (bridge_receives_input_payloads_in_order clientResize
                (serverWith DefaultConfig None) false msgs
                (AnyWeb freshWebSession) Hwf eq_refl) as (a' & logs & Hrun & Hw).
    exists a', logs. split; [exact Hrun|]. rewrite Hw. reflexivity.
  - destruct (bridge_receives_input_payloads_in_order clientResize
                (serverWith readOnlyConfig None) false msgs
                (AnyWeb freshWebSession) Hwf eq_refl) as (a' & logs & Hrun & Hw).
    exists a', logs. split; [exact Hrun|]. rewrite Hw. reflexivity.
Defined.

(** ** The input pump on a finite stream *)

Lemma ReadFull_length n (stream : list byte) r rest :
  ReadFull n stream = (Some r, rest) →
  length r = n ∧ (length rest + n = length stream)%nat.
Proof.
  unfold ReadFull. destruct (Nat.leb_spec n (length stream)); [|done].
  intros [= <- <-]. rewrite length_take, length_drop. lia.
Qed.

Lemma ReadFull_short n (stream : list byte) rest :
  ReadFull n stream = (None, rest) → rest = [].
Proof. unfold ReadFull. destruct (_ <=? _)%nat; congruence. Qed.

(** X4.  The WebTransport input pump terminates on every finite stream.
    Each turn of its loop that goes round has consumed a whole frame, so
    at least the four bytes of a length prefix: with more turns allowed
    than the stream has four-byte groups the pump returns by itself (on a
    done signal, an oversized prefix or the failed read at the end of the
    stream), never for lack of turns, and four times the number of
    messages it dispatched, plus what it left unread, is at most the
    length of the stream. *)
Theorem webtransport_pump_terminates
    (json : list byte → option ResizeMessage) srv pick ctx_done :
  ∀ fuel stream (a : anySession) logs n,
    anySession_wf a →
    (length stream < 4 * fuel)%nat →
    ∃ pr,
      handleWebTransportInput json fuel srv pick ctx_done stream a logs n = Ok pr ∧
      pr_exit pr ≠ ExitOutOfFuel ∧
      (n ≤ pr_msgCount pr)%nat ∧
      (4 * (pr_msgCount pr - n) + length (pr_rest pr) ≤ length stream)%nat.
Proof.
  induction fuel as [|fuel IH]; intros stream a logs n Hwf Hlen; [lia|].
  cbn [handleWebTransportInput].
  destruct (select_done _ _ _);
    try (eexists; split; [reflexivity|]; cbn; split; [done|]; lia).
  unfold readMessage.
  destruct (ReadFull 4 stream) as [[lenBuf|] st1] eqn:E1.
  2:{ apply ReadFull_short in E1 as ->.
      eexists; split; [reflexivity|]; cbn; split; [done|]; lia. }
  apply ReadFull_length in E1 as [_ Hst1].
  destruct (_ >? frameCap).
  { eexists; split; [reflexivity|]; cbn; split; [done|]; lia. }
  destruct (ReadFull _ st1) as [[msg|] st2] eqn:E2.
  2:{ apply ReadFull_short in E2 as ->.
      eexists; split; [reflexivity|]; cbn; split; [done|]; lia. }
  apply ReadFull_length in E2 as [_ Hst2].
  destruct (processInput_any_effect json srv msg a Hwf)
    as (a1 & l1 & -> & Hwf1 & _).
  cbn [mbind result_bind].
  destruct (IH st2 a1 (logs ++ l1) (S n) Hwf1) as (pr & -> & Hne & Hge & Hcount);
    [lia|].
  exists pr. split; [done|]. split; [done|]. lia.
Qed.

Lemma webtransport_pump_terminates_witness :
  let stream := writeFramed (inputFrame (bytes "ls")) ++
                writeFramed [MsgPing] ++ bytes "xyz" in
  anySession_wf (AnyCmd freshCmdSession) ∧
  (length stream < 4 * 4)%nat ∧
  ∃ pr,
    handleWebTransportInput clientResize 4
      (serverWith DefaultConfig (Some shellCommand)) false false stream
      (AnyCmd freshCmdSession) [] 0 = Ok pr ∧
    pr_exit pr = ExitReadError ∧ pr_msgCount pr = 2%nat.
Proof.
  intros stream.
  assert (Hwf : anySession_wf (AnyCmd freshCmdSession)).
  { unfold anySession_wf, cmdSession_wf. simpl. split; [by eexists|lia]. }
  assert (Hlen : (length stream < 4 * 4)%nat) by (vm_compute; lia).
  split; [exact Hwf|]. split; [exact Hlen|].
  destruct (webtransport_pump_terminates clientResize
              (serverWith DefaultConfig (Some shellCommand)) false false
              4%nat stream (AnyCmd freshCmdSession) [] 0%nat Hwf Hlen)
    as (pr & Hrun & _).
  exists pr. split; [exact Hrun|].
  vm_compute in Hrun. injection Hrun as <-. split; reflexivity.
Defined.

(** ** The first frame of a WebTransport stream *)

(** X5.  The size negotiation of [handleWebTransport] reads at most one
    frame, and only a small one.  A first frame of fewer than 1024 bytes
    is consumed whatever it holds: a resize that decodes sets the size
    (clamped like any initial size when the session is created), anything
    else, an input message included, is dropped and the size stays 80x24.
    A first frame announcing 1024 bytes or more is not read: only its
    length prefix is consumed and its body stays on the stream for the
    input pump.  A stream that ends inside the first frame leaves 80x24
    and nothing to read. *)
Theorem webtransport_negotiation_reads_one_small_frame
    (json : list byte → option ResizeMessage) :
  (∀ payload m rest,
     Z.of_nat (length (resizeFrame payload)) < 1024 →
     json payload = Some m →
     initialSizeWebTransport json (writeFramed (resizeFrame payload) ++ rest)
     = ((Cols m, Rows m), rest)) ∧
  (∀ msg rest,
     Z.of_nat (length msg) < 1024 →
     (∀ payload, msg = resizeFrame payload → json payload = None) →
     initialSizeWebTransport json (writeFramed msg ++ rest) = ((80, 24), rest)) ∧
  (∀ lenBuf rest,
     length lenBuf = 4%nat → 1024 ≤ BigEndian_Uint32 lenBuf →
     initialSizeWebTransport json (lenBuf ++ rest) = ((80, 24), rest)) ∧
  (∀ (m : list byte) k,
     Z.of_nat (length m) < 1024 → (k < length (writeFramed m))%nat →
     initialSizeWebTransport json (take k (writeFramed m)) = ((80, 24), [])) ∧
  (∀ os srv payload m rest srv' a rest',
     Z.of_nat (length (resizeFrame payload)) < 1024 →
     json payload = Some m →
     openWebTransportSession json os srv false
       (writeFramed (resizeFrame payload) ++ rest) = (srv', inr a, rest') →
     rest' = rest ∧
     anySession_Pty a =
     {| Pty_Width := if Cols m <=? 0 then 80 else Cols m;
        Pty_Height := if Rows m <=? 0 then 24 else Rows m |}).
Proof.
  split_and!.
  - intros. by apply initialSizeWebTransport_resize.
  - intros msg rest Hlen Hbad. unfold initialSizeWebTransport.
    destruct (ReadFull_framed msg rest) as (lenBuf & -> & ->); [lia|].
    destruct (Z.ltb_spec (Z.of_nat (length msg)) 1024); [|lia].
    rewrite Nat2Z.id, ReadFull_app by done.
    destruct msg as [|t payload]; [done|].
    destruct (decide (t = MsgResize)) as [->|]; [|done].
    by rewrite (Hbad payload).
  - intros. by apply initialSizeWebTransport_ignores_large.
  - intros m k Hm Hk. unfold writeFramed in *. rewrite length_app in Hk.
    rewrite length_PutUint32 in Hk. unfold initialSizeWebTransport.
    destruct (decide (k < 4)%nat) as [Hlt|Hge].
    + unfold ReadFull. rewrite length_take, length_app, length_PutUint32.
      by replace (4 <=? k `min` (4 + length m))%nat with false
        by (symmetry; apply Nat.leb_gt; lia).
    + rewrite take_app_ge by (rewrite length_PutUint32; lia).
      rewrite length_PutUint32, ReadFull_app by done.
      rewrite Uint32_PutUint32, Z.mod_small by lia.
      destruct (Z.ltb_spec (Z.of_nat (length m)) 1024); [|lia].
      rewrite Nat2Z.id. unfold ReadFull. rewrite length_take.
      by replace (length m <=? (k - 4) `min` length m)%nat with false
        by (symmetry; apply Nat.leb_gt; lia).
  - intros os srv payload m rest srv' a rest' Hlen Hj.
    unfold openWebTransportSession.
    rewrite (initialSizeWebTransport_resize json payload m rest Hlen Hj).
    intros [= Hc <-]. split; [done|]. by apply createAnySession_size in Hc.
Qed.

Lemma webtransport_negotiation_reads_one_small_frame_witness :
  (Z.of_nat (length (resizeFrame (resizePayload 100 40))) < 1024 ∧
   clientResize (resizePayload 100 40) = Some {| Cols := 100; Rows := 40 |} ∧
   initialSizeWebTransport clientResize
     (writeFramed (resizeFrame (resizePayload 100 40)) ++ bytes "rest")
   = ((100, 40), bytes "rest")) ∧
  (Z.of_nat (length (inputFrame (bytes "ls"))) < 1024 ∧
   initialSizeWebTransport clientResize
     (writeFramed (inputFrame (bytes "ls")) ++ bytes "rest")
   = ((80, 24), bytes "rest")) ∧
  (length (BigEndian_PutUint32 1024) = 4%nat ∧
   1024 ≤ BigEndian_Uint32 (BigEndian_PutUint32 1024) ∧
   initialSizeWebTransport clientResize
     (BigEndian_PutUint32 1024 ++ bytes "body")
   = ((80, 24), bytes "body")).
Proof.
  pose proof (webtransport_negotiation_reads_one_small_frame clientResize)
    as (Hresize & Hother & Hlarge & _).
  split_and!.
  - vm_compute. reflexivity.
  - reflexivity.
  - apply (Hresize (resizePayload 100 40) {| Cols := 100; Rows := 40 |});
      [vm_compute; reflexivity|reflexivity].
  - vm_compute. reflexivity.
  - apply Hother; [vm_compute; reflexivity|].
    intros payload Heq. vm_compute in Heq. discriminate.
  - reflexivity.
  - vm_compute. discriminate.
  - apply Hlarge; [reflexivity|vm_compute; discriminate].
Defined.

(** ** What a connection leaves behind *)

Lemma createAnySession_open os srv ctx_done c r srv' a :
  createAnySession os srv ctx_done c r = (srv', inr a) →
  anySession_closed a = false.
Proof.
  unfold createAnySession. destruct (cmdHandler srv).
  - destruct (createCmdSession _ _ _ _ _) as [x [e|s]] eqn:E;
      simpl; [congruence|].
    apply createCmdSession_size in E as (_ & _ & _ & _ & Hcl).
    by intros [= _ <-].
  - destruct (createSession _ _ _ _ _ _) as [x [e|s]] eqn:E;
      simpl; [congruence|].
    apply createSession_size in E as (_ & _ & _ & _ & Hcl).
    by intros [= _ <-].
Qed.

Lemma closeFunc_open srv a :
  anySession_closed a = false →
  sessions (closeFunc srv a).1 = delete (anySession_id a) (sessions srv) ∧
  connCount (closeFunc srv a).1 = connCount srv ∧
  config (closeFunc srv a).1 = config srv ∧
  handler (closeFunc srv a).1 = handler srv ∧
  cmdHandler (closeFunc srv a).1 = cmdHandler srv.
Proof.
  destruct a as [s|s]; simpl; intros Hcl;
    unfold closeSession, closeCmdSession; by rewrite Hcl.
Qed.

(** Incrementing and then decrementing an [int32] gives the value
    back, also across the wrap. *)
Lemma wrap_int32_succ z :
  in_int32 z →
  wrap_int32 (z + 1) = (if decide (z = 2 ^ 31 - 1) then - 2 ^ 31 else z + 1).
Proof.
  unfold in_int32, wrap_int32. intros Hz. case_decide as Hmax.
  - by rewrite Hmax.
  - rewrite Z.mod_small; lia.
Qed.

Lemma wrap_int32_succ_pred z :
  in_int32 z → wrap_int32 (wrap_int32 (z + 1) - 1) = z.
Proof.
  intros Hz. rewrite wrap_int32_succ by done. unfold in_int32 in Hz.
  case_decide as Hmax; [by rewrite Hmax|].
  unfold wrap_int32. rewrite Z.mod_small; lia.
Qed.

(** The registry of a connection whose session is [s], as long as the
    other connections hold still: with the session until [closeFunc] has
    run, without it afterwards. *)
Lemma conn_registry json os srv0 cols rows srv s stream acts :
  createCmdSession os srv0 false cols rows = (srv, inr s) →
  let st := Conn.run json acts (Conn.start srv s stream) in
  sessions (Conn.srv st)
  = match Conn.handler_pc st with
    | Conn.HWait | Conn.HCloseFunc => <[cs_id s := CmdKind]> (sessions srv0)
    | _ => delete (cs_id s) (sessions srv0)
    end.
Proof.
  intros Hcreate st.
  pose proof (ConnFacts.conn_start_inv _ _ _ _ _ _ stream Hcreate) as Hinv0.
  pose proof (ConnFacts.conn_run_inv json _ acts _ Hinv0)
    as (_ & _ & _ & _ & _ & _ & Hh).
  pose proof (ConnFacts.conn_run_others json _ srv0 acts _ Hinv0
                (ConnFacts.createCmdSession_others _ _ _ _ _ _ _ Hcreate))
    as (_ & _ & Hothers).
  fold st in Hh, Hothers. unfold Conn.handler_inv in Hh.
  apply map_eq. intros i. destruct (decide (i = cs_id s)) as [->|Hne].
  - destruct (Conn.handler_pc st).
    + destruct Hh as (_ & -> & _). by rewrite lookup_insert_eq.
    + destruct Hh as [(_ & -> & _) _]. by rewrite lookup_insert_eq.
    + destruct Hh as (_ & -> & _). by rewrite lookup_delete_eq.
    + destruct Hh as (_ & -> & _). by rewrite lookup_delete_eq.
    + destruct Hh as (_ & -> & _). by rewrite lookup_delete_eq.
    + destruct Hh as (_ & -> & _). by rewrite lookup_delete_eq.
    + destruct Hh as (_ & -> & _). by rewrite lookup_delete_eq.
  - rewrite (Hothers i Hne).
    destruct (Conn.handler_pc st);
      by rewrite ?lookup_insert_ne, ?lookup_delete_ne.
Qed.

(** X6.  A connection leaves the server as it found it.  In a
    command-mode WebTransport handler, as far as its own calls go (the
    increments and decrements of other handlers commute with them): a
    rejected attempt's increment and decrement cancel, also across the
    wrap-around of the int32 counter, and touch nothing else; for an
    admitted connection the release undoes the increment, a failed
    session creation leaves the server unchanged, and once the session
    exists, in every interleaving of the connection's goroutines: the
    configuration is never touched; while the handler waits, the registry
    is the one it found plus its session and the counter holds the slot;
    the slot is held until the very last statement; and when the handler
    has returned, the counter is back at its value from before the
    attempt and the registry is the one it found minus the id of its
    session, so exactly the one it found when that id was not in use.
    Nothing is said to return: the handler stays in its wait until the
    client closes the WebTransport session. *)
Theorem connection_leaves_server_as_found
    (json : list byte → option ResizeMessage) (srvA : httpServer) :
  in_int32 (connCount srvA) →
  (decrementConnCount (incrementConnCount srvA).1).1 = srvA ∧
  ∀ srv0,
    checkConnectionLimit srvA = (srv0, true) →
    connCount (releaseConnection srv0) = connCount srvA ∧
    sessions srv0 = sessions srvA ∧ config srv0 = config srvA ∧
    (∀ os cols rows srv1 e,
       createCmdSession os srv0 false cols rows = (srv1, inl e) → srv1 = srv0) ∧
    (∀ os cols rows srv s stream acts,
       createCmdSession os srv0 false cols rows = (srv, inr s) →
       let st := Conn.run json acts (Conn.start srv s stream) in
       config (Conn.srv st) = config srvA ∧
       (Conn.handler_pc st = Conn.HWait →
          sessions (Conn.srv st) = <[cs_id s := CmdKind]> (sessions srvA)) ∧
       (Conn.handler_pc st ≠ Conn.HReturned →
          connCount (Conn.srv st) = connCount srv0) ∧
       (Conn.handler_pc st = Conn.HReturned →
          connCount (Conn.srv st) = connCount srvA ∧
          sessions (Conn.srv st) = delete (cs_id s) (sessions srvA) ∧
          (sessions srvA !! cs_id s = None →
           sessions (Conn.srv st) = sessions srvA))).
Proof.
  intros HA. split.
  { unfold decrementConnCount, incrementConnCount. cbn.
    rewrite set_connCount_twice, wrap_int32_succ_pred by done.
    apply set_connCount_same. }
  intros srv0 Hadm.
  pose proof (checkConnectionLimit_frame srvA) as (Hcfg0 & _ & _ & Hs0).
  rewrite Hadm in Hcfg0, Hs0. cbn [fst] in Hcfg0, Hs0.
  assert (Hrel : connCount (releaseConnection srv0) = connCount srvA).
  { revert Hadm. unfold checkConnectionLimit, releaseConnection,
      incrementConnCount, decrementConnCount.
    destruct (Z.leb_spec (MaxConnections (config srvA)) 0) as [H0|HN].
    - intros [= <-]. by destruct (Z.leb_spec (MaxConnections (config srvA)) 0); [|lia].
    - cbn [fst snd]. destruct (_ >? _); [done|]. intros [= <-]. cbn.
      destruct (Z.leb_spec (MaxConnections (config srvA)) 0); [lia|]. cbn.
      by apply wrap_int32_succ_pred. }
  split; [exact Hrel|]. split; [exact Hs0|]. split; [exact Hcfg0|]. split.
  { intros os cols rows srv1 e. unfold createCmdSession.
    destruct (cmdHandler srv0); [|by intros [= <-]].
    destruct (newCmdPlatformPty _ _ _ _); [done|by intros [= <-]]. }
  intros os cols rows srv s stream acts Hcreate st.
  pose proof (conn_registry json _ _ _ _ _ _ stream acts Hcreate) as Hreg.
  cbv zeta in Hreg.
  assert (Hsrv : config srv = config srv0 ∧ connCount srv = connCount srv0).
  { revert Hcreate. unfold createCmdSession.
    destruct (cmdHandler srv0); [|done].
    destruct (newCmdPlatformPty _ _ _ _); [|done]. by intros [= <- _]. }
  destruct Hsrv as [Hcfg Hcnt].
  assert (H0 : slot_inv srv (Conn.start srv s stream)) by (by split).
  destruct (conn_run_slot json srv acts _ H0) as [Hcfg' Hslot].
  fold st in Hcfg', Hslot, Hreg. rewrite Hs0 in Hreg.
  split; [congruence|]. split_and!.
  - intros Hpc. by rewrite Hreg, Hpc.
  - intros Hpc. rewrite <- Hcnt. by destruct (Conn.handler_pc st), Hslot.
  - intros Hpc. rewrite Hpc in Hslot, Hreg. destruct Hslot as [_ Hc].
    split; [|split; [done|]].
    + rewrite Hc, <- Hrel. unfold releaseConnection, decrementConnCount.
      rewrite Hcfg, Hcnt. by destruct (_ <=? 0).
    + intros Hfresh. rewrite Hreg. by apply delete_id.
Qed.

Lemma connection_leaves_server_as_found_witness :
  let srvA := set_connCount (serverWith (limitedConfig 2) (Some shellCommand)) 1 in
  in_int32 (connCount srvA) ∧
  ∃ srv0 srv s,
    checkConnectionLimit srvA = (srv0, true) ∧ connCount srv0 = 2 ∧
    createCmdSession unixEnv srv0 false 80 24 = (srv, inr s) ∧
    let st := Conn.run clientResize Conn.exitSeenByOutput (Conn.start srv s []) in
    Conn.handler_pc st = Conn.HReturned ∧
    connCount (Conn.srv st) = 1 ∧ sessions (Conn.srv st) = ∅.
Proof.
  intros srvA.
  assert (HA : in_int32 (connCount srvA)) by (unfold in_int32; cbn; lia).
  split; [exact HA|]. eexists _, _, _.
  split; [reflexivity|]. split; [reflexivity|]. split; [reflexivity|].
  intros st.
  assert (Hpc : Conn.handler_pc st = Conn.HReturned) by (vm_compute; reflexivity).
  split; [exact Hpc|].
  destruct (connection_leaves_server_as_found clientResize srvA HA) as [_ Hconn].
  destruct (Hconn _ eq_refl) as (_ & _ & _ & _ & Hrun).
  destruct (Hrun unixEnv 80 24 _ _ [] Conn.exitSeenByOutput eq_refl)
    as (_ & _ & _ & Hret).
  destruct (Hret Hpc) as (Hc & _ & Hfresh). split; [exact Hc|].
  apply Hfresh. reflexivity.
Defined.

(** * Further properties of the output pumps *)

Lemma outputFrame_writeFramed chunk :
  outputFrame chunk = writeFramed (outputMessage chunk).
Proof.
  unfold outputFrame, writeFramed, outputMessage. cbn [length].
  by rewrite Nat2Z.inj_succ, <- Z.add_1_r.
Qed.

Lemma copy_fits (dst src : list byte) :
  (length src ≤ length dst)%nat → copy dst src = src ++ drop (length src) dst.
Proof. intros Hle. unfold copy. by rewrite take_ge by lia. Qed.

(** X7.  The pooled buffers are large enough and never leak.  For every
    read the bridge can return (up to [readBufSize] bytes), building the
    output frame in place in a write buffer of [writeBufSize] bytes never
    slices out of range, and what is handed to the stream is exactly the
    4-byte length, the output type byte and the bytes just read, whatever
    the write buffer held before; likewise the WebSocket pump sends the
    type byte followed by the bytes just read, and its buffer still
    starts with the type byte for the next turn.  A write buffer too
    short for the read makes the pump panic: [writeBufSize] must be at
    least [readBufSize + 5], which it is, exactly. *)
Theorem output_buffers_fit_and_do_not_leak :
  writeBufSize = readBufSize + 5 ∧
  (∀ frame buf n,
     Z.of_nat (length frame) = writeBufSize →
     Z.of_nat (length buf) = readBufSize →
     (n ≤ length buf)%nat →
     ∃ frame',
       frameInPlace frame buf n = Ok (frame', outputFrame (take n buf)) ∧
       length frame' = length frame) ∧
  (∀ msg0 buf n,
     Z.of_nat (length msg0) = writeBufSize →
     Z.of_nat (length buf) = readBufSize →
     (n ≤ length buf)%nat →
     ∃ msg msg',
       messageInit msg0 = Ok msg ∧
       messageInPlace msg buf n = Ok (msg', outputMessage (take n buf)) ∧
       length msg' = length msg0 ∧ head msg' = Some MsgOutput) ∧
  (∀ frame buf n,
     (n ≤ length buf)%nat → (length frame < 5 + n)%nat →
     frameInPlace frame buf n = Panic).
Proof.
  unfold writeBufSize, readBufSize. split; [done|]. split_and!.
  - intros frame buf n Hf Hb Hn. unfold frameInPlace, slice_to, slice_from, store_at.
    replace (4 <=? length frame)%nat with true
      by (symmetry; apply Nat.leb_le; lia).
    cbn [mbind result_bind].
    set (frame1 := BigEndian_PutUint32 _ ++ drop 4 frame).
    assert (Hl1 : length frame1 = length frame).
    { unfold frame1. rewrite length_app, length_PutUint32, length_drop. lia. }
    replace (4 <? length frame1)%nat with true
      by (symmetry; apply Nat.ltb_lt; lia).
    cbn [mbind result_bind]. rewrite length_insert.
    replace (5 <=? length frame1)%nat with true
      by (symmetry; apply Nat.leb_le; lia).
    cbn [mbind result_bind].
    replace (n <=? length buf)%nat with true
      by (symmetry; apply Nat.leb_le; lia).
    cbn [mbind result_bind].
    assert (Hhead : take 5 (<[4%nat:=MsgOutput]> frame1)
                    = BigEndian_PutUint32 (Z.of_nat n + 1) ++ [MsgOutput]).
    { unfold frame1.
      rewrite insert_app_r_alt by (rewrite length_PutUint32; lia).
      rewrite length_PutUint32. rewrite take_app_ge by (rewrite length_PutUint32; lia).
      rewrite length_PutUint32. f_equal.
      destruct (drop 4 frame) as [|x rest] eqn:E.
      - apply (f_equal length) in E. rewrite length_drop in E. simpl in E. lia.
      - done. }
    rewrite Hhead.
    rewrite copy_fits
      by (rewrite length_drop, length_insert, length_take; lia).
    rewrite length_take, (Nat.min_l n) by lia.
    set (tl := drop n (drop 5 (<[4%nat:=MsgOutput]> frame1))).
    assert (Hlen3 : length ((BigEndian_PutUint32 (Z.of_nat n + 1) ++ [MsgOutput])
                            ++ take n buf ++ tl) = length frame).
    { unfold tl. rewrite !length_app, length_PutUint32, length_take, !length_drop,
        length_insert, Hl1. cbn [length]. lia. }
    rewrite Hlen3.
    replace (5 + n <=? length frame)%nat with true
      by (symmetry; apply Nat.leb_le; lia).
    cbn [mbind result_bind]. eexists. split; [|exact Hlen3].
    do 2 f_equal. unfold outputFrame.
    rewrite length_take, (Nat.min_l n) by lia.
    rewrite <- !app_assoc. cbn [app].
    change (BigEndian_PutUint32 (Z.of_nat n + 1) ++ MsgOutput :: take n buf ++ tl)
      with ((BigEndian_PutUint32 (Z.of_nat n + 1) ++ MsgOutput :: take n buf) ++ tl).
    apply take_app_length'.
    rewrite length_app, length_PutUint32. cbn [length]. rewrite length_take. lia.
  - intros msg0 buf n Hm Hb Hn. unfold messageInit, messageInPlace, slice_to,
      slice_from, store_at.
    destruct msg0 as [|x rest]; [simpl in Hm; lia|]. cbn [length] in Hm.
    cbn [length Nat.ltb Nat.leb list_insert insert].
    eexists _, _. split; [reflexivity|].
    change (take 1 (MsgOutput :: rest)) with [MsgOutput].
    change (drop 1 (MsgOutput :: rest)) with rest.
    cbn [length mbind result_bind app].
    replace (n <=? length buf)%nat with true
      by (symmetry; apply Nat.leb_le; lia).
    cbn [mbind result_bind].
    rewrite copy_fits by (rewrite length_take; lia).
    rewrite length_take, (Nat.min_l n) by lia.
    replace (n + 1)%nat with (S n) by lia. cbn [take length].
    assert (Hfit : (S n <=? S (length (take n buf ++ drop n rest)))%nat = true).
    { apply Nat.leb_le. rewrite length_app, length_take, length_drop. lia. }
    rewrite Hfit. cbn [mbind result_bind].
    rewrite take_app_length' by (rewrite length_take; lia).
    split; [done|]. split; [|done].
    cbn [length]. rewrite length_app, length_take, length_drop. lia.
  - intros frame buf n Hn Hshort. unfold frameInPlace, slice_to, slice_from,
      store_at.
    destruct (Nat.leb_spec 4 (length frame)); [|done].
    cbn [mbind result_bind].
    set (frame1 := BigEndian_PutUint32 _ ++ drop 4 frame).
    assert (Hl1 : length frame1 = length frame).
    { unfold frame1. rewrite length_app, length_PutUint32, length_drop. lia. }
    destruct (Nat.ltb_spec 4 (length frame1)); [|done].
    cbn [mbind result_bind]. rewrite length_insert.
    replace (5 <=? length frame1)%nat with true
      by (symmetry; apply Nat.leb_le; lia).
    cbn [mbind result_bind].
    replace (n <=? length buf)%nat with true
      by (symmetry; apply Nat.leb_le; lia).
    cbn [mbind result_bind].
    set (frame3 := take 5 _ ++ copy _ _).
    assert (Hl3 : length frame3 = length frame).
    { unfold frame3, copy.
      rewrite !length_app, !length_take, !length_drop, length_insert. lia. }
    rewrite Hl3.
    by replace (5 + n <=? length frame)%nat with false
      by (symmetry; apply Nat.leb_gt; lia).
Qed.

Lemma output_buffers_fit_and_do_not_leak_witness :
  let frame := replicate (Z.to_nat writeBufSize) "x"%byte in
  let buf := bytes "hello" ++ replicate (Z.to_nat readBufSize - 5) "y"%byte in
  Z.of_nat (length frame) = writeBufSize ∧
  Z.of_nat (length buf) = readBufSize ∧
  (5 ≤ length buf)%nat ∧
  (∃ frame', frameInPlace frame buf 5 = Ok (frame', outputFrame (take 5 buf))) ∧
  outputFrame (take 5 buf)
  = [x00; x00; x00; x06; MsgOutput] ++ bytes "hello".
Proof.
  intros frame buf.
  assert (Hf : Z.of_nat (length frame) = writeBufSize) by (vm_compute; reflexivity).
  assert (Hb : Z.of_nat (length buf) = readBufSize) by (vm_compute; reflexivity).
  assert (Hn : (5 ≤ length buf)%nat) by (apply Nat.leb_le; vm_compute; reflexivity).
  split; [exact Hf|]. split; [exact Hb|]. split; [exact Hn|]. split.
  - destruct output_buffers_fit_and_do_not_leak as (_ & Hframe & _).
    destruct (Hframe frame buf 5%nat Hf Hb Hn) as (frame' & Hrun & _).
    exists frame'. exact Hrun.
  - reflexivity.
Defined.

Lemma streamOutput_framing (turns : list outputTurn) :
  streamOutputToWebTransport turns
  = (writeFramed <$> (streamOutputToWebSocket turns).1,
     (streamOutputToWebSocket turns).2).
Proof.
  induction turns as [|t turns IH]; [done|].
  cbn [streamOutputToWebTransport streamOutputToWebSocket].
  unfold outputSelect, outputSelectWS.
  destruct (select_done _ _ _); try done.
  unfold outputRead, outputReadWS.
  destruct (turn_read t) as [|[|b chunk]]; [done| |].
  - rewrite IH. by destruct (streamOutputToWebSocket turns).
  - rewrite outputFrame_writeFramed. destruct (turn_write_ok t); [|done].
    rewrite IH. by destruct (streamOutputToWebSocket turns) as [ws e].
Qed.

(** X8.  The two output pumps send the same messages.  Turn for turn
    on the same bridge reads and done signals, the WebTransport pump
    returns the way the WebSocket pump does, and what it hands to the
    stream is the length-prefixed framing ([writeFramed]) of what the
    WebSocket pump hands to the connection, message by message: the
    frame it builds in place for a chunk is the framing of the output
    message, and the close frame the framing of the close message. *)
Theorem output_pumps_agree_up_to_framing (turns : list outputTurn) :
  streamOutputToWebTransport turns
  = (writeFramed <$> (streamOutputToWebSocket turns).1,
     (streamOutputToWebSocket turns).2).
Proof. apply streamOutput_framing. Qed.

Lemma chunksRead_app ts1 ts2 :
  chunksRead (ts1 ++ ts2) = chunksRead ts1 ++ chunksRead ts2.
Proof. unfold chunksRead. by rewrite omap_app. Qed.

(** A turn on which the pump goes round sends the chunk it read, if
    any, and leaves the rest to the next turns. *)
Lemma streamOutputToWebSocket_goes_on t rest :
  turnGoesOn t = true →
  streamOutputToWebSocket (t :: rest)
  = ((outputMessage <$> chunksRead [t]) ++ (streamOutputToWebSocket rest).1,
     (streamOutputToWebSocket rest).2).
Proof.
  unfold turnGoesOn, chunksRead. intros Hgo.
  apply andb_prop in Hgo as [Hsel Hread]. apply andb_prop in Hsel as [Hc Hs].
  apply negb_true_iff in Hc, Hs.
  cbn [streamOutputToWebSocket]. unfold outputSelectWS. rewrite Hc, Hs.
  cbn [select_done omap list_omap]. unfold outputReadWS.
  destruct (turn_read t) as [|[|b chunk]]; [done| |].
  - by destruct (streamOutputToWebSocket rest).
  - rewrite Hread. by destruct (streamOutputToWebSocket rest).
Qed.

(** The first turn on which it does not go round ends the pump: the
    later turns do not happen. *)
Lemma streamOutputToWebSocket_stops t post :
  turnGoesOn t = false →
  streamOutputToWebSocket (t :: post) = (lastMessages t, Some (turnExit t)).
Proof.
  unfold turnGoesOn, lastMessages, turnExit. intros Hstop.
  cbn [streamOutputToWebSocket]. unfold outputSelectWS, outputReadWS.
  destruct (turn_ctx_done t), (turn_session_done t), (turn_pick_ctx t);
    cbn [select_done negb andb] in *; try done;
    destruct (turn_read t) as [|[|b chunk]]; try done;
    by rewrite Hstop.
Qed.

Lemma streamOutputToWebSocket_prefix pre rest :
  Forall (λ t, turnGoesOn t = true) pre →
  streamOutputToWebSocket (pre ++ rest)
  = ((outputMessage <$> chunksRead pre) ++ (streamOutputToWebSocket rest).1,
     (streamOutputToWebSocket rest).2).
Proof.
  induction 1 as [|t pre Ht _ IH].
  { cbn. by destruct (streamOutputToWebSocket rest). }
  change ((t :: pre) ++ rest) with (t :: (pre ++ rest)).
  rewrite (streamOutputToWebSocket_goes_on t _ Ht), IH. cbn [fst snd].
  change (t :: pre) with ([t] ++ pre).
  by rewrite chunksRead_app, fmap_app, app_assoc.
Qed.

(** X9.  What an output pump sends.  Split the turns of an output pump
    at the first one on which it does not go round (a done signal is
    ready at its [select], the bridge read fails, or the write fails).
    The messages handed to the connection are then exactly: one output
    message for each non-empty chunk read on the turns before it, in the
    order read (an empty read sends nothing; no chunk is dropped,
    repeated or reordered), followed by what that turn hands over:
    nothing when the pump returns on the connection context, the close
    message when it returns because the session is done or the read
    failed, the output message whose write failed otherwise.  The turns
    after it do not happen.  When the pump goes round on every turn it
    has sent the chunks of all of them and is still running.  Every list
    of turns is of one of the two forms, and the WebTransport pump hands
    over the same messages, framed. *)
Theorem output_pump_sends_chunks_then_close :
  (∀ turns,
     Forall (λ t, turnGoesOn t = true) turns →
     streamOutputToWebSocket turns = (outputMessage <$> chunksRead turns, None) ∧
     streamOutputToWebTransport turns = (outputFrame <$> chunksRead turns, None)) ∧
  (∀ pre t post,
     Forall (λ t, turnGoesOn t = true) pre → turnGoesOn t = false →
     streamOutputToWebSocket (pre ++ t :: post)
     = ((outputMessage <$> chunksRead pre) ++ lastMessages t, Some (turnExit t)) ∧
     streamOutputToWebTransport (pre ++ t :: post)
     = ((outputFrame <$> chunksRead pre) ++ (writeFramed <$> lastMessages t),
        Some (turnExit t))) ∧
  (∀ turns,
     Forall (λ t, turnGoesOn t = true) turns ∨
     ∃ pre t post, turns = pre ++ t :: post ∧
                   Forall (λ t, turnGoesOn t = true) pre ∧ turnGoesOn t = false) ∧
  (∀ t, turnGoesOn t = false →
     match turnExit t with
     | OutCtxDone => turn_ctx_done t = true ∧ lastMessages t = []
     | OutSessionDone => turn_session_done t = true ∧ lastMessages t = [closeMessage]
     | OutReadError =>
         turn_ctx_done t = false ∧ turn_session_done t = false ∧
         turn_read t = BridgeErr ∧ lastMessages t = [closeMessage]
     | OutWriteError =>
         turn_ctx_done t = false ∧ turn_session_done t = false ∧
         turn_write_ok t = false ∧
         ∃ b chunk, turn_read t = BridgeData (b :: chunk) ∧
                    lastMessages t = [outputMessage (b :: chunk)]
     end).
Proof.
  assert (Hframes : ∀ cs : list (list byte),
            writeFramed <$> (outputMessage <$> cs) = outputFrame <$> cs).
  { intros cs. rewrite <- list_fmap_compose. apply list_fmap_ext.
    intros i c _. symmetry. exact (outputFrame_writeFramed c). }
  split_and!.
  - intros turns Hgo.
    assert (Hws : streamOutputToWebSocket turns
                  = (outputMessage <$> chunksRead turns, None)).
    { rewrite <- (app_nil_r turns) at 1.
      rewrite (streamOutputToWebSocket_prefix turns [] Hgo). cbn.
      by rewrite app_nil_r. }
    split; [done|]. rewrite streamOutput_framing, Hws. cbn [fst snd].
    by rewrite Hframes.
  - intros pre t post Hgo Hstop.
    assert (Hws : streamOutputToWebSocket (pre ++ t :: post)
                  = ((outputMessage <$> chunksRead pre) ++ lastMessages t,
                     Some (turnExit t))).
    { rewrite (streamOutputToWebSocket_prefix pre _ Hgo).
      by rewrite (streamOutputToWebSocket_stops t post Hstop). }
    split; [done|]. rewrite streamOutput_framing, Hws. cbn [fst snd].
    by rewrite fmap_app, Hframes.
  - induction turns as [|t turns IH]; [by left|].
    destruct (turnGoesOn t) eqn:Ht.
    + destruct IH as [Hall|(pre & t' & post & -> & Hpre & Ht')].
      * left. by constructor.
      * right. exists (t :: pre), t', post. split; [done|]. split; [|done].
        by constructor.
    + right. exists [], t, turns. by split_and!.
  - intros t. unfold turnGoesOn, lastMessages, turnExit.
    destruct (turn_ctx_done t), (turn_session_done t), (turn_pick_ctx t);
      cbn [select_done negb andb]; try done;
      destruct (turn_read t) as [|[|b chunk]]; try done;
      intros ->; split_and!; try done; by eexists _, _.
Qed.

Lemma output_pump_sends_chunks_then_close_witness :
  let going chunk := {| turn_pick_ctx := false; turn_ctx_done := false;
                        turn_session_done := false;
                        turn_read := BridgeData chunk; turn_write_ok := true |} in
  let done_ := {| turn_pick_ctx := false; turn_ctx_done := false;
                  turn_session_done := true;
                  turn_read := BridgeData (bytes "late"); turn_write_ok := true |} in
  let pre := [going (bytes "ab"); going []; going (bytes "c")] in
  Forall (λ t, turnGoesOn t = true) pre ∧ turnGoesOn done_ = false ∧
  streamOutputToWebSocket (pre ++ done_ :: [going (bytes "never")])
  = ([outputMessage (bytes "ab"); outputMessage (bytes "c"); closeMessage],
     Some OutSessionDone) ∧
  streamOutputToWebSocket pre
  = ([outputMessage (bytes "ab"); outputMessage (bytes "c")], None).
Proof.
  intros going done_ pre.
  assert (Hpre : Forall (λ t, turnGoesOn t = true) pre) by (by repeat constructor).
  assert (Hstop : turnGoesOn done_ = false) by reflexivity.
  destruct output_pump_sends_chunks_then_close as (Hall & Hsplit & _ & _).
  split; [exact Hpre|]. split; [exact Hstop|]. split.
  - exact (proj1 (Hsplit pre done_ [going (bytes "never")] Hpre Hstop)).
  - exact (proj1 (Hall pre Hpre)).
Defined.

(** * Further properties of a connection, goroutine by goroutine *)

Lemma teardownCalls_app tr evs :
  teardownCalls (tr ++ evs) = teardownCalls tr ++ teardownCalls evs.
Proof. unfold teardownCalls. by rewrite List.filter_app. Qed.

Lemma teardownCalls_quiet tr evs :
  Conn.no_teardown evs = true → teardownCalls (tr ++ evs) = teardownCalls tr.
Proof.
  intros Hq. rewrite teardownCalls_app.
  replace (teardownCalls evs) with (@nil Conn.event); [by rewrite app_nil_r|].
  induction evs as [|e evs IH]; [done|]. cbn in *.
  apply andb_prop in Hq as [He Hq]. destruct (Conn.is_teardown e); [done|].
  by apply IH.
Qed.

Lemma no_teardown_pump ws :
  Conn.no_teardown ((Conn.EvWrite <$> ws) ++ [Conn.EvConnCancel]) = true.
Proof. by apply ConnFacts.no_teardown_writes. Qed.

Lemma no_teardown_only_writes ws :
  Conn.no_teardown (Conn.EvWrite <$> ws) = true.
Proof.
  rewrite <- (app_nil_r (Conn.EvWrite <$> ws)).
  by apply ConnFacts.no_teardown_writes.
Qed.

Lemma conn_step_teardown json id0 a st st' :
  Conn.inv id0 st → Conn.step json a st = Some st' →
  teardownCalls (Conn.trace st) = teardownSoFar id0 (Conn.handler_pc st) →
  teardownCalls (Conn.trace st') = teardownSoFar id0 (Conn.handler_pc st').
Proof.
  intros (Hp & Hwf & Hid & _ & _ & _ & Hh) Hstep Htr.
  unfold Conn.step in Hstep. rewrite Hp in Hstep.
  destruct a.
  - destruct (Conn.proc_exited st); [done|]. injection Hstep as <-.
    cbn. by rewrite app_nil_r.
  - destruct (Conn.conn_cancelled st); [done|]. injection Hstep as <-.
    cbn. by rewrite app_nil_r.
  - destruct (Conn.wt_done st); [done|]. by injection Hstep as <-.
  - destruct (Conn.proc_exited st && negb (Conn.watcher_done st)); [|done].
    injection Hstep as <-. cbn. by rewrite teardownCalls_quiet.
  - destruct (Conn.out_pc st); try done.
    destruct (outputSelect _ _ _) as [ws [e|]]; injection Hstep as <-; cbn.
    + by rewrite teardownCalls_quiet by apply no_teardown_pump.
    + by rewrite teardownCalls_quiet by apply no_teardown_only_writes.
  - destruct (Conn.out_pc st); try done.
    destruct (outputRead _ _) as [ws [e|]]; injection Hstep as <-; cbn.
    + by rewrite teardownCalls_quiet by apply no_teardown_pump.
    + by rewrite teardownCalls_quiet by apply no_teardown_only_writes.
  - destruct (Conn.in_pc st); try done.
    destruct (select_done _ _ _); injection Hstep as <-; cbn;
      by rewrite ?app_nil_r, ?teardownCalls_quiet.
  - destruct (Conn.in_pc st); try done.
    destruct (readMessage _ _ _ _) as [[e rest l|s' rest l]|];
      injection Hstep as <-; cbn; by rewrite ?app_nil_r, ?teardownCalls_quiet.
  - unfold Conn.handler_inv in Hh.
    destruct (Conn.handler_pc st) eqn:Hpc; try done.
    + destruct (Conn.pumpsReturned st && Conn.wt_done st); [|done].
      injection Hstep as <-. cbn. by rewrite app_nil_r.
    + destruct Hh as [(Hcl & _) _].
      unfold closeCmdSession, Conn.closeCmdSession_events in Hstep.
      rewrite Hcl in Hstep. injection Hstep as <-. cbn.
      rewrite teardownCalls_app, Htr, Hid. done.
    + injection Hstep as <-. cbn. by rewrite teardownCalls_app, Htr.
    + injection Hstep as <-. cbn. by rewrite teardownCalls_app, Htr.
    + injection Hstep as <-. cbn. by rewrite teardownCalls_app, Htr.
    + injection Hstep as <-. cbn. by rewrite teardownCalls_app, Htr.
Qed.

Lemma conn_run_teardown json id0 acts : ∀ st,
  Conn.inv id0 st →
  teardownCalls (Conn.trace st) = teardownSoFar id0 (Conn.handler_pc st) →
  teardownCalls (Conn.trace (Conn.run json acts st))
  = teardownSoFar id0 (Conn.handler_pc (Conn.run json acts st)).
Proof.
  induction acts as [|a acts IH]; intros st Hinv Htr; [done|].
  unfold Conn.run. cbn [foldl].
  destruct (Conn.step json a st) as [st'|] eqn:Hstep; cbn [default].
  - apply IH; [by eapply ConnFacts.conn_step_inv|by eapply conn_step_teardown].
  - by apply IH.
Qed.

(** X10.  The teardown of a connection runs in one order.  In every
    interleaving of the goroutines of a command-mode WebTransport
    connection (watcher, output pump, input pump, handler) with the
    command, the client and the bridge, the teardown calls made so far
    are a prefix of: close the PTY and kill the command, delete the
    session from the registry, close the stream, close the WebTransport
    session, release the admission slot; how long a prefix depends only
    on where the handler stands.  Each call is made at most once, none
    before both pumps have returned, and the admission slot is released
    last, after the session's resources are gone. *)
Theorem teardown_runs_in_one_order
    (json : list byte → option ResizeMessage) os srv0 cols rows srv s stream acts :
  createCmdSession os srv0 false cols rows = (srv, inr s) →
  let st := Conn.run json acts (Conn.start srv s stream) in
  teardownCalls (Conn.trace st) = teardownSoFar (cs_id s) (Conn.handler_pc st) ∧
  (teardownCalls (Conn.trace st) ≠ [] → Conn.pumpsReturned st = true) ∧
  (Conn.handler_pc st = Conn.HReturned →
     teardownCalls (Conn.trace st)
     = [Conn.EvPlatformClose; Conn.EvRegistryDelete (cs_id s);
        Conn.EvStreamClose; Conn.EvWtSessionClose; Conn.EvRelease]).
Proof.
  intros Hcreate st.
  pose proof (ConnFacts.conn_start_inv _ _ _ _ _ _ stream Hcreate) as Hinv0.
  pose proof (ConnFacts.conn_run_inv json _ acts _ Hinv0) as Hinv.
  pose proof (conn_run_teardown json _ acts _ Hinv0 eq_refl) as Htr.
  fold st in Hinv, Htr. split; [exact Htr|]. split.
  - rewrite Htr. destruct Hinv as (_ & _ & _ & _ & _ & _ & Hh).
    unfold Conn.handler_inv in Hh.
    destruct (Conn.handler_pc st); try done;
      by destruct Hh as (_ & _ & _ & _ & ?).
  - intros Hpc. by rewrite Htr, Hpc.
Qed.

Lemma teardown_runs_in_one_order_witness :
  ∃ srv s,
    createCmdSession unixEnv (serverWith DefaultConfig (Some shellCommand))
      false 80 24 = (srv, inr s) ∧
    let st := Conn.run clientResize Conn.exitSeenByOutput (Conn.start srv s []) in
    Conn.handler_pc st = Conn.HReturned ∧
    teardownCalls (Conn.trace st)
    = [Conn.EvPlatformClose; Conn.EvRegistryDelete (cs_id s);
       Conn.EvStreamClose; Conn.EvWtSessionClose; Conn.EvRelease].
Proof.
  eexists _, _. split; [reflexivity|]. intros st.
  assert (Hpc : Conn.handler_pc st = Conn.HReturned) by reflexivity.
  split; [exact Hpc|].
  refine (proj2 (proj2 (teardown_runs_in_one_order clientResize unixEnv
                          (serverWith DefaultConfig (Some shellCommand))
                          80 24 _ _ [] Conn.exitSeenByOutput eq_refl)) Hpc).
Defined.

(** ** What the client is sent *)

(** One step of a connection adds to the frames written the output frame
    of the chunk it read, if it is a read of a non-empty chunk, and the
    close frame if the output pump returns with one. *)
Lemma conn_step_writes json (w0 : list byte) a st st' cs :
  Conn.step json a st = Some st' →
  Conn.writes (Conn.trace st)
  = w0 :: (outputFrame <$> cs) ++ closeWritten (Conn.out_pc st) →
  Conn.writes (Conn.trace st')
  = w0 :: (outputFrame <$>
             cs ++ match a with
                   | Conn.OutRead (BridgeData (b :: chunk)) _ => [b :: chunk]
                   | _ => []
                   end) ++ closeWritten (Conn.out_pc st').
Proof.
  intros Hstep Hw. unfold Conn.step in Hstep.
  destruct (Conn.panicked st); [done|].
  assert (Hquiet : ∀ evs, Conn.no_write evs = true →
            Conn.writes (Conn.trace st ++ evs)
            = w0 :: (outputFrame <$> cs ++ []) ++ closeWritten (Conn.out_pc st)).
  { intros evs Hq. rewrite ConnFacts.writes_app.
    rewrite (ConnFacts.writes_no_write evs) by done. by rewrite !app_nil_r. }
  destruct a.
  - destruct (Conn.proc_exited st); [done|]. injection Hstep as <-. cbn.
    by apply Hquiet.
  - destruct (Conn.conn_cancelled st); [done|]. injection Hstep as <-. cbn.
    by apply Hquiet.
  - destruct (Conn.wt_done st); [done|]. injection Hstep as <-. cbn.
    by rewrite app_nil_r.
  - destruct (Conn.proc_exited st && negb (Conn.watcher_done st)); [|done].
    injection Hstep as <-. cbn. by apply Hquiet.
  - destruct (Conn.out_pc st) eqn:Ho; try done. unfold outputSelect in Hstep.
    cbn [closeWritten] in Hw. rewrite app_nil_r in Hw.
    destruct (select_done _ _ _); injection Hstep as <-; cbn;
      rewrite !ConnFacts.writes_app, Hw; cbn; by rewrite ?app_nil_r.
  - destruct (Conn.out_pc st) eqn:Ho; try done. unfold outputRead in Hstep.
    cbn [closeWritten] in Hw. rewrite app_nil_r in Hw.
    destruct r as [|[|b chunk]].
    + injection Hstep as <-. cbn.
      rewrite !ConnFacts.writes_app, Hw. cbn. by rewrite !app_nil_r.
    + injection Hstep as <-. cbn.
      rewrite !ConnFacts.writes_app, Hw. cbn. by rewrite !app_nil_r.
    + destruct write_ok; injection Hstep as <-; cbn;
        rewrite !ConnFacts.writes_app, Hw, fmap_app; cbn;
        by rewrite ?app_nil_r, <- ?app_assoc.
  - destruct (Conn.in_pc st); try done.
    destruct (select_done _ _ _); injection Hstep as <-; cbn; by apply Hquiet.
  - destruct (Conn.in_pc st); try done.
    destruct (readMessage _ _ _ _) as [[e rest l|s' rest l]|];
      injection Hstep as <-; cbn; try by apply Hquiet.
    by rewrite app_nil_r.
  - destruct (Conn.handler_pc st); try done.
    + destruct (Conn.pumpsReturned st && Conn.wt_done st); [|done].
      injection Hstep as <-. cbn. by apply Hquiet.
    + destruct (closeCmdSession _ _) as [srv' s']. injection Hstep as <-. cbn.
      apply Hquiet. unfold Conn.closeCmdSession_events.
      by destruct (cs_closed _).
    + injection Hstep as <-. cbn. by apply Hquiet.
    + injection Hstep as <-. cbn. by apply Hquiet.
    + injection Hstep as <-. cbn. by apply Hquiet.
    + injection Hstep as <-. cbn. by apply Hquiet.
Qed.

Lemma conn_run_writes json (w0 : list byte) acts : ∀ st cs,
  Conn.writes (Conn.trace st)
  = w0 :: (outputFrame <$> cs) ++ closeWritten (Conn.out_pc st) →
  Conn.writes (Conn.trace (Conn.run json acts st))
  = w0 :: (outputFrame <$> cs ++ chunksOfRun json acts st) ++
    closeWritten (Conn.out_pc (Conn.run json acts st)).
Proof.
  induction acts as [|a acts IH]; intros st cs Hw.
  { cbn. by rewrite app_nil_r. }
  unfold Conn.run. cbn [foldl chunksOfRun].
  destruct (Conn.step json a st) as [st'|] eqn:Hstep; cbn [default].
  - rewrite app_assoc. apply IH. by eapply conn_step_writes.
  - by apply IH.
Qed.

Lemma chunksOfRun_nonempty json acts : ∀ st,
  Forall (λ c : list byte, c ≠ []) (chunksOfRun json acts st).
Proof.
  induction acts as [|a acts IH]; intros st; [constructor|].
  cbn [chunksOfRun]. destruct (Conn.step json a st) as [st'|]; [|apply IH].
  apply Forall_app. split; [|apply IH].
  destruct a as [| | | | |[|[|b chunk]] ok| | |]; by repeat constructor.
Qed.

(** X11.  What a client is sent, in every interleaving.  Whatever the
    goroutines of a command-mode WebTransport connection, the command,
    the client and the bridge do, the frames written to the stream are
    exactly: first the options frame (which tells the client whether the
    server is read-only), then the output frame of every non-empty chunk
    the output pump has read from the bridge in that schedule, one frame
    per read and in the order of the reads, and last, if the output pump
    has returned because the session was done or its read failed, the
    close frame.  An empty read sends nothing; the input pump, the
    watcher and the handler write nothing, and nothing is written after
    the close frame. *)
Theorem client_is_sent_options_output_close
    (json : list byte → option ResizeMessage) srv s stream acts :
  let st0 := Conn.start srv s stream in
  let st := Conn.run json acts st0 in
  Conn.writes (Conn.trace st)
  = writeFramed (optionsMessage srv) ::
    (outputFrame <$> chunksOfRun json acts st0) ++ closeWritten (Conn.out_pc st) ∧
  Forall (λ c : list byte, c ≠ []) (chunksOfRun json acts st0) ∧
  (∀ a, chunksOfRun json (acts ++ [a]) st0
        = chunksOfRun json acts st0 ++
          match a, Conn.out_pc st, Conn.panicked st with
          | Conn.OutRead (BridgeData (b :: chunk)) _, Conn.OutReading, false =>
              [b :: chunk]
          | _, _, _ => []
          end).
Proof.
  intros st0 st. split_and!.
  - apply (conn_run_writes json _ acts st0 []). done.
  - apply chunksOfRun_nonempty.
  - intros a. subst st. generalize st0. clear st0.
    induction acts as [|a' acts IH]; intros st0.
    + cbn [app chunksOfRun Conn.run foldl]. rewrite app_nil_r.
      unfold Conn.step.
      destruct (Conn.panicked st0).
      { by destruct a as [| | | | |[|[|??]] ?| | |], (Conn.out_pc st0). }
      destruct a as [| | | | |r ok| | |].
      all: try (by repeat (match goal with
                | |- context [match ?x with _ => _ end] => destruct x
                end; cbn; try done)).
      destruct (Conn.out_pc st0); [by destruct r as [|[|??]]| |by destruct r as [|[|??]]].
      destruct r as [|[|b chunk]]; [done|done|]. cbn. by destruct ok.
    + cbn [app chunksOfRun]. unfold Conn.run. cbn [foldl].
      destruct (Conn.step json a' st0) as [st'|]; cbn [default].
      * rewrite <- app_assoc. f_equal. apply IH.
      * apply IH.
Qed.

(** * Further properties of sessions *)

Lemma webSession_burst_program (rs : list (Z * Z)) :
  ∀ s : webSession,
    is_Some (ws_program s) →
    webSession_sent (resizeBurst s rs) = webSession_sent s ++ (windowSize <$> rs).
Proof.
  induction rs as [|[c r] rs IH]; intros s [p Hp].
  { cbn. by rewrite app_nil_r. }
  change (resizeBurst s ((c, r) :: rs))
    with (resizeBurst (webSession_Resize s c r) rs).
  rewrite IH by (cbn; rewrite Hp; by eexists).
  unfold webSession_sent. cbn. rewrite Hp. cbn. by rewrite <- app_assoc.
Qed.

Lemma webSession_burst_platform (rs : list (Z * Z)) :
  ∀ (s : webSession) p,
    ws_platform s = Some p →
    ∃ p', ws_platform (resizeBurst s rs) = Some p' ∧
          pp_backend p' = pp_backend p ∧
          pp_size p' = match pp_backend p with
                       | UnixBackend => from_option Some (pp_size p) (last rs)
                       | WindowsBackend => pp_size p
                       end.
Proof.
  induction rs as [|[c r] rs IH]; intros s p Hp.
  { exists p. split; [done|]. split; [done|]. by destruct (pp_backend p). }
  change (resizeBurst s ((c, r) :: rs))
    with (resizeBurst (webSession_Resize s c r) rs).
  destruct (IH (webSession_Resize s c r) (platformPty_Resize p c r))
    as (p' & -> & Hb & Hs).
  { cbn. by rewrite Hp. }
  exists p'. split; [done|]. rewrite Hb, Hs. unfold platformPty_Resize.
  destruct (pp_backend p) eqn:Hbe; cbn; rewrite ?Hbe; [|done]. split; [done|].
  destruct rs as [|cr rs]; [done|]. rewrite last_cons_cons.
  destruct (last (cr :: rs)) eqn:E; [done|]. by apply last_None in E.
Qed.

Lemma cmdSession_burst_platform (rs : list (Z * Z)) :
  ∀ (s : cmdSession) p,
    cs_platform s = Some p →
    cmdSession_ptySize (resizeBurst s rs)
    = Some (default (cpp_size p) (last rs)).
Proof.
  induction rs as [|[c r] rs IH]; intros s p Hp.
  { unfold cmdSession_ptySize. cbn. by rewrite Hp. }
  change (resizeBurst s ((c, r) :: rs))
    with (resizeBurst (cmdSession_Resize s c r) rs).
  rewrite (IH (cmdSession_Resize s c r) (cmdPlatformPty_Resize p c r))
    by (cbn; by rewrite Hp).
  cbn. destruct rs as [|cr rs]; [done|]. rewrite last_cons_cons.
  destruct (last (cr :: rs)) eqn:E; [done|]. by apply last_None in E.
Qed.

(** X12.  Where a resize goes.  Every [Resize] of an embedded session
    is sent to its program as a window-size message: after any burst the
    program has been sent all of its sizes, in order, none dropped, unlike
    the capacity-1 notification channel.  The terminal of the operating
    system is resized to the last size of the burst on the Unix build and
    for command sessions; on the Windows build the embedded session's
    bridge is a pair of pipes, [newPlatformPty] ignores the size and
    cannot fail, and a resize never reaches it. *)
Theorem resize_reaches_program_and_terminal :
  (∀ (s : webSession) rs,
     is_Some (ws_program s) →
     webSession_sent (resizeBurst s rs) = webSession_sent s ++ (windowSize <$> rs)) ∧
  (∀ (s : webSession) p cr rs,
     ws_platform s = Some p → pp_backend p = UnixBackend →
     webSession_ptySize (resizeBurst s (rs ++ [cr])) = Some cr) ∧
  (∀ (s : webSession) p rs,
     ws_platform s = Some p → pp_backend p = WindowsBackend →
     webSession_ptySize (resizeBurst s rs) = webSession_ptySize s) ∧
  (∀ (s : cmdSession) p cr rs,
     cs_platform s = Some p →
     cmdSession_ptySize (resizeBurst s (rs ++ [cr])) = Some cr) ∧
  (∀ pty_ok cols rows,
     newPlatformPty WindowsBackend pty_ok cols rows
     = Some {| pp_backend := WindowsBackend; pp_size := None;
               pp_written := []; pp_closes := 0 |}) ∧
  (∀ cols rows,
     pp_size <$> newPlatformPty UnixBackend true cols rows = Some (Some (cols, rows))).
Proof.
  split_and!.
  - intros s rs Hp. by apply webSession_burst_program.
  - intros s p cr rs Hp Hbe.
    destruct (webSession_burst_platform (rs ++ [cr]) s p Hp) as (p' & Hp' & _ & Hs).
    unfold webSession_ptySize. rewrite Hp'. cbn. rewrite Hs, Hbe.
    by rewrite last_snoc.
  - intros s p rs Hp Hbe.
    destruct (webSession_burst_platform rs s p Hp) as (p' & Hp' & _ & Hs).
    unfold webSession_ptySize. rewrite Hp', Hp. cbn. by rewrite Hs, Hbe.
  - intros s p cr rs Hp.
    rewrite (cmdSession_burst_platform _ s p Hp). by rewrite last_snoc.
  - done.
  - done.
Qed.

Lemma resize_reaches_program_and_terminal_witness :
  is_Some (ws_program freshWebSession) ∧
  webSession_sent (resizeBurst freshWebSession [(100, 40); (120, 50); (90, 30)])
  = [{| Width := 100; Height := 40 |}; {| Width := 120; Height := 50 |};
     {| Width := 90; Height := 30 |}] ∧
  webSession_ptySize (resizeBurst freshWebSession ([(100, 40); (120, 50)] ++ [(90, 30)]))
  = Some (90, 30).
Proof.
  destruct resize_reaches_program_and_terminal as (Hsent & Hunix & _).
  assert (Hp : is_Some (ws_program freshWebSession)) by (by eexists).
  split; [exact Hp|]. split.
  - rewrite (Hsent freshWebSession _ Hp). reflexivity.
  - eapply (Hunix freshWebSession); reflexivity.
Defined.

(** ** Session ids *)

(** X13.  Session ids are creation times.  The id of a session is the
    decimal numeral of the clock reading at its creation, so two sessions
    created at different clock readings have different ids and both stay
    registered, each under its own kind, until closed.  Two sessions
    created at the same clock reading share one id: the second [Store]
    replaces the first session's registry entry, and closing either of
    them leaves neither registered. *)
Theorem session_ids_are_creation_times os1 os2 srv0 ctx1 ctx2 c1 r1 c2 r2
    srv1 srv2 a1 a2 :
  createAnySession os1 srv0 ctx1 c1 r1 = (srv1, inr a1) →
  createAnySession os2 srv1 ctx2 c2 r2 = (srv2, inr a2) →
  anySession_id a1 = pretty (os_now os1) ∧
  anySession_id a2 = pretty (os_now os2) ∧
  (os_now os1 ≠ os_now os2 →
     anySession_id a1 ≠ anySession_id a2 ∧
     is_Some (sessions srv2 !! anySession_id a1) ∧
     is_Some (sessions srv2 !! anySession_id a2) ∧
     is_Some (sessions (closeFunc srv2 a2).1 !! anySession_id a1) ∧
     sessions (closeFunc srv2 a2).1 !! anySession_id a2 = None) ∧
  (os_now os1 = os_now os2 →
     anySession_id a1 = anySession_id a2 ∧
     sessions (closeFunc srv2 a2).1 !! anySession_id a1 = None ∧
     sessions (closeFunc srv2 a1).1 !! anySession_id a2 = None).
Proof.
  intros H1 H2.
  pose proof (createAnySession_open _ _ _ _ _ _ _ H1) as Ho1.
  pose proof (createAnySession_open _ _ _ _ _ _ _ H2) as Ho2.
  pose proof (createAnySession_inr _ _ _ _ _ _ _ H1)
    as (_ & Hid1 & _ & _ & Hcmd1 & _ & k1 & Hs1).
  pose proof (createAnySession_inr _ _ _ _ _ _ _ H2)
    as (_ & Hid2 & _ & _ & Hcmd2 & _ & k2 & Hs2).
  unfold session_id in *. split; [done|]. split; [done|].
  destruct (closeFunc_open srv2 a2 Ho2) as (Hc2 & _).
  destruct (closeFunc_open srv2 a1 Ho1) as (Hc1 & _).
  split.
  - intros Hne.
    assert (Hidne : anySession_id a1 ≠ anySession_id a2).
    { rewrite Hid1, Hid2. intros Heq. by apply (inj pretty) in Heq. }
    split; [done|]. rewrite Hc2, Hs2, Hs1, Hid1, Hid2 in *.
    rewrite lookup_insert_ne, !lookup_insert_eq by done.
    rewrite lookup_delete_ne, lookup_insert_ne, lookup_insert_eq by done.
    rewrite lookup_delete_eq. by split_and!.
  - intros Heq. rewrite Hc2, Hc1, Hid1, Hid2, Heq. split; [done|].
    by rewrite !lookup_delete_eq.
Qed.

Lemma session_ids_are_creation_times_witness :
  let later := {| os_backend := UnixBackend; os_pty_ok := true;
                  os_start_ok := true; os_now := os_now unixEnv + 1 |} in
  let srv0 := serverWith DefaultConfig (Some shellCommand) in
  ∃ srv1 srv2 a1 a2,
    createAnySession unixEnv srv0 false 80 24 = (srv1, inr a1) ∧
    createAnySession later srv1 false 80 24 = (srv2, inr a2) ∧
    anySession_id a1 ≠ anySession_id a2 ∧
    is_Some (sessions (closeFunc srv2 a2).1 !! anySession_id a1).
Proof.
  intros later srv0. eexists _, _, _, _.
  split; [reflexivity|]. split; [reflexivity|].
  destruct (session_ids_are_creation_times unixEnv later srv0 false false
              80 24 80 24 _ _ _ _ eq_refl eq_refl) as (_ & _ & Hne & _).
  destruct Hne as (H1 & _ & _ & H2 & _); [vm_compute; discriminate|].
  split; [exact H1 | exact H2].
Defined.

(** * Further properties of the public server *)

(** X14.  [NewServer] fills in the defaults.  The configuration a
    server keeps never has an empty host or port: an empty host becomes
    localhost and an empty port 7681, each independently; a host or port
    that is given, and every other field, is kept as it is.  Normalising
    twice changes nothing more, the default configuration is already
    normal, and the zero configuration becomes localhost:7681.  The
    logger is switched to debug level exactly when [Debug] is set. *)
Theorem NewServer_fills_defaults (c : Config) :
  let c' := (NewServer c).1 in
  Host c' ≠ "" ∧ Port c' ≠ "" ∧
  (Host c ≠ "" → Host c' = Host c) ∧ (Host c = "" → Host c' = "localhost") ∧
  (Port c ≠ "" → Port c' = Port c) ∧ (Port c = "" → Port c' = "7681") ∧
  ReadOnly c' = ReadOnly c ∧ MaxConnections c' = MaxConnections c ∧
  IdleTimeout c' = IdleTimeout c ∧ AllowOrigins c' = AllowOrigins c ∧
  Debug c' = Debug c ∧
  (NewServer c' ).1 = c' ∧
  (NewServer DefaultConfig).1 = DefaultConfig ∧
  ((NewServer c).2 = Some LDebug ↔ Debug c = true).
Proof.
  unfold NewServer. cbn [fst snd].
  destruct (decide (Host c = "")) as [Hh|Hh];
    destruct (decide (Port c = "")) as [Hp|Hp]; cbn; rewrite ?Hh, ?Hp;
    repeat case_decide; try done; cbn;
    (split_and!; try done; try (destruct (Debug c); split; done)).
Qed.

(** ** The two modes *)

(** X15.  The mode of a server is fixed when it is built.  A server
    built by [newHTTPServer] (Serve, ServeWithProgram) starts with an
    empty registry and a zero counter and creates only embedded sessions,
    each registered under its id; one built by [newCmdHTTPServer]
    (ServeCommand) creates only command sessions, and never calls the
    program handler, which is nil in that mode.  With the default program
    handler a [Handler] that returns a nil model makes session creation
    fail and leaves the registry as it was. *)
Theorem server_mode_is_fixed_at_construction (cfg : Config) :
  (∀ h, sessions (newHTTPServer cfg h) = ∅ ∧ connCount (newHTTPServer cfg h) = 0) ∧
  (∀ cmd u, sessions (newCmdHTTPServer cfg cmd u) = ∅ ∧
            connCount (newCmdHTTPServer cfg cmd u) = 0) ∧
  (∀ h os ctx c r srv' a,
     createAnySession os (newHTTPServer cfg h) ctx c r = (srv', inr a) →
     ∃ s, a = AnyWeb s ∧ sessions srv' = {[ ws_id s := WebKind ]}) ∧
  (∀ cmd u os ctx c r srv' a,
     createAnySession os (newCmdHTTPServer cfg cmd u) ctx c r = (srv', inr a) →
     ∃ s, a = AnyCmd s ∧ sessions srv' = {[ cs_id s := CmdKind ]}) ∧
  (∀ cmd u1 u2 os ctx c r,
     (createAnySession os (newCmdHTTPServer cfg cmd u1) ctx c r).2
     = (createAnySession os (newCmdHTTPServer cfg cmd u2) ctx c r).2 ∧
     sessions (createAnySession os (newCmdHTTPServer cfg cmd u1) ctx c r).1
     = sessions (createAnySession os (newCmdHTTPServer cfg cmd u2) ctx c r).1) ∧
  (∀ (h : Handler) os ctx c r,
     (∀ s, h s = false) →
     os_backend os = WindowsBackend ∨ os_pty_ok os = true →
     createAnySession os (newHTTPServer cfg (newDefaultProgramHandler h)) ctx c r
     = (newHTTPServer cfg (newDefaultProgramHandler h), inl ErrNilProgram)).
Proof.
  split_and!; try done.
  - intros h os ctx c r srv' a. unfold createAnySession, createSession. cbn.
    destruct (newPlatformPty _ _ _ _); [|simpl; congruence].
    destruct (h _); simpl; [|congruence].
    intros [= <- <-]. eexists. split; [reflexivity|]. cbn.
    by rewrite insert_empty.
  - intros cmd u os ctx c r srv' a. unfold createAnySession, createCmdSession. cbn.
    destruct (newCmdPlatformPty _ _ _ _); simpl; [|congruence].
    intros [= <- <-]. eexists. split; [reflexivity|]. cbn.
    by rewrite insert_empty.
  - intros cmd u1 u2 os ctx c r. unfold createAnySession, createCmdSession. cbn.
    by destruct (newCmdPlatformPty _ _ _ _).
  - intros h os ctx c r Hnil Hpty. unfold createAnySession, createSession. cbn.
    unfold newDefaultProgramHandler, newPlatformPty.
    destruct Hpty as [-> | ->]; [|destruct (os_backend os)]; by rewrite Hnil.
Qed.

(** ** MakeOptions *)

Lemma hasPrefixN_prefix (p e : string) :
  hasPrefixN (String.length p) p e = String.prefix p e.
Proof.
  unfold hasPrefixN.
  destruct (String.prefix p e) eqn:Hpre.
  - pose proof (proj1 (String.prefix_correct p e) Hpre) as Hsub.
    rewrite bool_decide_eq_true_2 by done. rewrite andb_true_r.
    apply Nat.leb_le. clear Hsub. revert e Hpre.
    induction p as [|c p IH]; intros e Hpre; cbn; [lia|].
    destruct e as [|c' e]; cbn in *; [done|].
    destruct (Ascii.ascii_dec c c'); [|done]. apply IH in Hpre. lia.
  - destruct (Nat.leb_spec (String.length p) (String.length e)); [|done].
    cbn. apply bool_decide_eq_false_2. intros Hsub.
    apply String.prefix_correct in Hsub. congruence.
Qed.

Lemma hasPrefix_TERM e : hasPrefixN 5 "TERM=" e = String.prefix "TERM=" e.
Proof. exact (hasPrefixN_prefix "TERM=" e). Qed.

Lemma hasPrefix_COLORTERM e :
  hasPrefixN 10 "COLORTERM=" e = String.prefix "COLORTERM=" e.
Proof. exact (hasPrefixN_prefix "COLORTERM=" e). Qed.

Lemma filterEnviron_filter environ :
  filterEnviron environ = List.filter keptEnv environ.
Proof.
  unfold filterEnviron.
  assert (Hgen : ∀ acc,
    foldl (λ envs e,
             if hasPrefixN 5 "TERM=" e then envs
             else if hasPrefixN 10 "COLORTERM=" e then envs
             else envs ++ [e]) acc environ
    = acc ++ List.filter keptEnv environ).
  { induction environ as [|e environ IH]; intros acc; cbn [foldl List.filter].
    { by rewrite app_nil_r. }
    rewrite IH. unfold keptEnv at 2.
    rewrite hasPrefix_TERM, hasPrefix_COLORTERM.
    destruct (String.prefix "TERM=" e); cbn [negb andb]; [done|].
    destruct (String.prefix "COLORTERM=" e); cbn [negb andb]; [done|].
    by rewrite <- app_assoc. }
  apply Hgen.
Qed.

(** X16.  [MakeOptions] pins the terminal type.  The environment it
    gives the program is the process environment, in order, without the
    entries that set TERM or COLORTERM, followed by TERM=xterm-256color
    and COLORTERM=truecolor: these two are its only entries for the two
    variables, whatever the process inherited, and every other entry
    (TERMINFO, TERM_PROGRAM and the like included) is kept.  Its message
    filter turns a suspend message into a resume message and passes every
    other message unchanged, so the program never sees a suspend. *)
Theorem MakeOptions_pins_terminal_environment (environ : list string) (pty : Pty)
    (ptySlave : option osFile) :
  let o := MakeOptions environ pty ptySlave in
  po_environment o
  = List.filter keptEnv environ ++ ["TERM=xterm-256color"; "COLORTERM=truecolor"] ∧
  (∀ e, e ∈ po_environment o → String.prefix "TERM=" e = true →
        e = "TERM=xterm-256color") ∧
  (∀ e, e ∈ po_environment o → String.prefix "COLORTERM=" e = true →
        e = "COLORTERM=truecolor") ∧
  (∀ e, e ∈ environ → keptEnv e = true → e ∈ po_environment o) ∧
  last (po_environment o) = Some "COLORTERM=truecolor" ∧
  po_filter o SuspendMsg = ResumeMsg ∧
  (∀ m, m ≠ SuspendMsg → po_filter o m = m) ∧
  (∀ m, po_filter o m ≠ SuspendMsg).
Proof.
  intros o.
  assert (Henv : po_environment o
                 = List.filter keptEnv environ ++
                   ["TERM=xterm-256color"; "COLORTERM=truecolor"]).
  { unfold o, MakeOptions. cbn. by rewrite filterEnviron_filter. }
  assert (Hin : ∀ e, e ∈ po_environment o →
                     (e ∈ environ ∧ keptEnv e = true) ∨
                     e = "TERM=xterm-256color" ∨ e = "COLORTERM=truecolor").
  { intros e. rewrite Henv, elem_of_app, list_elem_of_In, List.filter_In,
      <- list_elem_of_In. intros [[? ?]|Hl]; [by left|right].
    apply elem_of_cons in Hl as [->|Hl]; [by left|].
    apply list_elem_of_singleton in Hl as ->. by right. }
  split_and!.
  - exact Henv.
  - intros e He Hp. destruct (Hin e He) as [[_ Hk]|[->| ->]]; [|done|done].
    unfold keptEnv in Hk. by rewrite Hp in Hk.
  - intros e He Hp. destruct (Hin e He) as [[_ Hk]|[->| ->]]; [|done|done].
    unfold keptEnv in Hk. rewrite Hp in Hk. by destruct (String.prefix "TERM=" e).
  - intros e He Hk. rewrite Henv, elem_of_app. left.
    rewrite list_elem_of_In, List.filter_In, <- list_elem_of_In. done.
  - rewrite Henv.
    change ["TERM=xterm-256color"; "COLORTERM=truecolor"]
      with (["TERM=xterm-256color"] ++ ["COLORTERM=truecolor"]).
    by rewrite app_assoc, last_snoc.
  - done.
  - intros m Hm. by destruct m.
  - intros m. by destruct m.
Qed.

(** X17.  What the program of an embedded session is given.  For a
    session as [createSession] builds it, [MakeOptions] does not panic;
    the window size it sets is the session's size, that is the initial
    size with each non-positive dimension replaced by its default; and
    the program's input and output are the same file: the slave of the
    pty on the Unix build, and nil on the Windows build, where the bridge
    is a pair of pipes and [SlaveFile] returns no file. *)
Theorem program_is_given_size_and_slave_file (environ : list string)
    os srv ctx h c r srv' (s : webSession) :
  createSession os srv ctx h c r = (srv', inr s) →
  ∃ o, MakeOptions_session environ s = Ok o ∧
       po_windowSize o = (if c <=? 0 then 80 else c, if r <=? 0 then 24 else r) ∧
       po_output o = po_input o ∧
       po_input o = match os_backend os with
                    | UnixBackend => Some PtySlaveFile
                    | WindowsBackend => None
                    end.
Proof.
  intros Hc. pose proof (createSession_size _ _ _ _ _ _ _ _ Hc) as (Hcols & Hrows & _).
  unfold createSession in Hc.
  destruct (newPlatformPty _ _ _ _) as [p|] eqn:Hp; [|discriminate].
  destruct (h _) as [prog|]; [|discriminate].
  injection Hc as _ <-. unfold MakeOptions_session, webSession_PtySlave. cbn.
  eexists. split; [reflexivity|]. cbn. split; [done|]. split; [done|].
  unfold newPlatformPty in Hp. unfold platformPty_SlaveFile.
  destruct (os_backend os); [destruct (os_pty_ok os)|]; by simplify_eq.
Qed.

Lemma program_is_given_size_and_slave_file_witness :
  let windows := {| os_backend := WindowsBackend; os_pty_ok := true;
                    os_start_ok := true; os_now := os_now unixEnv |} in
  (∃ srv' s o,
     createSession unixEnv (serverWith DefaultConfig None) false someProgram 0 40
     = (srv', inr s) ∧
     MakeOptions_session ["TERM=dumb"; "HOME=/root"] s = Ok o ∧
     po_windowSize o = (80, 40) ∧ po_input o = Some PtySlaveFile ∧
     po_environment o
     = ["HOME=/root"; "TERM=xterm-256color"; "COLORTERM=truecolor"]) ∧
  (∃ srv' s o,
     createSession windows (serverWith DefaultConfig None) false someProgram 100 40
     = (srv', inr s) ∧
     MakeOptions_session [] s = Ok o ∧
     po_windowSize o = (100, 40) ∧ po_input o = None).
Proof.
  intros windows. split.
  - destruct (program_is_given_size_and_slave_file ["TERM=dumb"; "HOME=/root"]
                unixEnv (serverWith DefaultConfig None) false someProgram 0 40
                _ _ eq_refl) as (o & Ho & Hsize & _ & Hin).
    eexists _, _, o. split; [reflexivity|]. split; [exact Ho|].
    split; [exact Hsize|]. split; [exact Hin|].
    vm_compute in Ho. injection Ho as <-. reflexivity.
  - destruct (program_is_given_size_and_slave_file [] windows
                (serverWith DefaultConfig None) false someProgram 100 40
                _ _ eq_refl) as (o & Ho & Hsize & _ & Hin).
    eexists _, _, o. split; [reflexivity|]. split; [exact Ho|].
    split; [exact Hsize | exact Hin].
Defined.

(** ** The listening addresses *)

Lemma digitOf_pretty_N_char d :
  (d < 10)%N → digitOf (pretty_N_char d) = Some (Z.of_N d).
Proof.
  intros Hd.
  assert (d = 0 ∨ d = 1 ∨ d = 2 ∨ d = 3 ∨ d = 4 ∨ d = 5 ∨ d = 6 ∨ d = 7 ∨
          d = 8 ∨ d = 9)%N as Hcases by lia.
  repeat (destruct Hcases as [->|Hcases]; [reflexivity|]). by subst.
Qed.

(** Reading back the digits [pretty_N_go] writes in front of [s]. *)
Lemma atoiDigits_pretty_N_go x :
  ∃ k, ∀ s acc,
    atoiDigits acc (pretty_N_go x s) = atoiDigits (acc * k + Z.of_N x) s.
Proof.
  induction (N.lt_wf_0 x) as [x _ IH].
  destruct (decide (x = 0%N)) as [->|Hx].
  { exists 1. intros s acc. rewrite pretty_N_go_0. f_equal. lia. }
  destruct (IH (x `div` 10)%N) as [k Hk].
  { apply N.div_lt; lia. }
  exists (k * 10). intros s acc.
  rewrite pretty_N_go_step by lia. rewrite Hk. cbn [atoiDigits].
  rewrite digitOf_pretty_N_char by (apply N.mod_lt; lia). cbn.
  f_equal. pose proof (N.div_mod x 10). lia.
Qed.

Lemma pretty_N_go_head x s :
  (0 < x)%N ∨ (∃ c r, s = String c r ∧ is_Some (digitOf c)) →
  ∃ c r, pretty_N_go x s = String c r ∧ is_Some (digitOf c).
Proof.
  revert s. induction (N.lt_wf_0 x) as [x _ IH]; intros s Hs.
  destruct (decide (x = 0%N)) as [->|Hx].
  { rewrite pretty_N_go_0. destruct Hs as [?|?]; [lia|done]. }
  rewrite pretty_N_go_step by lia. apply IH; [apply N.div_lt; lia|].
  right. eexists _, _. split; [reflexivity|].
  rewrite digitOf_pretty_N_char by (apply N.mod_lt; lia). by eexists.
Qed.

(** [Atoi] reads back what [Itoa] writes. *)
Lemma Atoi_Itoa p : 0 ≤ p < 2 ^ 63 → strconv_Atoi (strconv_Itoa p) = Some p.
Proof.
  intros Hp. unfold strconv_Itoa. destruct p as [|x|x]; [reflexivity| |lia].
  change (pretty (Z.pos x)) with (pretty_N_go (N.pos x) "").
  destruct (pretty_N_go_head (N.pos x) "") as (c & r & Hhead & [d Hd]); [left; lia|].
  destruct (atoiDigits_pretty_N_go (N.pos x)) as [k Hk].
  pose proof (Hk "" 0) as Hread. cbn [atoiDigits] in Hread.
  unfold strconv_Atoi. rewrite Hhead in *.
  destruct (decide (c = "-"%char)) as [->|_]; [by vm_compute in Hd|].
  destruct (decide (c = "+"%char)) as [->|_]; [by vm_compute in Hd|].
  rewrite Hread. cbn [mbind option_bind].
  replace (0 * k + Z.of_N (N.pos x)) with (Z.pos x) by lia.
  destruct (Z.leb_spec (- 2 ^ 63) (Z.pos x)); [|lia].
  destruct (Z.ltb_spec (Z.pos x) (2 ^ 63)); [done|lia].
Qed.

Lemma atoiDigits_not_a_digit a c b acc :
  digitOf c = None → atoiDigits acc (a +:+ String c b) = None.
Proof.
  intros Hc. revert acc. induction a as [|x a IH]; intros acc.
  - change ("" +:+ String c b) with (String c b). cbn. by rewrite Hc.
  - change (String x a +:+ String c b) with (String x (a +:+ String c b)).
    cbn [atoiDigits]. destruct (digitOf x); [apply IH|done].
Qed.

Lemma Atoi_not_a_number a c b :
  a ≠ "" → digitOf c = None → strconv_Atoi (a +:+ String c b) = None.
Proof.
  intros Ha Hc. destruct a as [|x a]; [done|]. unfold strconv_Atoi.
  change (String x a +:+ String c b) with (String x (a +:+ String c b)).
  cbv beta iota.
  destruct (decide (x = "-"%char)); [|destruct (decide (x = "+"%char))];
    cbv beta iota.
  - pose proof (atoiDigits_not_a_digit a c b 0 Hc) as Hn.
    destruct (a +:+ String c b); [done|]. by rewrite Hn.
  - pose proof (atoiDigits_not_a_digit a c b 0 Hc) as Hn.
    destruct (a +:+ String c b); [done|]. by rewrite Hn.
  - pose proof (atoiDigits_not_a_digit (String x a) c b 0 Hc) as Hn.
    change (String x a +:+ String c b) with (String x (a +:+ String c b)) in Hn.
    by rewrite Hn.
Qed.

Lemma wrap_int64_id z : - 2 ^ 63 ≤ z < 2 ^ 63 → wrap_int64 z = z.
Proof. intros Hz. unfold wrap_int64. rewrite Z.mod_small; lia. Qed.



(** * Further properties of admission *)

(** X19.  The limit holds with concurrent handlers.  With
    max-connections N > 0, under every interleaving of the atomic steps
    of any number of handlers (the increment of an attempt, the decrement
    of a rejected attempt, the release of an admitted handler), the
    counter equals the handlers past the check plus the rejected attempts
    that have not yet decremented, and the handlers past the check never
    exceed N.  The counter itself can exceed N for a while, so an attempt
    can be rejected although fewer than N handlers are past the check.
    (Fewer than 2^31 - 1 steps, so that the counter cannot wrap.) *)
Theorem limit_holds_with_concurrent_handlers (srv : httpServer) evs :
  0 < MaxConnections (config srv) →
  connCount srv = 0 →
  Z.of_nat (length evs) < 2 ^ 31 - 1 →
  let st := handlersRun srv evs in
  connCount (ad_srv st) = Z.of_nat (ad_admitted st) + Z.of_nat (ad_undoing st) ∧
  Z.of_nat (ad_admitted st) ≤ MaxConnections (config srv) ∧
  config (ad_srv st) = config srv.
Proof.
  intros HN H0 Hlen. unfold handlersRun.
  assert (Hgen : ∀ evs st n,
            config (ad_srv st) = config srv →
            connCount (ad_srv st)
            = Z.of_nat (ad_admitted st) + Z.of_nat (ad_undoing st) →
            Z.of_nat (ad_admitted st) ≤ MaxConnections (config srv) →
            connCount (ad_srv st) ≤ Z.of_nat n →
            Z.of_nat (n + length evs) < 2 ^ 31 - 1 →
            let st' := foldl handlerStepRun st evs in
            connCount (ad_srv st')
            = Z.of_nat (ad_admitted st') + Z.of_nat (ad_undoing st') ∧
            Z.of_nat (ad_admitted st') ≤ MaxConnections (config srv) ∧
            config (ad_srv st') = config srv).
  { clear evs Hlen. induction evs as [|ev evs IH]; intros st n Hcfg Hc Ha Hn Hb.
    { done. }
    cbn [foldl length] in *.
    destruct (handlerStepRun_inv n st ev) as (Hcfg' & Hc' & Ha' & Hn');
      try (rewrite ?Hcfg; done); try lia.
    apply (IH _ (S n)); try done; [congruence|by rewrite <- Hcfg|lia]. }
  apply (Hgen evs _ 0%nat); cbn; try done; lia.
Qed.

Lemma limit_holds_with_concurrent_handlers_witness :
  let srv := serverWith (limitedConfig 2) None in
  let evs := [StepAttempt; StepAttempt; StepAttempt; StepFinish; StepAttempt;
              StepUndo; StepUndo] in
  0 < MaxConnections (config srv) ∧ connCount srv = 0 ∧
  Z.of_nat (length evs) < 2 ^ 31 - 1 ∧
  Z.of_nat (ad_admitted (handlersRun srv evs)) ≤ 2 ∧
  ad_admitted (handlersRun srv (take 4 evs)) = 1%nat ∧
  ad_undoing (handlersRun srv (take 5 evs)) = 2%nat ∧
  ad_admitted (handlersRun srv evs) = 1%nat.
Proof.
  intros srv evs.
  assert (HN : 0 < MaxConnections (config srv)) by (simpl; lia).
  assert (Hlen : Z.of_nat (length evs) < 2 ^ 31 - 1) by (simpl; lia).
  split; [exact HN|]. split; [reflexivity|]. split; [exact Hlen|]. split.
  - exact (proj1 (proj2 (limit_holds_with_concurrent_handlers srv evs HN
                           eq_refl Hlen))).
  - split; [|split]; reflexivity.
Defined.

(** ** A WebTransport connection is torn down when the client leaves *)

(** X20.  A WebTransport connection holds its resources until the
    client closes the WebTransport session.  The handler waits for both
    pumps and then for the WebTransport session's context; its deferred
    calls run only after that.  So in every interleaving, as long as the
    client has not closed the WebTransport session, no teardown call has
    been made: the session is still registered and open, its PTY is not
    closed and its admission slot is not released, even when the command
    has exited, the close frame has been sent and both pumps have
    returned. *)
Theorem webtransport_teardown_waits_for_client
    (json : list byte → option ResizeMessage) os srv0 cols rows srv s stream acts :
  createCmdSession os srv0 false cols rows = (srv, inr s) →
  let st := Conn.run json acts (Conn.start srv s stream) in
  Conn.wt_done st = false →
  Conn.handler_pc st = Conn.HWait ∧
  teardownCalls (Conn.trace st) = [] ∧
  sessions (Conn.srv st) !! cs_id s = Some CmdKind ∧
  cs_closed (Conn.session st) = false ∧
  connCount (Conn.srv st) = connCount srv.
Proof.
  intros Hcreate st Hwt.
  pose proof (ConnFacts.conn_start_inv _ _ _ _ _ _ stream Hcreate) as Hinv0.
  pose proof (ConnFacts.conn_run_inv json _ acts _ Hinv0) as Hinv.
  pose proof (conn_run_teardown json _ acts _ Hinv0 eq_refl) as Htr.
  assert (Hwait : Conn.handler_pc st ≠ Conn.HWait → Conn.wt_done st = true).
  { subst st. clear Hinv Htr Hwt Hinv0.
    assert (H0 : Conn.handler_pc (Conn.start srv s stream) ≠ Conn.HWait →
                 Conn.wt_done (Conn.start srv s stream) = true) by done.
    revert H0. generalize (Conn.start srv s stream).
    induction acts as [|a acts IH]; intros st0 H0; [done|].
    unfold Conn.run. cbn [foldl].
    destruct (Conn.step json a st0) as [st'|] eqn:Hstep; cbn [default].
    - apply IH. by eapply conn_step_waits.
    - by apply IH. }
  assert (Hcount : Conn.handler_pc st = Conn.HWait →
                   connCount (Conn.srv st) = connCount srv).
  { subst st. clear Hinv Htr Hwt Hinv0 Hwait.
    assert (H0 : Conn.handler_pc (Conn.start srv s stream) ≠ Conn.HReturned →
                 connCount (Conn.srv (Conn.start srv s stream)) = connCount srv)
      by done.
    intros Hpc.
    assert (Hgen : Conn.handler_pc (Conn.run json acts (Conn.start srv s stream))
                   ≠ Conn.HReturned →
                   connCount (Conn.srv (Conn.run json acts (Conn.start srv s stream)))
                   = connCount srv).
    { revert H0. generalize (Conn.start srv s stream). clear Hpc.
      induction acts as [|a acts IH]; intros st0 H0; [done|].
      unfold Conn.run. cbn [foldl].
      destruct (Conn.step json a st0) as [st'|] eqn:Hstep; cbn [default];
        [|by apply IH].
      apply IH. clear IH. unfold Conn.step in Hstep.
      destruct (Conn.panicked st0); [done|].
      destruct a.
      - destruct (Conn.proc_exited st0); [done|]. by injection Hstep as <-.
      - destruct (Conn.conn_cancelled st0); [done|]. by injection Hstep as <-.
      - destruct (Conn.wt_done st0); [done|]. by injection Hstep as <-.
      - destruct (Conn.proc_exited st0 && negb (Conn.watcher_done st0)); [|done].
        by injection Hstep as <-.
      - destruct (Conn.out_pc st0); try done.
        destruct (outputSelect _ _ _) as [ws [e|]]; by injection Hstep as <-.
      - destruct (Conn.out_pc st0); try done.
        destruct (outputRead _ _) as [ws [e|]]; by injection Hstep as <-.
      - destruct (Conn.in_pc st0); try done.
        destruct (select_done _ _ _); by injection Hstep as <-.
      - destruct (Conn.in_pc st0); try done.
        destruct (readMessage _ _ _ _) as [[e rest l|s' rest l]|];
          by injection Hstep as <-.
      - destruct (Conn.handler_pc st0) eqn:Hpc0; try done.
        + destruct (Conn.pumpsReturned st0 && Conn.wt_done st0); [|done].
          injection Hstep as <-. cbn. intros _. by apply H0.
        + pose proof (closeFunc_frame (Conn.srv st0) (AnyCmd (Conn.session st0)))
            as (_ & _ & Hcnt & _). cbn in Hcnt.
          destruct (closeCmdSession _ _) as [srv' s']. injection Hstep as <-.
          cbn in *. intros _. rewrite Hcnt. by apply H0.
        + injection Hstep as <-. cbn. intros _. by apply H0.
        + injection Hstep as <-. cbn. intros _. by apply H0.
        + injection Hstep as <-. cbn. intros _. by apply H0.
        + injection Hstep as <-. by cbn. }
    apply Hgen. by rewrite Hpc. }
  fold st in Hinv, Htr.
  assert (Hpc : Conn.handler_pc st = Conn.HWait).
  { destruct (Conn.handler_pc st) eqn:E; try done;
      (rewrite Hwait in Hwt; [done|by rewrite ?E]). }
  split; [exact Hpc|]. rewrite Htr, Hpc. split; [done|].
  destruct Hinv as (_ & _ & Hid & _ & _ & _ & Hh).
  unfold Conn.handler_inv in Hh. rewrite Hpc in Hh.
  destruct Hh as (Hcl & Hreg & _). rewrite <- Hid in Hreg.
  assert (Hids : cs_id (Conn.session st) = cs_id s).
  { rewrite Hid. done. }
  split; [by rewrite <- Hids|]. split; [done|]. by apply Hcount.
Qed.

Lemma webtransport_teardown_waits_for_client_witness :
  ∃ srv s,
    createCmdSession unixEnv (serverWith DefaultConfig (Some shellCommand))
      false 80 24 = (srv, inr s) ∧
    let st := Conn.run clientResize
                [Conn.ProcessExits; Conn.WatcherRuns; Conn.OutSelect false;
                 Conn.InSelect false; Conn.HandlerRuns; Conn.HandlerRuns]
                (Conn.start srv s []) in
    Conn.wt_done st = false ∧
    Conn.pumpsReturned st = true ∧
    last (Conn.writes (Conn.trace st)) = Some closeFrame ∧
    Conn.handler_pc st = Conn.HWait ∧
    teardownCalls (Conn.trace st) = [] ∧
    sessions (Conn.srv st) !! cs_id s = Some CmdKind.
Proof.
  eexists _, _. split; [reflexivity|]. intros st.
  assert (Hwt : Conn.wt_done st = false) by reflexivity.
  split; [exact Hwt|]. split; [reflexivity|]. split; [reflexivity|].
  destruct (webtransport_teardown_waits_for_client clientResize unixEnv
              (serverWith DefaultConfig (Some shellCommand)) 80 24 _ _ []
              [Conn.ProcessExits; Conn.WatcherRuns; Conn.OutSelect false;
               Conn.InSelect false; Conn.HandlerRuns; Conn.HandlerRuns]
              eq_refl Hwt) as (Hpc & Htr & Hreg & _).
  split; [exact Hpc|]. split; [exact Htr | exact Hreg].
Defined.
